(** * js-fea: mesh utilities, geometric cell sets and sparse assembly

    A shallow embedding of [src/core.utils.js], [src/gcellset.js] and the
    system-vector module of js-fea, with the properties of the
    specification stated over it.

    JavaScript numbers are IEEE 754 binary64 values; they are modelled by
    Rocq's primitive floats ([PrimFloat.float]), whose operations are the
    same round-to-nearest-even binary64 operations.  Node indices,
    equation numbers, array lengths and rotation offsets are JavaScript
    numbers that hold integers; they are modelled by [Z]. *)

From Stdlib Require Import ZArith List Lia Bool String Floats QArith.
From Stdlib Require HexString Sorted.
From stdpp Require Import gmap strings pretty.
Import ListNotations.

Local Open Scope Z_scope.

(** * The model *)

(** ** core.utils.js *)

Module Utils.

(** JavaScript's [%] on integers truncates towards zero: it is [Z.rem]. *)
Definition js_mod (a b : Z) : Z := Z.rem a b.

(** [rotateLeft(arr, offset)] for an integer [offset] (the guard that
    throws when [offset] is [undefined] never fires on a number):
    [i = (len + (offset % len)) % len], then [out[j] = arr[(i+j) % len]]
    for [j = 0 .. len-1].  For an empty array the loop does not run and
    the result is empty.  For a non-empty array the index read is inside
    the array ([rotateLeft_index_in_range]), so the default of [nth] is
    never returned. *)
Definition rotateLeft (arr : list Z) (offset : Z) : list Z :=
  let len := Z.of_nat (length arr) in
  let i := js_mod (len + js_mod offset len) len in
  map (fun j : nat => nth (Z.to_nat (js_mod (i + Z.of_nat j) len)) arr 0)
      (seq 0 (length arr)).

(** [rotateRight(arr, offset)] is [rotateLeft(arr, -offset)]. *)
Definition rotateRight (arr : list Z) (offset : Z) : list Z :=
  rotateLeft arr (- offset).

(** The accumulator of [minIndex]: [{value: Infinity, index: -1}] at the
    start; [value] is a number that may be [Infinity]. *)
Inductive jsnum : Type :=
| Fin (z : Z)
| Infinity.

Record sofar : Type := mkSofar { value : jsnum; index : Z }.

(** [x < sofar.value] for an integer [x]. *)
Definition lt_value (x : Z) (v : jsnum) : bool :=
  match v with
  | Fin z => x <? z
  | Infinity => true
  end.

(** The callback of [_.reduce] in the branch without a comparison
    function. *)
Definition minIndex_step (s : sofar) (xi : Z * Z) : sofar :=
  let '(x, i) := xi in
  if lt_value x (value s) then mkSofar (Fin x) i else s.

(** The pairs [(x, i)] that [_.reduce] hands to its callback. *)
Definition indexed (vec : list Z) : list (Z * Z) :=
  combine vec (map Z.of_nat (seq 0 (length vec))).

(** [minIndex(vec)] (no comparison function). *)
Definition minIndex (vec : list Z) : Z :=
  index (fold_left minIndex_step (indexed vec) (mkSofar Infinity (-1))).

(** [normalizedCell(conn)]. *)
Definition normalizedCell (conn : list Z) : list Z :=
  let offset := minIndex conn in
  rotateLeft conn offset.

(** [x] is below the running minimum [v]. *)
Definition above (x : Z) (v : jsnum) : Prop :=
  match v with Fin z => x < z | Infinity => True end.

(** The smallest entry of a cell, and the cells in which it occurs once. *)
Definition cellMin (c : list Z) : Z := fold_right Z.min (hd 0 c) c.

Definition minOccursOnce (c : list Z) : Prop :=
  count_occ Z.eq_dec c (cellMin c) = 1%nat.

End Utils.


(** ** JavaScript values used by the modules below *)

Module JS.

(** A call either returns a value or throws [new Error(msg)]. *)
Inductive Result (A : Type) : Type :=
| Ok (a : A)
| Throw (msg : string).
Arguments Ok {A} a.
Arguments Throw {A} msg.

Definition bind {A B : Type} (r : Result A) (k : A -> Result B) : Result B :=
  match r with
  | Ok a => k a
  | Throw msg => Throw msg
  end.

(** [NaN], the number that [undefined] becomes in arithmetic. *)
Definition NaN : float := nan.

(** [===] on two numbers. *)
Definition strictEquals (a b : float) : bool := PrimFloat.eqb a b.

(** [Math.PI]. *)
Definition Math_PI : float := 0x1.921fb54442d18p+1%float.

(** [arr[i]] used as a number: [undefined] counts as [NaN]. *)
Definition at_index (arr : list float) (i : nat) : float := nth i arr NaN.

Definition Vector : Type := list float.
Definition Matrix : Type := list (list float).

(** [m[i][j]] for a row [i] that exists. *)
Definition entry (m : Matrix) (i j : nat) : float := at_index (nth i m []) j.

(** [u === v] for two values that are a number or [undefined] ([None]). *)
Definition strictEquals_opt (u v : option Z) : bool :=
  match u, v with
  | Some a, Some b => a =? b
  | None, None => true
  | _, _ => false
  end.

End JS.

Notation "x <- e ;; k" := (JS.bind e (fun x => k))
  (at level 100, e at next level, right associativity).

(** ** Arithmetic of the shape-function kernels

    The kernels of [bfun] and [bfundpar] use the constants [0], [1],
    [0.5], [0.25], [0.125] and the operations [+], [-], [*] and unary
    minus.  They are written once over this interface and read at
    binary64 (what the code computes) and at the rationals (the exact
    arithmetic the formulas come from). *)

Class Number (num : Type) : Type := {
  lit_0 : num;
  lit_1 : num;
  lit_half : num;
  lit_quarter : num;
  lit_eighth : num;
  nadd : num -> num -> num;
  nsub : num -> num -> num;
  nmul : num -> num -> num;
  nneg : num -> num
}.

#[export] Instance Number_float : Number float := {|
  lit_0 := 0%float;
  lit_1 := 1%float;
  lit_half := 0.5%float;
  lit_quarter := 0.25%float;
  lit_eighth := 0.125%float;
  nadd := PrimFloat.add;
  nsub := PrimFloat.sub;
  nmul := PrimFloat.mul;
  nneg := PrimFloat.opp
|}.

#[export] Instance Number_Q : Number Q := {|
  lit_0 := 0%Q;
  lit_1 := 1%Q;
  lit_half := (1 # 2)%Q;
  lit_quarter := (1 # 4)%Q;
  lit_eighth := (1 # 8)%Q;
  nadd := Qplus;
  nsub := Qminus;
  nmul := Qmult;
  nneg := Qopp
|}.

(** The sum of a list of numbers, from the left, starting at [0]
    (what [Array.prototype.reduce] with [+] computes). *)
Definition nsum {num : Type} `{Number num} (l : list num) : num :=
  fold_left nadd l lit_0.

(** The rational number a binary64 value stands for (0 for the
    infinities and NaN, which stand for no number). *)
Definition SF2Q (s : spec_float) : Q :=
  match s with
  | S754_finite sg m e =>
      ((if sg then (-1) else 1) * inject_Z (Zpos m) * Qpower (2 # 1) e)%Q
  | _ => 0%Q
  end.

Definition F2Q (x : float) : Q := SF2Q (Prim2SF x).

(** The binary64 values that are numbers: neither an infinity nor NaN. *)
Definition is_finiteb (x : float) : bool :=
  match Prim2SF x with
  | S754_zero _ | S754_finite _ _ _ => true
  | _ => false
  end.

(** Finite binary64 values of magnitude below [2^K]: the number of digits
    of the mantissa plus the exponent is at most [K]. *)
Definition mag_le (K : Z) (s : spec_float) : Prop :=
  match s with
  | S754_zero _ => True
  | S754_finite _ m e => Zpos (digits2_pos m) + e <= K
  | _ => False
  end.

Definition fmag (K : Z) (x : float) : Prop := mag_le K (Prim2SF x).

(** The exact sum of the rationals a list of binary64 values stands for. *)
Definition exactSum (l : list float) : Q :=
  fold_right Qplus 0%Q (map F2Q l).

(** ** The external numeric library ([core.numeric], [feutils]) *)

Module Numeric.
Import JS.

(** Modelled from the spec: size of a matrix ([core.numeric] is not part
    of the sources): the list [[rows, columns]], the columns read off the
    first row; an array with no row has only the entry [rows]. *)
Definition size (m : Matrix) : list Z :=
  match m with
  | [] => [0]
  | r :: _ => [Z.of_nat (length m); Z.of_nat (length r)]
  end.

(** Modelled from the spec: transpose ([core.numeric] is not part of the
    sources): entry [(j, i)] of the result is entry [(i, j)] of the
    argument, the number of columns read off the first row; [undef] is
    what a missing entry of a ragged argument reads as. *)
Definition transpose_by {A : Type} (undef : A) (m : list (list A)) : list (list A) :=
  match m with
  | [] => []
  | r :: _ => map (fun j => map (fun row => nth j row undef) m) (seq 0 (length r))
  end.

(** Modelled from the spec: transpose of a matrix of numbers. *)
Definition transpose (m : Matrix) : Matrix := transpose_by NaN m.

(** Modelled from the spec: column extraction ([core.numeric] is not part
    of the sources). *)
Definition nthColumn (m : Matrix) (j : nat) : Vector :=
  map (fun row => at_index row j) m.

(** The numeric primitives that compute: the spec assumes them available
    and correct ([core.numeric] and [feutils] are not part of the
    sources), so the code is modelled over any implementation of them.
    [dot] and [mul] are used on two matrices and [dot] also on a matrix
    and a vector; [mul] is also used on a matrix and a scalar.  A
    determinant exists for square matrices only, so [det] may throw. *)
Class Library : Type := {
  norm : Vector -> float;
  det : Matrix -> Result float;
  dot_mm : Matrix -> Matrix -> Matrix;
  dot_mv : Matrix -> Vector -> Vector;
  mul_mm : Matrix -> Matrix -> Matrix;
  skewmat : Vector -> Matrix
}.

(** [mul(m, c)] for a scalar [c], over any [Number]. *)
Definition mul_scalar {num : Type} `{Number num}
    (m : list (list num)) (c : num) : list (list num) :=
  map (map (fun e => nmul e c)) m.

(** Modelled from the spec: a reference implementation of the numeric
    primitives ([core.numeric] and [feutils] are not part of the
    sources), used to evaluate the code on concrete inputs: dot products
    summed from the left, the Euclidean norm, determinants of size 1, 2
    and 3 by cofactors, and the skew-symmetric matrix of a 3-vector. *)
Definition dotVV (a b : Vector) : float :=
  fold_left PrimFloat.add (map (fun p => PrimFloat.mul (fst p) (snd p)) (combine a b)) 0%float.

(** Modelled from the spec: the product of a matrix and a vector. *)
Definition ref_dot_mv (m : Matrix) (v : Vector) : Vector :=
  map (fun row => dotVV row v) m.

(** Modelled from the spec: the product of two matrices. *)
Definition ref_dot_mm (a b : Matrix) : Matrix :=
  map (fun row => map (fun col => dotVV row col) (transpose b)) a.

(** Modelled from the spec: the Euclidean norm. *)
Definition ref_norm (v : Vector) : float := PrimFloat.sqrt (dotVV v v).

(** Modelled from the spec: the determinant. *)
Definition ref_det (m : Matrix) : Result float :=
  match m with
  | [[a]] => Ok a
  | [[a; b]; [c; d]] => Ok (a * d - b * c)%float
  | [[a; b; c]; [d; e; f]; [g; h; i]] =>
      Ok (a * (e * i - f * h) - b * (d * i - f * g) + c * (d * h - e * g))%float
  | _ => Throw "det: not a square matrix of size 1, 2 or 3"
  end.

(** Modelled from the spec: the skew-symmetric matrix of a 3-vector. *)
Definition ref_skewmat (v : Vector) : Matrix :=
  match v with
  | [x; y; z] => [[0; - z; y]; [z; 0; - x]; [- y; x; 0]]%float
  | _ => []
  end.

(** Modelled from the spec: the reference library. *)
Definition reference : Library := {|
  norm := ref_norm;
  det := ref_det;
  dot_mm := ref_dot_mm;
  dot_mv := ref_dot_mv;
  mul_mm := ref_dot_mm;
  skewmat := ref_skewmat
|}.

(** Modelled from the spec: the sparse vector of [core.numeric] (not part
    of the sources): a dimension and the entries that were set; [at]
    reads [0] where nothing was set, and [toFull] lists the positions
    [0 .. dim-1].  The model is used for positions inside [0 .. dim-1]
    only. *)
Record SparseVector : Type := mkSparseVector {
  sv_dim : Z;
  sv_entries : gmap Z float
}.

(** Modelled from the spec: [new SparseVector([], dim)]. *)
Definition SparseVector_new (dim : Z) : SparseVector := mkSparseVector dim ∅.

(** Modelled from the spec: [at(idx)]. *)
Definition sv_at (v : SparseVector) (idx : Z) : float :=
  default 0%float (sv_entries v !! idx).

(** Modelled from the spec: [set_(idx, x)]. *)
Definition sv_set_ (v : SparseVector) (idx : Z) (x : float) : SparseVector :=
  mkSparseVector (sv_dim v) (<[idx := x]> (sv_entries v)).

(** Modelled from the spec: [toFull()]. *)
Definition sv_toFull (v : SparseVector) : list float :=
  map (fun k => sv_at v (Z.of_nat k)) (seq 0 (Z.to_nat (sv_dim v))).

End Numeric.

(** ** The system-vector module: ElementVector and SparseSystemVector *)

Module SystemVector.
Import JS Numeric.

(** [new ElementVector(vec, eqnums)]: no input check. *)
Record ElementVector : Type := mkElementVector {
  vector : list float;
  eqnums : list Z
}.

(** What [this._evs] can hold: a JavaScript array, an iterator (an object
    with [hasNext] and [next]; [SrcIterator rest] is an iterator that has
    still [rest] to produce, in this order), or anything else. *)
Inductive Sources : Type :=
| SrcArray (lst : list ElementVector)
| SrcIterator (rest : list ElementVector)
| SrcOther.

(** A SparseVector object is referred to by its address in the heap. *)
Definition address : Type := nat.

(** A [SparseSystemVector] object; [_sparseVector] is [null] ([None]) or
    a reference to a SparseVector. *)
Record SparseSystemVector : Type := mkSparseSystemVector {
  _dim : Z;
  _evs : Sources;
  _sparseVector : option address
}.

(** The constructor. *)
Definition SparseSystemVector_new (dim : Z) (elementVectors : Sources)
  : SparseSystemVector :=
  mkSparseSystemVector dim elementVectors None.

(** The state the methods run in: the object itself, the SparseVector
    objects allocated so far (the address of an object is its position),
    and the number of [next()] calls made so far on iterators of
    ElementVectors. *)
Record State : Type := mkState {
  this : SparseSystemVector;
  heap : list SparseVector;
  pulls : nat
}.

(** The body of [ens.forEach(function(en, i) {...})] for one [(en, i)]. *)
Definition scatter_entry (vec : list float) (dest : SparseVector)
    (eni : Z * nat) : SparseVector :=
  let '(en, i) := eni in
  if negb (en =? 0) then
    let val := at_index vec i in
    let idx := en - 1 in
    let was := sv_at dest idx in
    sv_set_ dest idx (was + val)%float
  else dest.

(** One turn of the [while] loop, for the element vector [ev]. *)
Definition scatter (dest : SparseVector) (ev : ElementVector) : SparseVector :=
  let vec := vector ev in
  let ens := eqnums ev in
  fold_left (scatter_entry vec) (combine ens (seq 0 (length ens))) dest.

(** [while (sources.hasNext()) { ev = sources.next(); ... }] on an
    iterator that has still [rest] to produce: the iterator left behind,
    the destination and the number of [next()] calls. *)
Fixpoint drain (rest : list ElementVector) (dest : SparseVector) (n : nat)
  : list ElementVector * SparseVector * nat :=
  match rest with
  | [] => ([], dest, n)
  | ev :: rest' => drain rest' (scatter dest ev) (S n)
  end.

(** [_assemble_()]. *)
Definition _assemble_ (st : State) : Result State :=
  let self := this st in
  let dest := SparseVector_new (_dim self) in
  let a := length (heap st) in
  match _evs self with
  | SrcIterator rest =>
      let '(rest', dest', n) := drain rest dest (pulls st) in
      Ok (mkState (mkSparseSystemVector (_dim self) (SrcIterator rest') (Some a))
                  (heap st ++ [dest']) n)
  | SrcArray lst =>
      (* sources = iteratorFromList(sources) *)
      let '(_, dest', n) := drain lst dest (pulls st) in
      Ok (mkState (mkSparseSystemVector (_dim self) (SrcArray lst) (Some a))
                  (heap st ++ [dest']) n)
  | SrcOther =>
      Throw "SparseSystemVector::_assemble_: evs must be a iterator or array."
  end.

(** [sparseVector()]: the value of [this._sparseVector] after assembling
    if it was [null]. *)
Definition sparseVector (st : State) : Result (option address * State) :=
  match _sparseVector (this st) with
  | None =>
      st' <- _assemble_ st ;;
      Ok (_sparseVector (this st'), st')
  | Some a => Ok (Some a, st)
  end.

(** [toFull()]: [this.sparseVector().toFull()]. *)
Definition toFull (st : State) : Result (list float * State) :=
  r <- sparseVector st ;;
  let '(ref, st') := r in
  match ref with
  | Some a =>
      match nth_error (heap st') a with
      | Some v => Ok (sv_toFull v, st')
      | None => Throw "TypeError: toFull of undefined"
      end
  | None => Throw "TypeError: toFull of null"
  end.

(** [n] calls of [sparseVector()] in a row: the values returned, and the
    state after the last call. *)
Fixpoint sparseVector_calls (n : nat) (st : State)
  : Result (list (option address) * State) :=
  match n with
  | O => Ok ([], st)
  | S n' =>
      r <- sparseVector st ;;
      let '(ref, st') := r in
      rs <- sparseVector_calls n' st' ;;
      let '(refs, st'') := rs in
      Ok (ref :: refs, st'')
  end.



(** The element vectors a source supplies. *)
Definition supplied (s : Sources) : option (list ElementVector) :=
  match s with
  | SrcArray lst => Some lst
  | SrcIterator rest => Some rest
  | SrcOther => None
  end.

(** Equation numbers are [0] or a position [1 .. dim] of the global
    vector. *)
Definition eqnums_in_range (dim : Z) (evs : list ElementVector) : Prop :=
  Forall (fun ev => Forall (fun en => 0 <= en <= dim) (eqnums ev)) evs.

(** The scenario of the specification. *)
Definition ev1 : ElementVector := mkElementVector [1; 2]%float [1; 2].
Definition ev2 : ElementVector := mkElementVector [3; 4]%float [2; 0].

End SystemVector.

(** ** gcellset.js *)

Module GCell.
Import JS Numeric.

(** *** Reference shape functions

    The bodies of [bfun] and [bfundpar] of L2, Q4 and H8, over any
    [Number]. *)
Section Kernels.
Context {num : Type} `{Number num}.

Definition L2_bfun (x : num) : list (list num) :=
  [ [nmul lit_half (nsub lit_1 x)];
    [nmul lit_half (nadd lit_1 x)] ].

Definition L2_bfundpar : list (list num) :=
  [ [nneg lit_half];
    [lit_half] ].

Definition Q4_bfun (xi eta : num) : list (list num) :=
  let one_minus_xi := nsub lit_1 xi in
  let one_plus_xi := nadd lit_1 xi in
  let one_minus_eta := nsub lit_1 eta in
  let one_plus_eta := nadd lit_1 eta in
  [ [nmul (nmul lit_quarter one_minus_xi) one_minus_eta];
    [nmul (nmul lit_quarter one_plus_xi) one_minus_eta];
    [nmul (nmul lit_quarter one_plus_xi) one_plus_eta];
    [nmul (nmul lit_quarter one_minus_xi) one_plus_eta] ].

Definition Q4_bfundpar (xi eta : num) : list (list num) :=
  [ [nmul (nneg (nsub lit_1 eta)) lit_quarter; nmul (nneg (nsub lit_1 xi)) lit_quarter];
    [nmul (nsub lit_1 eta) lit_quarter; nmul (nneg (nadd lit_1 xi)) lit_quarter];
    [nmul (nadd lit_1 eta) lit_quarter; nmul (nadd lit_1 xi) lit_quarter];
    [nmul (nneg (nadd lit_1 eta)) lit_quarter; nmul (nsub lit_1 xi) lit_quarter] ].

Definition H8_bfun (xi eta theta : num) : list (list num) :=
  let one_minus_xi := nsub lit_1 xi in
  let one_minus_eta := nsub lit_1 eta in
  let one_minus_theta := nsub lit_1 theta in
  let one_plus_xi := nadd lit_1 xi in
  let one_plus_eta := nadd lit_1 eta in
  let one_plus_theta := nadd lit_1 theta in
  [ [nmul (nmul (nmul lit_eighth one_minus_xi) one_minus_eta) one_minus_theta];
    [nmul (nmul (nmul lit_eighth one_plus_xi) one_minus_eta) one_minus_theta];
    [nmul (nmul (nmul lit_eighth one_plus_xi) one_plus_eta) one_minus_theta];
    [nmul (nmul (nmul lit_eighth one_minus_xi) one_plus_eta) one_minus_theta];
    [nmul (nmul (nmul lit_eighth one_minus_xi) one_minus_eta) one_plus_theta];
    [nmul (nmul (nmul lit_eighth one_plus_xi) one_minus_eta) one_plus_theta];
    [nmul (nmul (nmul lit_eighth one_plus_xi) one_plus_eta) one_plus_theta];
    [nmul (nmul (nmul lit_eighth one_minus_xi) one_plus_eta) one_plus_theta] ].

(** The 3 by 8 array [val] of [H8.prototype.bfundpar]. *)
Definition H8_bfundpar_val (xi eta theta : num) : list (list num) :=
  let one_minus_xi := nsub lit_1 xi in
  let one_minus_eta := nsub lit_1 eta in
  let one_minus_theta := nsub lit_1 theta in
  let one_plus_xi := nadd lit_1 xi in
  let one_plus_eta := nadd lit_1 eta in
  let one_plus_theta := nadd lit_1 theta in
  [ [ nmul (nneg one_minus_eta) one_minus_theta;
      nmul one_minus_eta one_minus_theta;
      nmul one_plus_eta one_minus_theta;
      nmul (nneg one_plus_eta) one_minus_theta;
      nmul (nneg one_minus_eta) one_plus_theta;
      nmul one_minus_eta one_plus_theta;
      nmul one_plus_eta one_plus_theta;
      nmul (nneg one_plus_eta) one_plus_theta ];
    [ nmul (nneg one_minus_xi) one_minus_theta;
      nmul (nneg one_plus_xi) one_minus_theta;
      nmul one_plus_xi one_minus_theta;
      nmul one_minus_xi one_minus_theta;
      nmul (nneg one_minus_xi) one_plus_theta;
      nmul (nneg one_plus_xi) one_plus_theta;
      nmul one_plus_xi one_plus_theta;
      nmul one_minus_xi one_plus_theta ];
    [ nmul (nneg one_minus_xi) one_minus_eta;
      nmul (nneg one_plus_xi) one_minus_eta;
      nmul (nneg one_plus_xi) one_plus_eta;
      nmul (nneg one_minus_xi) one_plus_eta;
      nmul one_minus_xi one_minus_eta;
      nmul one_plus_xi one_minus_eta;
      nmul one_plus_xi one_plus_eta;
      nmul one_minus_xi one_plus_eta ] ].

(** [val = mul(transpose(val), 0.125)]. *)
Definition H8_bfundpar (xi eta theta : num) : list (list num) :=
  mul_scalar (transpose_by lit_0 (H8_bfundpar_val xi eta theta)) lit_eighth.

End Kernels.

(** *** The concrete cell types *)

Inductive CellType : Type := P1 | L2 | Q4 | H8.

(** [dim()], from the manifold class of the type. *)
Definition dim (t : CellType) : Z :=
  match t with P1 => 0 | L2 => 1 | Q4 => 2 | H8 => 3 end.

Definition cellSize (t : CellType) : Z :=
  match t with P1 => 1 | L2 => 2 | Q4 => 4 | H8 => 8 end.

Definition type (t : CellType) : string :=
  match t with P1 => "P1" | L2 => "L2" | Q4 => "Q4" | H8 => "H8" end.

(** [bfun(paramCoords)] and [bfundpar(paramCoords)] as the code computes
    them: on binary64, a missing coordinate being [undefined]. *)
Definition bfun (t : CellType) (paramCoords : list float) : Matrix :=
  match t with
  | P1 => [[1%float]]
  | L2 => L2_bfun (at_index paramCoords 0)
  | Q4 => Q4_bfun (at_index paramCoords 0) (at_index paramCoords 1)
  | H8 => H8_bfun (at_index paramCoords 0) (at_index paramCoords 1)
                  (at_index paramCoords 2)
  end.

Definition bfundpar (t : CellType) (paramCoords : list float) : Matrix :=
  match t with
  | P1 => [[0%float]]
  | L2 => L2_bfundpar
  | Q4 => Q4_bfundpar (at_index paramCoords 0) (at_index paramCoords 1)
  | H8 => H8_bfundpar (at_index paramCoords 0) (at_index paramCoords 1)
                      (at_index paramCoords 2)
  end.

(** The entries of a column vector given as a one-column matrix, and
    column [j] of a matrix. *)
Definition entries {A : Type} (m : list (list A)) : list A := concat m.

Definition column {A : Type} (undef : A) (j : nat) (m : list (list A)) : list A :=
  map (fun row => nth j row undef) m.

(** A parametric point of the reference element: every coordinate lies
    in [[-1, 1]]. *)
Definition validParam (p : list float) : bool :=
  forallb (fun c => PrimFloat.leb (-1)%float c && PrimFloat.leb c 1%float) p.

(** All orders in which a list can be summed. *)
Fixpoint insertions {A : Type} (x : A) (l : list A) : list (list A) :=
  match l with
  | [] => [[x]]
  | y :: l' => (x :: l) :: map (cons y) (insertions x l')
  end.

Fixpoint orderings {A : Type} (l : list A) : list (list A) :=
  match l with
  | [] => [[]]
  | x :: l' => flat_map (insertions x) (orderings l')
  end.

(** *** Topology *)

(** Modelled from the spec: the Topology of [geometry.topology] (not part
    of the sources): the manifold dimension, for every dimension the
    cells as tuples of node indices, and the family label. *)
Record Topology : Type := mkTopology {
  topo_dim : Z;
  topo_cells : list (list (list Z));
  topo_family : string
}.

#[export] Instance Topology_eq_dec : EqDecision Topology.
Proof. solve_decision. Defined.

(** Modelled from the spec: [getDim()]. *)
Definition getDim (t : Topology) : Z := topo_dim t.

(** Modelled from the spec: [getCellsInDim(d)]. *)
Definition getCellsInDim (t : Topology) (d : Z) : list (list Z) :=
  if d <? 0 then [] else nth (Z.to_nat d) (topo_cells t) [].

(** Modelled from the spec: the arity of the cells of dimension [d]. *)
Definition getCellSizeInDim (t : Topology) (d : Z) : Z :=
  match getCellsInDim t d with
  | [] => 0
  | c :: _ => Z.of_nat (length c)
  end.

(** Modelled from the spec: every cell rewritten to its canonical form. *)
Definition normalized (t : Topology) : Topology :=
  mkTopology (topo_dim t) (map (map Utils.normalizedCell) (topo_cells t))
             (topo_family t).

(** Modelled from the spec: structural equality of topologies. *)
Definition topology_equals (a b : Topology) : bool := bool_decide (a = b).

(** *** GCellSet *)

(** A JavaScript function used as [otherDimension]: the object it is
    (two functions are the same object when their references agree) and
    what a call returns; an argument that is not passed is [undefined]
    ([None]). *)
Record JSFunction : Type := mkJSFunction {
  fn_ref : nat;
  fn_call : option (list Z) -> option Matrix -> option Matrix -> float
}.

(** The value kept in [this._otherDimension]. *)
Inductive OtherDim : Type :=
| ODNumber (v : float)
| ODFunction (f : JSFunction).

(** A GCellSet object of concrete type [variant]. *)
Record GCellSet : Type := mkGCellSet {
  variant : CellType;
  _axisSymm : bool;
  _otherDimension : OtherDim;
  _id : string;
  _topology : Topology
}.

(** [options.topology] when it holds an object, [options.otherDimension],
    and the options object. [opt_conn] and [opt_topology] are [None] when
    the property is missing; [opt_axisSymm] is [None] when the property
    is [null] or [undefined] and its truth value otherwise. *)
Inductive TopologyArg : Type :=
| IsTopology (t : Topology)
| NotTopology.

Inductive OtherDimArg : Type :=
| ArgNumber (v : float)
| ArgFunction (f : JSFunction)
| ArgNeither.

Record Options : Type := mkOptions {
  opt_conn : option (list (list Z));
  opt_topology : option TopologyArg;
  opt_otherDimension : OtherDimArg;
  opt_axisSymm : option bool
}.

(** What the constructors use and the sources do not contain:
    [hypercube] of [geometry.topology], which builds a Topology from a
    connectivity list or throws, and [check.number] of check-types. *)
Class Collaborators : Type := {
  hypercube : list (list Z) -> Z -> Result Topology;
  isNumber : float -> bool
}.

Section Construction.
Context `{Collaborators}.

(** [GCellSet.call(this, options)] for an object of concrete type [t];
    [uuid] is what the call of [uuid()] returns. *)
Definition GCellSet_init (t : CellType) (uuid : string) (options : Options)
  : Result GCellSet :=
  match opt_topology options with
  | Some (IsTopology topology) =>
      let otherDimension :=
        match opt_otherDimension options with
        | ArgNumber v => if isNumber v then ODNumber v else ODNumber 1%float
        | ArgFunction f => ODFunction f
        | ArgNeither => ODNumber 1%float
        end in
      let axisSymm :=
        match opt_axisSymm options with
        | Some b => b
        | None => false
        end in
      let cellSizeFromTopology := getCellSizeInDim topology (getDim topology) in
      let cellSizeShouldBe := cellSize t in
      if negb (cellSizeFromTopology =? cellSizeShouldBe) then
        Throw "GCellSet(): cellSize of the topology dismatch."
      else
        let dimFromTopology := getDim topology in
        let dimShouldBe := dim t in
        if negb (dimFromTopology =? dimShouldBe) then
          Throw "GCellSet(): dim of the topology dismatch."
        else
          Ok (mkGCellSet t axisSymm otherDimension uuid topology)
  | _ =>
      Throw "GCellSet#constructor(options): options is not a valid GCellSetInitOption."
  end.

Definition invalid_option (t : CellType) : string :=
  type t +:+ "#constructor(options): options is not a valid " +:+ type t
         +:+ "InitOption".

(** [new P1(options)], [new L2(options)], [new Q4(options)] and
    [new H8(options)]: the four constructors differ in the name and in
    the dimension handed to [hypercube]. *)
Definition construct (t : CellType) (uuid : string) (options : option Options)
  : Result GCellSet :=
  match options with
  | None => Throw (invalid_option t)
  | Some o =>
      match opt_conn o, opt_topology o with
      | None, None => Throw (invalid_option t)
      | Some conn, _ =>
          topology <- hypercube conn (dim t) ;;
          GCellSet_init t uuid
            (mkOptions (opt_conn o) (Some (IsTopology topology))
                       (opt_otherDimension o) (opt_axisSymm o))
      | None, Some _ => GCellSet_init t uuid o
      end
  end.

End Construction.

(** [axisSymm()] and [otherDimension(conn, N, x)]. *)
Definition axisSymm (g : GCellSet) : bool := _axisSymm g.

Definition otherDimension (g : GCellSet)
    (conn : option (list Z)) (N x : option Matrix) : float :=
  match _otherDimension g with
  | ODFunction f => fn_call f conn N x
  | ODNumber v => v
  end.

(** The argument of [equals]: a GCellSet or any other value. *)
Inductive Value : Type :=
| VGCellSet (g : GCellSet)
| VOther.

(** [equals(other)]; [otherDimension()] is called without arguments. *)
Definition equals (g : GCellSet) (other : Value) : bool :=
  match other with
  | VOther => false
  | VGCellSet o =>
      if negb (String.eqb (type (variant g)) (type (variant o)))
         || negb (cellSize (variant g) =? cellSize (variant o))
      then false
      else if negb (Bool.eqb (axisSymm g) (axisSymm o))
              || negb (strictEquals (otherDimension g None None None)
                                    (otherDimension o None None None))
      then false
      else if negb (topology_equals (normalized (_topology g))
                                    (normalized (_topology o)))
      then false
      else true
  end.

(** *** Jacobians *)

(** [xyz[0]] for [xyz = m[0]]: a TypeError when [m] has no row. *)
Definition index0 (xyz : option Vector) : Result float :=
  match xyz with
  | Some v => Ok (at_index v 0)
  | None => Throw "TypeError: cannot read property 0 of undefined"
  end.

(** [GCellSetManifold0.prototype]. *)
Module Manifold0.
Section WithLibrary.
Context `{Library}.

Definition jacobian (g : GCellSet) (conn : list Z) (N J x : Matrix)
  : Result float :=
  Ok 1%float.

Definition jacobianCurve (g : GCellSet) (conn : list Z) (N J x : Matrix)
  : Result float :=
  if axisSymm g then
    let xyz := head (dot_mm (transpose N) x) in
    r <- index0 xyz ;;
    Ok (1 * 2 * Math_PI * r)%float
  else
    Ok (1 * otherDimension g (Some conn) (Some N) (Some x))%float.

Definition jacobianSurface (g : GCellSet) (conn : list Z) (N J x : Matrix)
  : Result float :=
  if axisSymm g then
    let xyz := head (dot_mm (transpose N) x) in
    r <- index0 xyz ;;
    Ok (1 * 2 * Math_PI * r * otherDimension g (Some conn) (Some N) (Some x))%float
  else
    Ok (1 * otherDimension g (Some conn) (Some N) (Some x))%float.

Definition jacobianVolumn (g : GCellSet) (conn : list Z) (N J x : Matrix)
  : Result float :=
  if axisSymm g then
    let xyz := head (mul_mm (transpose N) x) in
    c <- jacobianCurve g conn N J x ;;
    r <- index0 xyz ;;
    Ok (c * 2 * Math_PI * r * otherDimension g (Some conn) (Some N) (Some x))%float
  else
    c <- jacobianCurve g conn N J x ;;
    Ok (c * otherDimension g (Some conn) (Some N) (Some x))%float.

End WithLibrary.
End Manifold0.

(** [GCellSetManifold1.prototype]. *)
Module Manifold1.
Section WithLibrary.
Context `{Library}.

(** [norm(transpose(J)[0])]; when [J] has no column the argument of
    [norm] is [undefined], which the model reports as an error. *)
Definition jacobianCurve (g : GCellSet) (conn : list Z) (N J x : Matrix)
  : Result float :=
  match head (transpose J) with
  | Some vec => Ok (norm vec)
  | None => Throw "TypeError: norm of undefined"
  end.

Definition jacobian (g : GCellSet) (conn : list Z) (N J x : Matrix)
  : Result float :=
  jacobianCurve g conn N J x.

Definition jacobianSurface (g : GCellSet) (conn : list Z) (N J x : Matrix)
  : Result float :=
  if axisSymm g then
    let xyz := head (dot_mm (transpose N) x) in
    c <- jacobianCurve g conn N J x ;;
    r <- index0 xyz ;;
    Ok (c * 2 * Math_PI * r)%float
  else
    c <- jacobianCurve g conn N J x ;;
    Ok (c * otherDimension g (Some conn) (Some N) (Some x))%float.

Definition jacobianVolumn (g : GCellSet) (conn : list Z) (N J x : Matrix)
  : Result float :=
  if axisSymm g then
    let xyz := head (dot_mm (transpose N) x) in
    c <- jacobianCurve g conn N J x ;;
    r <- index0 xyz ;;
    Ok (c * 2 * Math_PI * r * otherDimension g (Some conn) (Some N) (Some x))%float
  else
    c <- jacobianCurve g conn N J x ;;
    Ok (c * otherDimension g (Some conn) (Some N) (Some x))%float.

End WithLibrary.
End Manifold1.

(** [GCellSetManifold2.prototype]. *)
Module Manifold2.
Section WithLibrary.
Context `{Library}.

Definition jacobianSurface (g : GCellSet) (conn : list Z) (N J x : Matrix)
  : Result float :=
  let tmp := size J in
  let sdim := nth_error tmp 0 in
  let ntan := nth_error tmp 1 in
  if strictEquals_opt ntan (Some 2) then
    if strictEquals_opt sdim ntan then
      Ok (entry J 0 0 * entry J 1 1 - entry J 1 0 * entry J 0 1)%float
    else
      let jac := skewmat (nthColumn J 0) in
      let jac := dot_mv jac (nthColumn J 1) in
      Ok (norm jac)
  else
    Throw "GCellSetManifold2::jacobianSurface(): is not implemented when ntan is not 2".

Definition jacobian (g : GCellSet) (conn : list Z) (N J x : Matrix)
  : Result float :=
  jacobianSurface g conn N J x.

Definition jacobianVolumn (g : GCellSet) (conn : list Z) (N J x : Matrix)
  : Result float :=
  if axisSymm g then
    let xyz := head (dot_mm (transpose N) x) in
    s <- jacobianSurface g conn N J x ;;
    r <- index0 xyz ;;
    Ok (s * 2 * Math_PI * r)%float
  else
    s <- jacobianSurface g conn N J x ;;
    Ok (s * otherDimension g (Some conn) (Some N) (Some x))%float.

End WithLibrary.
End Manifold2.

(** [GCellSetManifold3.prototype]. *)
Module Manifold3.
Section WithLibrary.
Context `{Library}.

Definition jacobianVolumn (g : GCellSet) (conn : list Z) (N J x : Matrix)
  : Result float :=
  let tmp := size J in
  let sdim := nth_error tmp 0 in
  let ntan := nth_error tmp 0 in
  if strictEquals_opt ntan (Some 3) then
    det J
  else
    Throw "GCellSetManifold3#jacobianVolumn(): incorrect size of tangents.".

Definition jacobian (g : GCellSet) (conn : list Z) (N J x : Matrix)
  : Result float :=
  jacobianVolumn g conn N J x.

End WithLibrary.
End Manifold3.

(** [sdim] by [ntan] matrices: [sdim >= 1] rows of [ntan] entries each;
    [ntan] is the number of tangent columns. *)
Definition isMatrix (sdim ntan : nat) (J : Matrix) : Prop :=
  (1 <= sdim)%nat /\ length J = sdim /\ Forall (fun row => length row = ntan) J.

(** The reading of C2: [jacobianVolumn] is the next-lower Jacobian
    [lower] times [otherDimension], and times [2*pi*r] on top of that
    when the axisymmetry flag is set. *)
Definition jacobianVolumn_claimed (lower : float) (g : GCellSet)
    (conn : list Z) (N x : Matrix) (r : float) : float :=
  if axisSymm g then
    (lower * otherDimension g (Some conn) (Some N) (Some x) * (2 * Math_PI * r))%float
  else
    (lower * otherDimension g (Some conn) (Some N) (Some x))%float.

End GCell.

(** ** Concrete inputs used in the examples *)

Module Examples.
Import JS Numeric GCell.

(** The binary64 values that the literals [0.1], [0.3] and [0.6]
    denote. *)
Definition d0_1 : float := 0x1.999999999999ap-4%float.
Definition d0_3 : float := 0x1.3333333333333p-2%float.
Definition d0_6 : float := 0x1.3333333333333p-1%float.

Definition topologyQ4 : Topology :=
  mkTopology 2
    [ [[0]; [1]; [2]; [3]];
      [[0; 1]; [1; 2]; [2; 3]; [0; 3]];
      [[0; 1; 2; 3]] ]
    "P1L2Q4H8".

Definition topologyL2 : Topology :=
  mkTopology 1 [ [[0]; [1]]; [[0; 1]] ] "P1L2Q4H8".

(** An axisymmetric Q4 cell set of thickness 2 on the unit square whose
    left edge is at radius 1, and the arguments of its Jacobians at the
    centre of the cell. *)
Definition axisymmetricQ4 : GCellSet :=
  mkGCellSet Q4 true (ODNumber 2%float) "q4" topologyQ4.

Definition centreN : Matrix := [[0.25]; [0.25]; [0.25]; [0.25]]%float.
Definition squareX : Matrix := [[1; 0]; [2; 0]; [2; 1]; [1; 1]]%float.
Definition identityJ : Matrix := [[1; 0]; [0; 1]]%float.

(** An L2 cell set of thickness 2 that is not axisymmetric, on the
    segment from (0, 0) to (6, 8), and the arguments of its Jacobians at
    the centre of the cell: the tangent (3, 4) has length 5. *)
Definition thickL2 : GCellSet :=
  mkGCellSet L2 false (ODNumber 2%float) "l2" topologyL2.

Definition centreN2 : Matrix := [[0.5]; [0.5]]%float.
Definition segmentX : Matrix := [[0; 0]; [6; 8]]%float.
Definition tangentJ : Matrix := [[3]; [4]]%float.

(** A topology with the cell size of Q4 and the dimension of L2: four
    nodes per cell at dimension 1. *)
Definition topologyFourNodeCurve : Topology :=
  mkTopology 1 [ [[0]]; [[0; 1; 2; 3]] ] "P1L2Q4H8".

(** An axisymmetric P1 cell set of thickness 2 at the point (3, 0). *)
Definition topologyP1 : Topology := mkTopology 0 [ [[0]] ] "P1L2Q4H8".

Definition axisymmetricP1 : GCellSet :=
  mkGCellSet P1 true (ODNumber 2%float) "p1" topologyP1.

Definition pointN : Matrix := [[1]]%float.
Definition pointX : Matrix := [[3; 0]]%float.

(** Three rows and two tangent columns; two rows and three tangent
    columns. *)
Definition J_3x2 : Matrix := [[1; 0]; [0; 1]; [0; 0]]%float.
Definition J_2x3 : Matrix := [[1; 0; 0]; [0; 1; 0]]%float.

(** The collaborators of the examples: [hypercube] that refuses every
    connectivity, and [check.number] that accepts every number but NaN. *)
Definition exampleCollaborators : Collaborators := {|
  hypercube := fun _ _ => Throw "hypercube: not modelled";
  isNumber := fun v => strictEquals v v
|}.

(** Two functions that are different objects and return the same
    thickness, and two Q4 cell sets that differ in them only. *)
Definition thicknessA : JSFunction := mkJSFunction 1 (fun _ _ _ => 2%float).
Definition thicknessB : JSFunction := mkJSFunction 2 (fun _ _ _ => 2%float).

Definition q4WithA : GCellSet :=
  mkGCellSet Q4 false (ODFunction thicknessA) "a" topologyQ4.
Definition q4WithB : GCellSet :=
  mkGCellSet Q4 false (ODFunction thicknessB) "b" topologyQ4.

End Examples.

(** ** core.utils.js: array generators, comparison, iterators, identifiers *)

Module CoreUtils.
Import JS Stdlib.Strings.Ascii.

(** *** array1d, array2d, embed *)

(** The second argument of [array1d]: a function of the index, or any
    other value, which is then used for every entry. *)
Inductive Generator1 (A : Type) : Type :=
| Gen1Function (fn : Z -> A)
| Gen1Constant (fn : A).
Arguments Gen1Function {A} fn.
Arguments Gen1Constant {A} fn.

(** The third argument of [array2d]. *)
Inductive Generator2 (A : Type) : Type :=
| Gen2Function (fn : Z -> Z -> A)
| Gen2Constant (fn : A).
Arguments Gen2Function {A} fn.
Arguments Gen2Constant {A} fn.

(** Where a call of [array1d] comes from: the program that uses the
    module, [array2d] (for the array of rows), the callback of [array2d]
    (for one row), or [embed]. *)
Inductive Caller : Type :=
| ByUser
| ByArray2d
| ByArray2dRow
| ByEmbed.

(** What the engine decides and the sources do not:
    [Function.prototype.apply] refuses an argument list that is too
    long for the stack that is left, which depends on where the call
    comes from.  [apply_accepts caller m] tells whether a list of [m]
    arguments is accepted in a call of [array1d] that comes from
    [caller], and [apply_refused] is the message of the error thrown
    when it is not. *)
Class Engine : Type := {
  apply_accepts : Caller -> Z -> bool;
  apply_refused : string
}.

(** The first length that [Array(m)] refuses: 2^32. *)
Definition arrayLengthLimit : Z := 4294967296.

Section WithEngine.
Context `{Engine}.

(** [Array.apply(null, Array(m))] for an integer [m]: the indices of an
    array of [m] entries.  [Array(m)] throws a RangeError unless
    [0 <= m < 2^32]; then [apply] is called with [m] arguments. *)
Definition Array_indices (caller : Caller) (m : Z) : Result (list Z) :=
  if (m <? 0) || (arrayLengthLimit <=? m) then
    Throw "RangeError: Invalid array length"
  else if apply_accepts caller m then Ok (map Z.of_nat (seq 0 (Z.to_nat m)))
  else Throw apply_refused.

(** [array1d(m, fn)], called from [caller]. *)
Definition array1d {A : Type} (caller : Caller) (m : Z) (fn : Generator1 A)
  : Result (list A) :=
  match fn with
  | Gen1Function f =>
      blank <- Array_indices caller m ;; Ok (map (fun i => f i) blank)
  | Gen1Constant c =>
      blank <- Array_indices caller m ;; Ok (map (fun _ => c) blank)
  end.

(** The results of the callbacks of one [map], in order: the first call
    that throws ends the [map]. *)
Fixpoint collect {A : Type} (calls : list (Result A)) : Result (list A) :=
  match calls with
  | [] => Ok []
  | c :: rest => x <- c ;; xs <- collect rest ;; Ok (x :: xs)
  end.

(** [array2d(m, n, fn)]: the callback handed to the outer [array1d]
    calls [array1d(n, ...)] for each row, which may throw. *)
Definition array2d {A : Type} (m n : Z) (fn : Generator2 A)
  : Result (list (list A)) :=
  match fn with
  | Gen2Function f =>
      rows <- array1d ByArray2d m (Gen1Function (fun i =>
                array1d ByArray2dRow n (Gen1Function (fun j => f i j)))) ;;
      collect rows
  | Gen2Constant c =>
      rows <- array1d ByArray2d m (Gen1Function (fun i =>
                array1d ByArray2dRow n (Gen1Constant c))) ;;
      collect rows
  end.

End WithEngine.

(** The value that [fn] gives for row [i], column [j]. *)
Definition value2 {A : Type} (fn : Generator2 A) (i j : nat) : A :=
  match fn with
  | Gen2Function f => f (Z.of_nat i) (Z.of_nat j)
  | Gen2Constant c => c
  end.

(** The first argument of [embed]: an array of numbers, or a value for
    which [_.isArray] is false. *)
Inductive ArrayArg : Type :=
| IsArray (vec : Vector)
| NotArray.

(** [embed(vec, dim)] for a number [dim] that holds an integer: the loop
    assigns [out[i] = vec[i]] for [i] below [min(vec.length, dim)]. *)
Definition embed `{Engine} (vec : ArrayArg) (dim : Z) : Result Vector :=
  match vec with
  | IsArray v =>
      out <- array1d ByEmbed dim (Gen1Constant 0%float) ;;
      let len := if Z.of_nat (length v) <? dim then Z.of_nat (length v)
                 else dim in
      Ok (fold_left (fun out i => <[i := at_index v i]> out)
                    (seq 0 (Z.to_nat len)) out)
  | NotArray => Throw "embed(vec, dim): vec must be a Javascript array."
  end.

(** *** byLexical *)

(** What [byLexical] returns: the variable [res], which is [undefined]
    until the loop assigns it, and then the difference of two entries,
    [NaN] when an entry of [b] is missing. *)
Inductive Difference : Type :=
| DUndefined
| DNaN
| DNumber (z : Z).

(** The loop of [byLexical(a, b)] from index [i] on, for the entries
    [a[i..]] and [b[i..]] of two arrays of integers; [res] is the value
    of the variable when the loop is entered. *)
Fixpoint byLexical_loop (a b : list Z) (res : Difference) : Difference :=
  match a with
  | [] => res
  | x :: a' =>
      match b with
      | [] => DNaN
      | y :: b' =>
          let res := x - y in
          if negb (res =? 0) then DNumber res
          else byLexical_loop a' b' (DNumber res)
      end
  end.

Definition byLexical (a b : list Z) : Difference :=
  byLexical_loop a b DUndefined.

(** [res < 0], the test a sort makes on the result of a comparison
    function. *)
Definition isNegative (res : Difference) : bool :=
  match res with
  | DNumber z => z <? 0
  | _ => false
  end.

(** *** Iterators *)

(** What [next()] returns. *)
Inductive Item (A : Type) : Type :=
| Value (a : A)
| Undefined
| Null.
Arguments Value {A} a.
Arguments Undefined {A}.
Arguments Null {A}.

(** An object with the methods [hasNext] and [next]; the variables its
    methods close over are its state, which [next] may change. *)
Record Iterator (A : Type) : Type := mkIterator {
  it_state : Type;
  it_now : it_state;
  it_hasNext : it_state -> bool;
  it_next : it_state -> Item A * it_state
}.
Arguments mkIterator {A} it_state it_now it_hasNext it_next.
Arguments it_state {A} i.
Arguments it_now {A} i.
Arguments it_hasNext {A} i.
Arguments it_next {A} i.

(** [iter.hasNext()] and [iter.next()]. *)
Definition hasNext {A : Type} (iter : Iterator A) : bool :=
  it_hasNext iter (it_now iter).

Definition next {A : Type} (iter : Iterator A) : Item A * Iterator A :=
  let '(x, s) := it_next iter (it_now iter) in
  (x, mkIterator (it_state iter) s (it_hasNext iter) (it_next iter)).

(** [noopIterator]. *)
Definition noopIterator {A : Type} : Iterator A :=
  mkIterator unit tt (fun _ => false) (fun s => (Null, s)).

(** [lst[i]]. *)
Definition item_at {A : Type} (lst : list A) (i : nat) : Item A :=
  match nth_error lst i with
  | Some a => Value a
  | None => Undefined
  end.

(** The argument of [iteratorFromList]. *)
Inductive ListArg (A : Type) : Type :=
| IsList (lst : list A)
| NotList.
Arguments IsList {A} lst.
Arguments NotList {A}.

(** The object [iteratorFromList(lst)] returns, when its variable [i]
    holds [i]: [hasNext] is [i < len] and [next] is [lst[i++]]; [len] is
    read once, when the iterator is made. *)
Definition list_iterator {A : Type} (lst : list A) (i : nat) : Iterator A :=
  let len := length lst in
  mkIterator nat i
             (fun i => (i <? len)%nat)
             (fun i => (item_at lst i, S i)).

(** [iteratorFromList(lst)]. *)
Definition iteratorFromList {A : Type} (lst : ListArg A)
  : Result (Iterator A) :=
  match lst with
  | NotList => Throw "iteratorFromList(lst): lst must be an array."
  | IsList l => Ok (list_iterator l 0)
  end.

(** [listFromIterator(iter)]: the [while] loop makes at most [fuel]
    tests of [hasNext()]; [None] when that is not enough. The iterator
    is returned as the loop leaves it. *)
Fixpoint listFromIterator_loop {A : Type} (fuel : nat) (iter : Iterator A)
    (out : list (Item A)) : option (list (Item A) * Iterator A) :=
  match fuel with
  | O => None
  | S fuel' =>
      if hasNext iter then
        let '(x, iter') := next iter in
        listFromIterator_loop fuel' iter' (out ++ [x])
      else Some (out, iter)
  end.

Definition listFromIterator {A : Type} (fuel : nat) (iter : Iterator A)
  : option (list (Item A) * Iterator A) :=
  listFromIterator_loop fuel iter [].

(** *** uuid *)

(** [v.toString(16)] for an integer [v]. *)
Definition toString16 (v : Z) : string :=
  match v with
  | 0 => "0"
  | Z.pos p => HexString.Raw.of_pos p ""
  | Z.neg p => "-" +:+ HexString.Raw.of_pos p ""
  end.

(** The callback of [replace], called with the matched character [c];
    [r] is the value of [Math.random()*16|0] in this call. *)
Definition uuid_digit (c : ascii) (r : Z) : string :=
  let v := if Ascii.eqb c "x"%char then r else Z.lor (Z.land r 3) 8 in
  toString16 v.

(** [template.replace(/[xy]/g, callback)]: the callback is called once
    for every [x] and [y], from left to right; [random k] is the value
    of [Math.random()*16|0] in call number [k]. *)
Fixpoint replace_xy (template : string) (random : nat -> Z) (k : nat)
  : string :=
  match template with
  | EmptyString => EmptyString
  | String c rest =>
      if Ascii.eqb c "x"%char || Ascii.eqb c "y"%char
      then uuid_digit c (random k) +:+ replace_xy rest random (S k)
      else String c (replace_xy rest random k)
  end.

Definition uuid (random : nat -> Z) : string :=
  replace_xy "xxxxxxxx-xxxx-4xxx-yxxx-xxxxxxxxxxxx" random 0.

(** A lower-case hexadecimal digit. *)
Definition isHexDigit (c : ascii) : bool :=
  let n := nat_of_ascii c in
  ((48 <=? n) && (n <=? 57) || (97 <=? n) && (n <=? 102))%nat.

End CoreUtils.

(** ** core.utils.js: contracts on vectors and matrices *)

Module Contracts.
Import JS.

(** The values a contract is applied to: a number, an array of values,
    or anything else. *)
#[warnings="-register-all"] Inductive JSValue : Type :=
| JSNumber (x : float)
| JSArray (elements : list JSValue)
| JSOther.

(** A dimension handed to [ensureMatrixOfDimension] and
    [ensureVectorOfDimension]: the string ['*'] or a number that holds
    an integer. *)
Inductive Dimension : Type :=
| Star
| Fixed (n : Z).

(** ['' + m]. *)
Definition show (d : Dimension) : string :=
  match d with
  | Star => "*"
  | Fixed n => pretty n
  end.

(** What check-types and the language provide and the sources do not
    contain: [check.number], the message of the error that
    [assert.positive] throws when it is called without a message, and
    the conversion of a value to a string. *)
Class CheckTypes : Type := {
  check_number : float -> bool;
  not_positive : string;
  toString : JSValue -> string
}.

Definition newline : string := String (Ascii.ascii_of_nat 10) EmptyString.

(** A function made by [defineContract(c, whatsWrong)]: [noop] when
    [_env] is not ['dev'], and otherwise a function that runs [c] and
    puts [whatsWrong] and a line break before the message of an error;
    [state] holds the variables that [c] closes over and assigns. *)
Inductive Contract (S : Type) : Type :=
| Noop
| Checking (state : S) (whatsWrong : string).
Arguments Noop {S}.
Arguments Checking {S} state whatsWrong.

Definition defineContract {S : Type} (_env : string) (state : S)
    (whatsWrong : string) : Contract S :=
  if String.eqb _env "dev" then Checking state whatsWrong else Noop.

(** A call of a contract whose body is [c]: the outcome, and the
    contract with the variables as the call leaves them. *)
Definition call {S A : Type} (c : S -> A -> Result unit * S)
    (contract : Contract S) (arg : A) : Result unit * Contract S :=
  match contract with
  | Noop => (Ok tt, Noop)
  | Checking state whatsWrong =>
      match c state arg with
      | (Ok _, state') => (Ok tt, Checking state' whatsWrong)
      | (Throw message, state') =>
          (Throw (whatsWrong +:+ newline +:+ message),
           Checking state' whatsWrong)
      end
  end.

(** A call returned, it did not throw. *)
Definition returned {A : Type} (r : Result A) : bool :=
  match r with
  | Ok _ => true
  | Throw _ => false
  end.

(** [if (m !== '*') assert.positive(m)]. *)
Definition assert_positive `{CheckTypes} (d : Dimension) : Result unit :=
  match d with
  | Star => Ok tt
  | Fixed n => if 0 <? n then Ok tt else Throw not_positive
  end.

(** [if (!msg) msg = default]: [msg] is [None] when the argument is
    missing; the empty string counts as missing. *)
Definition message_or (msg : option string) (default : string) : string :=
  match msg with
  | Some s => if String.eqb s "" then default else s
  | None => default
  end.

(** [x.length === n] for a dimension [n] that is a number. *)
Definition lengthIs (len : nat) (d : Dimension) : bool :=
  match d with
  | Fixed n => Z.of_nat len =? n
  | Star => false
  end.

(** [if (n === '*') n = x.length]. *)
Definition pinned (d : Dimension) (len : nat) : Dimension :=
  match d with
  | Star => Fixed (Z.of_nat len)
  | Fixed n => Fixed n
  end.

Section WithCheckTypes.
Context `{CheckTypes}.

(** [assert.number(v, message)]. *)
Definition assert_number (v : JSValue) (message : string) : Result unit :=
  match v with
  | JSNumber x => if check_number x then Ok tt else Throw message
  | _ => Throw message
  end.

(** *** Vectors *)

(** The loop [for (i = 0; i < n; ++i) assert.number(vec[i], ...)] from
    index [i] on, over the entries [vec[i..]]. *)
Fixpoint vector_entries (i : nat) (entries : list JSValue) : Result unit :=
  match entries with
  | [] => Ok tt
  | e :: rest =>
      _ <- assert_number e ("vec(" +:+ pretty i +:+ "): " +:+ toString e
                              +:+ " is not a number.") ;;
      vector_entries (S i) rest
  end.

(** The body of the contract of [ensureVectorOfDimension(n, msg)]; the
    state is the variable [n]. *)
Definition vector_body (n : Dimension) (vec : JSValue)
  : Result unit * Dimension :=
  match vec with
  | JSArray entries =>
      let n := pinned n (length entries) in
      if negb (lengthIs (length entries) n) then
        (Throw ("vec length " +:+ pretty (length entries) +:+ " is not "
                  +:+ show n), n)
      else (vector_entries 0 entries, n)
  | _ => (Throw "vec is not a JS array", n)
  end.

(** [ensureVectorOfDimension(n, msg)]. *)
Definition ensureVectorOfDimension (_env : string) (n : Dimension)
    (msg : option string) : Result (Contract Dimension) :=
  _ <- assert_positive n ;;
  let msg := message_or msg ("input is not a vector of " +:+ show n
                               +:+ " dimension.") in
  Ok (defineContract _env n msg).

(** [isVectorOfDimension(vector, n)]. *)
Definition isVectorOfDimension (_env : string) (vector : JSValue)
    (n : Dimension) : bool :=
  match ensureVectorOfDimension _env n None with
  | Ok contract => returned (fst (call vector_body contract vector))
  | Throw _ => false
  end.

(** *** Matrices *)

(** The loop over [j] for row [i], from column [j] on. *)
Fixpoint matrix_entries (i j : nat) (entries : list JSValue) : Result unit :=
  match entries with
  | [] => Ok tt
  | e :: rest =>
      _ <- assert_number e ("mat(" +:+ pretty i +:+ "," +:+ pretty j
                              +:+ ") is not a number.") ;;
      matrix_entries i (S j) rest
  end.

(** The loop over [i], from row [i] on; the variable [n] goes in and
    comes out. *)
Fixpoint matrix_rows (n : Dimension) (i : nat) (rows : list JSValue)
  : Result unit * Dimension :=
  match rows with
  | [] => (Ok tt, n)
  | JSArray entries :: rest =>
      let n := pinned n (length entries) in
      if negb (lengthIs (length entries) n) then
        (Throw ("row " +:+ pretty i +:+ " has " +:+ pretty (length entries)
                  +:+ " elements" +:+ " instead of " +:+ show n), n)
      else
        match matrix_entries i 0 entries with
        | Ok _ => matrix_rows n (S i) rest
        | Throw message => (Throw message, n)
        end
  | _ :: rest => (Throw ("row " +:+ pretty i +:+ " is not a JS array"), n)
  end.

(** The body of the contract of [ensureMatrixOfDimension(m, n, msg)];
    the state is the pair of the variables [m] and [n]. *)
Definition matrix_body (mn : Dimension * Dimension) (mat : JSValue)
  : Result unit * (Dimension * Dimension) :=
  let '(m, n) := mn in
  match mat with
  | JSArray rows =>
      let m := pinned m (length rows) in
      if negb (lengthIs (length rows) m) then
        (Throw ("mat length " +:+ pretty (length rows) +:+ " is not "
                  +:+ show m), (m, n))
      else
        let '(outcome, n) := matrix_rows n 0 rows in
        (outcome, (m, n))
  | _ => (Throw "mat is not a JS array", (m, n))
  end.

(** [ensureMatrixOfDimension(m, n, msg)]. *)
Definition ensureMatrixOfDimension (_env : string) (m n : Dimension)
    (msg : option string) : Result (Contract (Dimension * Dimension)) :=
  _ <- assert_positive m ;;
  _ <- assert_positive n ;;
  let msg := message_or msg ("input is not a matrix of " +:+ show m +:+ " x "
                               +:+ show n +:+ ".") in
  Ok (defineContract _env (m, n) msg).

(** [isMatrixOfDimension(mat, m, n)]. *)
Definition isMatrixOfDimension (_env : string) (mat : JSValue)
    (m n : Dimension) : bool :=
  match ensureMatrixOfDimension _env m n None with
  | Ok contract => returned (fst (call matrix_body contract mat))
  | Throw _ => false
  end.

(** A value is a number that [check.number] accepts. *)
Definition isNumberValue (v : JSValue) : bool :=
  match v with
  | JSNumber x => check_number x
  | _ => false
  end.

(** A value is an array of [len] numbers. *)
Definition isNumberArray (len : nat) (v : JSValue) : bool :=
  match v with
  | JSArray entries =>
      (length entries =? len)%nat && forallb isNumberValue entries
  | _ => false
  end.

End WithCheckTypes.

(** A dimension that [assert.positive] lets pass. *)
Definition validDimension (d : Dimension) : bool :=
  match d with
  | Star => true
  | Fixed n => 0 <? n
  end.

(** A length agrees with a dimension. *)
Definition fits (len : nat) (d : Dimension) : bool :=
  match d with
  | Star => true
  | Fixed n => Z.of_nat len =? n
  end.

End Contracts.

(** ** gcellset.js: dispatch by target dimension, element-type chain,
    selection and copies *)

Module GCellSetOps.
Import JS Numeric GCell.

(** *** jacobianInDim *)

(** The messages of the [default] branches; [dim] is a number that holds
    an integer, so that ['...' + dim] appends its decimal form. *)
Definition wrong_dimension (class : string) (dim : Z) : string :=
  class +:+ "::jacobianInDim(): wrong dimension " +:+ pretty dim.

Definition unsupported_dim (class : string) (dim : Z) : string :=
  class +:+ "::jacobianInDim(): unsupported dim " +:+ pretty dim.

Section WithLibrary.
Context `{Library}.

(** [GCellSetManifold0.prototype.jacobianInDim]. *)
Definition Manifold0_jacobianInDim (g : GCellSet) (conn : list Z)
    (N J x : Matrix) (dim : Z) : Result float :=
  if dim =? 3 then Manifold0.jacobianVolumn g conn N J x
  else if dim =? 2 then Manifold0.jacobianSurface g conn N J x
  else if dim =? 1 then Manifold0.jacobianCurve g conn N J x
  else Throw (wrong_dimension "GCellSetManifold0" dim).

(** [GCellSetManifold1.prototype.jacobianInDim]. *)
Definition Manifold1_jacobianInDim (g : GCellSet) (conn : list Z)
    (N J x : Matrix) (dim : Z) : Result float :=
  if dim =? 3 then Manifold1.jacobianVolumn g conn N J x
  else if dim =? 2 then Manifold1.jacobianSurface g conn N J x
  else if dim =? 1 then Manifold1.jacobianCurve g conn N J x
  else Throw (wrong_dimension "GCellSetManifold1" dim).

(** [GCellSetManifold2.prototype.jacobianInDim]. *)
Definition Manifold2_jacobianInDim (g : GCellSet) (conn : list Z)
    (N J x : Matrix) (dim : Z) : Result float :=
  if dim =? 3 then Manifold2.jacobianVolumn g conn N J x
  else if dim =? 2 then Manifold2.jacobianSurface g conn N J x
  else Throw (unsupported_dim "GCellSetManifold2" dim).

(** [GCellSetManifold3.prototype.jacobianInDim]. *)
Definition Manifold3_jacobianInDim (g : GCellSet) (conn : list Z)
    (N J x : Matrix) (dim : Z) : Result float :=
  if dim =? 3 then Manifold3.jacobianVolumn g conn N J x
  else Throw (unsupported_dim "GCellSetManifold3" dim).

(** [g.jacobianInDim(conn, N, J, x, dim)] and [g.jacobian(conn, N, J, x)]
    for an object of concrete type [variant g]: P1 inherits from
    manifold 0, L2 from manifold 1, Q4 from manifold 2 and H8 from
    manifold 3. *)
Definition jacobianInDim (g : GCellSet) (conn : list Z) (N J x : Matrix)
    (dim : Z) : Result float :=
  match variant g with
  | P1 => Manifold0_jacobianInDim g conn N J x dim
  | L2 => Manifold1_jacobianInDim g conn N J x dim
  | Q4 => Manifold2_jacobianInDim g conn N J x dim
  | H8 => Manifold3_jacobianInDim g conn N J x dim
  end.

Definition jacobian (g : GCellSet) (conn : list Z) (N J x : Matrix)
  : Result float :=
  match variant g with
  | P1 => Manifold0.jacobian g conn N J x
  | L2 => Manifold1.jacobian g conn N J x
  | Q4 => Manifold2.jacobian g conn N J x
  | H8 => Manifold3.jacobian g conn N J x
  end.

(** The function [jacobianInDim] selects for a supported [dim]. *)
Definition jacobianNamed (g : GCellSet) (conn : list Z) (N J x : Matrix)
    (dim : Z) : Result float :=
  match variant g, dim with
  | P1, 1 => Manifold0.jacobianCurve g conn N J x
  | P1, 2 => Manifold0.jacobianSurface g conn N J x
  | P1, _ => Manifold0.jacobianVolumn g conn N J x
  | L2, 1 => Manifold1.jacobianCurve g conn N J x
  | L2, 2 => Manifold1.jacobianSurface g conn N J x
  | L2, _ => Manifold1.jacobianVolumn g conn N J x
  | Q4, 2 => Manifold2.jacobianSurface g conn N J x
  | Q4, _ => Manifold2.jacobianVolumn g conn N J x
  | H8, _ => Manifold3.jacobianVolumn g conn N J x
  end.

End WithLibrary.

(** The class whose [jacobianInDim] an object of type [t] inherits, and
    the wording of its error. *)
Definition manifoldClass (t : CellType) : string :=
  match t with
  | P1 => "GCellSetManifold0"
  | L2 => "GCellSetManifold1"
  | Q4 => "GCellSetManifold2"
  | H8 => "GCellSetManifold3"
  end.

Definition jacobianInDim_error (t : CellType) (dim : Z) : string :=
  match t with
  | P1 | L2 => wrong_dimension (manifoldClass t) dim
  | Q4 | H8 => unsupported_dim (manifoldClass t) dim
  end.

(** *** Lists for visualization *)

(** [cell[i]]: [undefined] ([None]) when the cell has no entry [i]. *)
Definition node (cell : list Z) (i : nat) : option Z := nth_error cell i.

(** The callback of [quads.forEach] in [Q4.prototype.triangles]: the
    triangles pushed for one quad. *)
Definition Q4_triangles_of (quad : list Z) : list (list (option Z)) :=
  let t1 := [node quad 0; node quad 1; node quad 2] in
  let t2 := [node quad 2; node quad 3; node quad 0] in
  [t1; t2].

(** The callback of [bricks.forEach] in [H8.prototype.triangles]. *)
Definition H8_triangles_of (brick : list Z) : list (list (option Z)) :=
  let t1 := [node brick 0; node brick 3; node brick 1] in
  let t2 := [node brick 1; node brick 3; node brick 2] in
  let t3 := [node brick 0; node brick 1; node brick 4] in
  let t4 := [node brick 1; node brick 5; node brick 4] in
  let t5 := [node brick 1; node brick 2; node brick 5] in
  let t6 := [node brick 6; node brick 5; node brick 2] in
  let t7 := [node brick 2; node brick 3; node brick 7] in
  let t8 := [node brick 7; node brick 6; node brick 2] in
  let t9 := [node brick 0; node brick 4; node brick 7] in
  let t10 := [node brick 4; node brick 7; node brick 3] in
  let t11 := [node brick 4; node brick 5; node brick 6] in
  let t12 := [node brick 6; node brick 7; node brick 4] in
  [t1; t2; t3; t4; t5; t6] ++ [t7; t8; t9; t10; t11; t12].

(** [triangles()]: P1 and L2 return the empty array, Q4 and H8 cut
    their quads and the faces of their bricks. *)
Definition triangles (g : GCellSet) : list (list (option Z)) :=
  match variant g with
  | P1 => []
  | L2 => []
  | Q4 => flat_map Q4_triangles_of (getCellsInDim (_topology g) 2)
  | H8 => flat_map H8_triangles_of (getCellsInDim (_topology g) 3)
  end.

(** The number of triangles [triangles()] makes of one cell. *)
Definition trianglesPerCell (t : CellType) : Z :=
  match t with
  | Q4 => 2
  | H8 => 12
  | _ => 0
  end.

(** *** Increments of the shape functions *)

(** Entry by entry, the values [after] minus the values [before], in
    exact arithmetic. *)
Definition increments (after before : list Q) : list Q :=
  map (fun ab : Q * Q => (fst ab - snd ab)%Q) (combine after before).

(** The values [h] times the entries of a column of derivatives. *)
Definition scaled (h : Q) (derivatives : list Q) : list Q :=
  map (fun d => (h * d)%Q) derivatives.

(** *** The chain of element types *)

(** [boundaryGCellSetConstructor()]: [null] for P1. *)
Definition boundaryGCellSetConstructor (t : CellType) : option CellType :=
  match t with
  | P1 => None
  | L2 => Some P1
  | Q4 => Some L2
  | H8 => Some Q4
  end.

(** [boundaryCellType()]: [C.prototype.type.call(null)]; reading
    [prototype] of [null] is a TypeError. *)
Definition boundaryCellType (t : CellType) : Result string :=
  match boundaryGCellSetConstructor t with
  | Some C => Ok (type C)
  | None => Throw "TypeError: Cannot read property 'prototype' of null"
  end.

(** [exports[name]] for the name of an element type: the four
    constructors this module exports, [undefined] ([None]) otherwise. *)
Definition exported (name : string) : option CellType :=
  if String.eqb name "P1" then Some P1
  else if String.eqb name "L2" then Some L2
  else if String.eqb name "Q4" then Some Q4
  else if String.eqb name "H8" then Some H8
  else None.

(** [cellTypes.indexOf(type)]. *)
Fixpoint indexOf (cellTypes : list string) (type : string) : Z :=
  match cellTypes with
  | [] => -1
  | s :: rest =>
      if String.eqb s type then 0
      else let i := indexOf rest type in
           if i <? 0 then -1 else i + 1
  end.

(** The table [Topology.FAMILY] of [geometry.topology], which the
    sources do not contain: [FAMILY[family].cellTypes], or [None] when
    [FAMILY[family]] is [undefined]. *)
Class FamilyTable : Type := {
  cellTypesOf : string -> option (list string)
}.

(** Modelled from the spec: [getFamilyType()]. *)
Definition getFamilyType (t : Topology) : string := topo_family t.

(** [extrudedGCellSetConstructor()]. *)
Definition extrudedGCellSetConstructor `{FamilyTable} (g : GCellSet)
  : Result (option CellType) :=
  let family := getFamilyType (_topology g) in
  match cellTypesOf family with
  | None => Throw "TypeError: Cannot read property 'cellTypes' of undefined"
  | Some cellTypes =>
      let type := type (variant g) in
      let idx := indexOf cellTypes type in
      if idx <? 0 then
        Throw ("GCellSet::extrudedGCellSetConstructor(): unknow type " +:+ type)
      else
        let idxNext := idx + 1 in
        if idxNext >=? Z.of_nat (length cellTypes) then
          Throw ("GCellSet::extrudedGCellSetConstructor(): unknow extruded type "
                   +:+ "for " +:+ type)
        else
          match nth_error cellTypes (Z.to_nat idxNext) with
          | Some nextType => Ok (exported nextType)
          | None => Ok None
          end
  end.

(** [setFamily_(name)]: the family of the owned topology is replaced
    when [name] is one of four names. *)
Definition setFamily_ (g : GCellSet) (name : string) : GCellSet :=
  if String.eqb name "P1L2T3T4" || String.eqb name "P1L3T6T10"
     || String.eqb name "P1L2Q4H8" || String.eqb name "P1L3Q8H20"
  then mkGCellSet (variant g) (_axisSymm g) (_otherDimension g) (_id g)
                  (mkTopology (topo_dim (_topology g))
                              (topo_cells (_topology g)) name)
  else g.

(** *** boxSelect and subset *)

(** [isXyzInsideBox] of [feutils], which the sources do not contain. *)
Class Feutils : Type := {
  isXyzInsideBox : Vector -> Vector -> bool
}.

(** The first argument of [boxSelect]: a FeNodeSet, given by its method
    [xyzAt], or a value that is no FeNodeSet. *)
Inductive FensArg : Type :=
| IsFeNodeSet (xyzAt : Z -> Vector)
| NotFeNodeSet.

(** The option object of [boxSelect]: [bounds] is [None] when
    [options.bounds] is not an array, [inflate] is [None] when
    [options.inflate] does not hold a number, [any] is [None] when
    [options.any] is [null] or [undefined] and its truth value
    otherwise. *)
Record boxSelectOption : Type := mkBoxSelectOption {
  bounds : option Vector;
  inflate : option float;
  any : option bool
}.

(** Modelled from the spec: [getMaxCells()], the cells of the dimension
    of the topology; [conn()] returns it. *)
Definition getMaxCells (t : Topology) : list (list Z) :=
  getCellsInDim t (getDim t).

Definition conn (g : GCellSet) : list (list Z) := getMaxCells (_topology g).

(** The callback of [bounds.map]. *)
Definition inflate_bound (amount : float) (xi : float * nat) : float :=
  let '(x, i) := xi in
  if (i mod 2 =? 0)%nat then (x - amount)%float else (x + amount)%float.

Section Selection.
Context `{Collaborators} `{Feutils}.

Definition allNodesInBox (xyzAt : Z -> Vector) (cell : list Z)
    (bounds : Vector) : bool :=
  forallb (fun idx => let xyz := xyzAt idx in isXyzInsideBox xyz bounds) cell.

Definition anyNodesInBox (xyzAt : Z -> Vector) (cell : list Z)
    (bounds : Vector) : bool :=
  existsb (fun idx => let xyz := xyzAt idx in isXyzInsideBox xyz bounds) cell.

(** The bounds [boxSelect] tests against. *)
Definition inflated (bounds : Vector) (inflate : option float) : Vector :=
  match inflate with
  | Some amount =>
      if isNumber amount
      then map (inflate_bound amount) (combine bounds (seq 0 (length bounds)))
      else bounds
  | None => bounds
  end.

(** [conn.forEach(function(cell, idx) { if (...) res.push(idx); })]. *)
Definition selected (isCellInBox : list Z -> bool) (conn : list (list Z))
  : list Z :=
  flat_map (fun ci : list Z * nat =>
              let '(cell, idx) := ci in
              if isCellInBox cell then [Z.of_nat idx] else [])
           (combine conn (seq 0 (length conn))).

(** [boxSelect(fens, options)]; [options] is [None] when it is not an
    object. *)
Definition boxSelect (g : GCellSet) (fens : FensArg)
    (options : option boxSelectOption) : Result (list Z) :=
  match fens with
  | NotFeNodeSet =>
      Throw ("GCellSet#boxSelect(fens, options): "
               +:+ "fens must be a FeNodeSet instance.")
  | IsFeNodeSet xyzAt =>
      match options with
      | Some (mkBoxSelectOption (Some bounds) inflate any) =>
          let bounds := inflated bounds inflate in
          let any := match any with Some b => b | None => false end in
          let isCellInBox :=
            if any then anyNodesInBox xyzAt else allNodesInBox xyzAt in
          Ok (selected (fun cell => isCellInBox cell bounds) (conn g))
      | _ =>
          Throw ("GCellSet#boxSelect(fens, options): "
                   +:+ "options is not valid boxSelectOption.")
      end
  end.

End Selection.

(** The function [subset(conn, indices)]: [cloneDeep(conn[idx])] for
    every index, which is [undefined] ([None]) when [conn] has no entry
    [idx]. *)
Definition subset (conn : list (list Z)) (indices : list Z)
  : list (option (list Z)) :=
  map (fun idx => if idx <? 0 then None else nth_error conn (Z.to_nat idx))
      indices.

(** *** clone *)

(** Modelled from the spec: [clone()] of a Topology, a deep copy. *)
Definition Topology_clone (t : Topology) : Topology :=
  mkTopology (topo_dim t) (topo_cells t) (topo_family t).

(** [this._otherDimension] handed on as [options.otherDimension]. *)
Definition asArgument (d : OtherDim) : OtherDimArg :=
  match d with
  | ODNumber v => ArgNumber v
  | ODFunction f => ArgFunction f
  end.

(** [clone()]: [new C({topology: ..., axisSymm: ..., otherDimension:
    ...})] with [C] the constructor of the object; [uuid] is what the
    call of [uuid()] in the constructor returns. *)
Definition clone `{Collaborators} (uuid : string) (g : GCellSet)
  : Result GCellSet :=
  construct (variant g) uuid
    (Some (mkOptions None
                     (Some (IsTopology (Topology_clone (_topology g))))
                     (asArgument (_otherDimension g))
                     (Some (_axisSymm g)))).

End GCellSetOps.

(** ** Further concrete inputs *)

Module MoreExamples.
Import JS Numeric GCell GCellSetOps Contracts CoreUtils Examples.

(** An engine whose [apply] accepts up to 65535 arguments wherever the
    call comes from. *)
Definition exampleEngine : Engine := {|
  apply_accepts := fun _ m => m <=? 65535;
  apply_refused := "RangeError: Maximum call stack size exceeded"
|}.

(** The 3 by 3 identity matrix, and a 3 by 3 Jacobian of determinant 6. *)
Definition identityJ3 : Matrix := [[1; 0; 0]; [0; 1; 0]; [0; 0; 1]]%float.
Definition stretchJ3 : Matrix := [[1; 0; 0]; [0; 2; 0]; [0; 0; 3]]%float.

(** One brick on the nodes 0 to 7, and an H8 cell set on it. *)
Definition topologyH8 : Topology :=
  mkTopology 3
    [ [[0]; [1]; [2]; [3]; [4]; [5]; [6]; [7]];
      [[0; 1]; [1; 2]; [2; 3]; [0; 3]; [4; 5]; [5; 6]; [6; 7]; [4; 7];
       [0; 4]; [1; 5]; [2; 6]; [3; 7]];
      [[0; 1; 2; 3]; [0; 1; 5; 4]; [1; 2; 6; 5]; [2; 3; 7; 6]; [0; 4; 7; 3];
       [4; 5; 6; 7]];
      [[0; 1; 2; 3; 4; 5; 6; 7]] ]
    "P1L2Q4H8".

Definition oneBrick : GCellSet :=
  mkGCellSet H8 false (ODNumber 1%float) "h8" topologyH8.

(** The corners of the brick [0, 1] x [0, 2] x [0, 3], and the values
    of the basis functions at its centre. *)
Definition brickX : Matrix :=
  [[0; 0; 0]; [1; 0; 0]; [1; 2; 0]; [0; 2; 0];
   [0; 0; 3]; [1; 0; 3]; [1; 2; 3]; [0; 2; 3]]%float.

Definition brickN : Matrix :=
  [[0.125]; [0.125]; [0.125]; [0.125]; [0.125]; [0.125]; [0.125]; [0.125]]%float.

(** A [check.number] that accepts every number but NaN, and stand-ins
    for the message of [assert.positive] and for the conversion of a
    value to a string. *)
Definition exampleCheckTypes : CheckTypes := {|
  check_number := fun v => strictEquals v v;
  not_positive := "Invalid number";
  toString := fun v =>
    match v with
    | JSNumber _ => "[number]"
    | JSArray _ => "[array]"
    | JSOther => "[object]"
    end
|}.

(** Modelled from the spec: the family chain table, with the chain of
    points, curves, quadrilaterals and hexahedra. *)
Definition exampleFamilies : FamilyTable := {|
  cellTypesOf := fun family =>
    if String.eqb family "P1L2Q4H8" then Some ["P1"; "L2"; "Q4"; "H8"]
    else None
|}.

(** Two unit squares side by side, on the nodes
    [0 (0,0)], [1 (1,0)], [2 (2,0)], [3 (0,1)], [4 (1,1)], [5 (2,1)]. *)
Definition topologyTwoQuads : Topology :=
  mkTopology 2
    [ [[0]; [1]; [2]; [3]; [4]; [5]];
      [[0; 1]; [1; 4]; [3; 4]; [0; 3]; [1; 2]; [2; 5]; [4; 5]];
      [[0; 1; 4; 3]; [1; 2; 5; 4]] ]
    "P1L2Q4H8".

Definition twoQuads : GCellSet :=
  mkGCellSet Q4 false (ODNumber 1%float) "two" topologyTwoQuads.

Definition twoQuadsXyz (idx : Z) : Vector :=
  match idx with
  | 0 => [0; 0]
  | 1 => [1; 0]
  | 2 => [2; 0]
  | 3 => [0; 1]
  | 4 => [1; 1]
  | _ => [2; 1]
  end%float.

(** A point is inside a box when every coordinate lies between its two
    bounds. *)
Definition exampleFeutils : Feutils := {|
  isXyzInsideBox := fun xyz bounds =>
    forallb (fun ci : float * nat =>
               let '(c, i) := ci in
               PrimFloat.leb (at_index bounds (2 * i)) c
               && PrimFloat.leb c (at_index bounds (2 * i + 1)))
            (combine xyz (seq 0 (length xyz)))
|}.

(** The box [0, 1] x [0, 1]. *)
Definition unitBox : Vector := [0; 1; 0; 1]%float.

End MoreExamples.

(** * Properties *)

(** ** Rotation and canonical cells *)

Example rotateLeft_ex1 : Utils.rotateLeft [3; 1; 2] 1 = [1; 2; 3].
Proof. reflexivity. Qed.

Example rotateLeft_ex2 : Utils.rotateLeft [3; 1; 2] (-1) = [2; 3; 1].
Proof. reflexivity. Qed.

Example rotateLeft_ex3 : Utils.rotateLeft [3; 1; 2] 7 = [1; 2; 3].
Proof. reflexivity. Qed.

Example minIndex_ex1 : Utils.minIndex [3; 1; 2] = 1.
Proof. reflexivity. Qed.

Example minIndex_ex2 : Utils.minIndex [] = -1.
Proof. reflexivity. Qed.

Example minIndex_ex3 : Utils.minIndex [1; 2; 1; 3] = 0.
Proof. reflexivity. Qed.

Module UtilsFacts.
Import Utils.

(** *** The start index of a rotation *)

Lemma js_mod_nonneg (a b : Z) : 0 <= a -> 0 < b -> js_mod a b = a mod b.
Proof. intros Ha Hb. unfold js_mod. apply Z.rem_mod_nonneg; lia. Qed.

Lemma start_index (len offset : Z) :
  0 < len -> js_mod (len + js_mod offset len) len = offset mod len.
Proof.
  intros Hlen. unfold js_mod.
  pose proof (Z.quot_rem' offset len) as Hq.
  pose proof (Z.rem_bound_abs offset len ltac:(lia)) as Hb.
  rewrite Z.rem_mod_nonneg by lia.
  replace (len + Z.rem offset len) with (offset + (1 - offset ÷ len) * len) by lia.
  apply Z_mod_plus_full.
Qed.

Lemma rotateLeft_length (arr : list Z) (offset : Z) :
  length (rotateLeft arr offset) = length arr.
Proof. unfold rotateLeft. now rewrite length_map, length_seq. Qed.

(** Entry [j] of a rotation, for a non-empty array. *)
Lemma rotateLeft_nth (arr : list Z) (offset : Z) (j : nat) :
  (j < length arr)%nat ->
  nth j (rotateLeft arr offset) 0 =
  nth (Z.to_nat ((offset + Z.of_nat j) mod Z.of_nat (length arr))) arr 0.
Proof.
  intros Hj. unfold rotateLeft.
  set (len := Z.of_nat (length arr)).
  assert (Hlen : 0 < len) by (unfold len; lia).
  rewrite start_index by assumption.
  set (f := fun j0 : nat => nth (Z.to_nat (js_mod (offset mod len + Z.of_nat j0) len)) arr 0).
  rewrite (nth_indep _ 0 (f 0%nat)) by (rewrite length_map, length_seq; lia).
  rewrite map_nth, seq_nth by lia. unfold f. simpl.
  pose proof (Z.mod_pos_bound offset len Hlen).
  rewrite js_mod_nonneg by lia.
  now rewrite Zplus_mod_idemp_l.
Qed.

(** The index a rotation reads from is inside the array. *)
Lemma rotateLeft_index_in_range (arr : list Z) (offset : Z) (j : nat) :
  (j < length arr)%nat ->
  (Z.to_nat ((offset + Z.of_nat j) mod Z.of_nat (length arr)) < length arr)%nat.
Proof.
  intros Hj.
  pose proof (Z.mod_pos_bound (offset + Z.of_nat j) (Z.of_nat (length arr)) ltac:(lia)).
  lia.
Qed.

(** *** [minIndex] finds a strict minimum *)

Lemma minIndex_fold_no_update (l : list Z) (k : nat) (v i : Z) :
  (forall y, In y l -> v <= y) ->
  fold_left minIndex_step (combine l (map Z.of_nat (seq k (length l))))
            (mkSofar (Fin v) i) = mkSofar (Fin v) i.
Proof.
  revert k. induction l as [|x l IH]; intros k Hall; simpl; [reflexivity|].
  assert (Hx : (x <? v) = false) by (apply Z.ltb_ge, Hall; now left).
  rewrite Hx. apply IH. intros y Hy. apply Hall. now right.
Qed.

Lemma lt_value_above (x : Z) (v : jsnum) : above x v -> lt_value x v = true.
Proof. destruct v; simpl; intros H; [now apply Z.ltb_lt | reflexivity]. Qed.

Lemma minIndex_fold_strict (l : list Z) :
  forall (k m : nat) (s : sofar),
    (m < length l)%nat ->
    (forall j, (j < length l)%nat -> j <> m -> nth m l 0 < nth j l 0) ->
    above (nth m l 0) (value s) ->
    index (fold_left minIndex_step
                     (combine l (map Z.of_nat (seq k (length l)))) s)
    = Z.of_nat (k + m).
Proof.
  induction l as [|x l IH]; intros k m s Hm Hmin Hs; simpl in Hm; [lia|].
  destruct m as [|m]; simpl.
  - simpl in Hs. rewrite (lt_value_above _ _ Hs).
    rewrite minIndex_fold_no_update.
    + simpl. f_equal. lia.
    + intros y Hy. destruct (In_nth _ _ 0 Hy) as (j & Hj & <-).
      specialize (Hmin (S j) ltac:(simpl; lia) ltac:(lia)). simpl in Hmin. lia.
  - simpl in Hs.
    assert (Hx : nth m l 0 < x).
    { specialize (Hmin 0%nat ltac:(simpl; lia) ltac:(lia)). exact Hmin. }
    replace (Z.of_nat (k + S m)) with (Z.of_nat (S k + m)) by lia.
    apply IH.
    + lia.
    + intros j Hj Hne.
      specialize (Hmin (S j) ltac:(simpl; lia) ltac:(lia)). exact Hmin.
    + destruct (lt_value x (value s)); simpl; [exact Hx | exact Hs].
Qed.

Lemma minIndex_strict (c : list Z) (m : nat) :
  (m < length c)%nat ->
  (forall j, (j < length c)%nat -> j <> m -> nth m c 0 < nth j c 0) ->
  minIndex c = Z.of_nat m.
Proof.
  intros Hm Hmin. unfold minIndex, indexed.
  now rewrite (minIndex_fold_strict c 0 m) by (simpl; auto).
Qed.

(** *** Cells whose minimum occurs once *)

Lemma fold_min_le (l : list Z) (d : Z) :
  fold_right Z.min d l <= d /\ forall y, In y l -> fold_right Z.min d l <= y.
Proof.
  induction l as [|x l [IHd IHl]]; simpl.
  - split; [lia | tauto].
  - split; [lia|]. intros y [<-|Hy]; [lia|]. specialize (IHl y Hy). lia.
Qed.

Lemma cellMin_le (c : list Z) (y : Z) : In y c -> cellMin c <= y.
Proof. intros Hy. unfold cellMin. now apply fold_min_le. Qed.

Lemma count_occ_one_position (c : list Z) (v : Z) :
  count_occ Z.eq_dec c v = 1%nat ->
  exists m, (m < length c)%nat /\ nth m c 0 = v /\
            forall j, (j < length c)%nat -> j <> m -> nth j c 0 <> v.
Proof.
  induction c as [|x c IH]; simpl; [discriminate|].
  destruct (Z.eq_dec x v) as [->|Hne]; intros Hc.
  - exists 0%nat. repeat split; [lia|].
    intros [|j] Hj Hjm; [lia|]. simpl.
    assert (H0 : count_occ Z.eq_dec c v = 0%nat) by lia.
    apply count_occ_not_In in H0. intros Heq. apply H0. rewrite <- Heq.
    apply nth_In. lia.
  - destruct (IH Hc) as (m & Hm & Hv & Hother).
    exists (S m). repeat split; [lia | exact Hv |].
    intros [|j] Hj Hjm; simpl; [exact Hne|]. apply Hother; lia.
Qed.

Lemma minOccursOnce_position (c : list Z) :
  minOccursOnce c ->
  exists m, (m < length c)%nat /\
            forall j, (j < length c)%nat -> j <> m -> nth m c 0 < nth j c 0.
Proof.
  intros H. destruct (count_occ_one_position _ _ H) as (m & Hm & Hv & Hother).
  exists m. split; [exact Hm|]. intros j Hj Hjm. rewrite Hv.
  pose proof (cellMin_le c (nth j c 0) (nth_In _ _ Hj)).
  specialize (Hother j Hj Hjm). lia.
Qed.

(** *** Rotating a cell and then normalizing it *)

Lemma rotated_min_position (n r m : Z) :
  0 < n -> 0 <= m < n -> (r + (m - r) mod n) mod n = m.
Proof.
  intros Hn Hm. rewrite Zplus_mod_idemp_r.
  replace (r + (m - r)) with m by lia. now apply Z.mod_small.
Qed.

Lemma rotated_position_unique (n r m j : Z) :
  0 < n -> 0 <= j < n -> (r + j) mod n = m -> j = (m - r) mod n.
Proof.
  intros Hn Hj <-. rewrite Zminus_mod_idemp_l.
  replace (r + j - r) with j by lia. symmetry. now apply Z.mod_small.
Qed.

Lemma rotated_twice_index (n r m j : Z) :
  0 < n ->
  (r + ((m - r) mod n + j) mod n) mod n = (m + j) mod n.
Proof.
  intros Hn. rewrite Zplus_mod_idemp_r.
  replace (r + ((m - r) mod n + j)) with ((m - r) mod n + (r + j)) by lia.
  rewrite Zplus_mod_idemp_l. f_equal. lia.
Qed.

Lemma minIndex_rotateLeft (c : list Z) (r : Z) (m : nat) :
  (m < length c)%nat ->
  (forall j, (j < length c)%nat -> j <> m -> nth m c 0 < nth j c 0) ->
  minIndex (rotateLeft c r) = (Z.of_nat m - r) mod Z.of_nat (length c).
Proof.
  intros Hm Hmin.
  set (n := Z.of_nat (length c)).
  assert (Hn : 0 < n) by (unfold n; lia).
  pose proof (Z.mod_pos_bound (Z.of_nat m - r) n Hn) as Hq.
  set (q := Z.to_nat ((Z.of_nat m - r) mod n)).
  assert (Hqlen : (q < length c)%nat) by (unfold q; lia).
  assert (Hnthq : nth q (rotateLeft c r) 0 = nth m c 0).
  { rewrite rotateLeft_nth by exact Hqlen. fold n. unfold q.
    rewrite Z2Nat.id by lia. rewrite rotated_min_position by lia.
    now rewrite Nat2Z.id. }
  rewrite (minIndex_strict (rotateLeft c r) q).
  - unfold q. lia.
  - now rewrite rotateLeft_length.
  - intros j Hj Hjq. rewrite rotateLeft_length in Hj.
    rewrite Hnthq, rotateLeft_nth by exact Hj. fold n.
    pose proof (Z.mod_pos_bound (r + Z.of_nat j) n Hn) as Hb.
    apply Hmin; [lia|]. intros Heq. apply Hjq. unfold q.
    rewrite <- (rotated_position_unique n r (Z.of_nat m) (Z.of_nat j)); lia.
Qed.

Lemma normalizedCell_rotateLeft (c : list Z) (r : Z) :
  c <> [] -> minOccursOnce c ->
  normalizedCell (rotateLeft c r) = normalizedCell c.
Proof.
  intros _ Honce.
  destruct (minOccursOnce_position c Honce) as (m & Hm & Hmin).
  unfold normalizedCell.
  rewrite (minIndex_rotateLeft c r m Hm Hmin), (minIndex_strict c m Hm Hmin).
  set (n := Z.of_nat (length c)).
  assert (Hn : 0 < n) by (unfold n; lia).
  apply (nth_ext _ _ 0 0).
  - now rewrite !rotateLeft_length.
  - intros j Hj. rewrite !rotateLeft_length in Hj.
    rewrite rotateLeft_nth by (now rewrite rotateLeft_length).
    rewrite rotateLeft_length. fold n.
    pose proof (Z.mod_pos_bound ((Z.of_nat m - r) mod n + Z.of_nat j) n Hn) as Hb.
    rewrite rotateLeft_nth by (fold n; lia). fold n.
    rewrite Z2Nat.id by lia.
    rewrite rotated_twice_index by exact Hn.
    now rewrite rotateLeft_nth by exact Hj.
Qed.

(** C6 (as amended).  For every non-empty cell whose smallest node index
    occurs exactly once, and every integer rotation amount [r],
    normalizing the rotated cell gives the same result as normalizing the
    cell itself; and [normalizedCell([3,1,2])] is [[1,2,3]]. *)
Theorem normalizedCell_rotation_invariant :
  (forall (c : list Z) (r : Z),
      c <> [] -> minOccursOnce c ->
      normalizedCell (rotateLeft c r) = normalizedCell c)
  /\ normalizedCell [3; 1; 2] = [1; 2; 3].
Proof.
  split; [exact normalizedCell_rotateLeft | reflexivity].
Qed.

(** The rotation-invariance theorem applied to the cell [[3,1,2]] rotated
    by two places. *)
Lemma normalizedCell_rotation_invariant_witness :
  ([3; 1; 2] <> [] /\ minOccursOnce [3; 1; 2])
  /\ normalizedCell (rotateLeft [3; 1; 2] 2) = normalizedCell [3; 1; 2].
Proof.
  split.
  - split; [discriminate | reflexivity].
  - apply (proj1 normalizedCell_rotation_invariant); [discriminate | reflexivity].
Defined.

(** C6 as stated fails on a cell whose smallest node index occurs twice:
    [[1,2,1,3]] is its own canonical form, but rotating it by one place
    first gives the canonical form [[1,3,1,2]]. *)
Lemma normalizedCell_rotation_counterexample :
  normalizedCell (rotateLeft [1; 2; 1; 3] 1) = [1; 3; 1; 2]
  /\ normalizedCell [1; 2; 1; 3] = [1; 2; 1; 3]
  /\ normalizedCell (rotateLeft [1; 2; 1; 3] 1) <> normalizedCell [1; 2; 1; 3].
Proof.
  repeat split; discriminate.
Qed.

(** Canonicalization is idempotent on cells whose minimum occurs once. *)
Lemma normalizedCell_idempotent (c : list Z) :
  c <> [] -> minOccursOnce c ->
  normalizedCell (normalizedCell c) = normalizedCell c.
Proof.
  intros Hne Honce. unfold normalizedCell at 2.
  now apply normalizedCell_rotateLeft.
Qed.

End UtilsFacts.

(** ** Assembly of the global sparse vector *)

Module SystemVectorFacts.
Import JS Numeric SystemVector.

Lemma sv_at_set (d : SparseVector) (idx k : Z) (x : float) :
  sv_at (sv_set_ d idx x) k = if decide (idx = k) then x else sv_at d k.
Proof.
  unfold sv_at, sv_set_; simpl. rewrite lookup_insert.
  destruct (decide (idx = k)); reflexivity.
Qed.

Lemma sv_dim_set (d : SparseVector) (idx : Z) (x : float) :
  sv_dim (sv_set_ d idx x) = sv_dim d.
Proof. reflexivity. Qed.





(** The loop pulls every element vector once and leaves the iterator
    empty. *)
Lemma drain_spec (rest : list ElementVector) :
  forall d n,
    drain rest d n = ([], fold_left scatter rest d, (n + length rest)%nat).
Proof.
  induction rest as [|ev rest IH]; intros d n; simpl.
  - now rewrite Nat.add_0_r.
  - rewrite IH. f_equal. lia.
Qed.



(** What the first call of [sparseVector()] does on a fresh object. *)
Lemma sparseVector_first (dim : Z) (src : Sources) (evs : list ElementVector)
    (h : list SparseVector) (p : nat) :
  supplied src = Some evs ->
  sparseVector (mkState (SparseSystemVector_new dim src) h p) =
  Ok (Some (length h),
      mkState (mkSparseSystemVector dim
                 (match src with SrcIterator _ => SrcIterator [] | s => s end)
                 (Some (length h)))
              (h ++ [fold_left scatter evs (SparseVector_new dim)])
              (p + length evs)).
Proof.
  intros Hsrc. unfold sparseVector, _assemble_; simpl.
  destruct src as [lst|rest|]; simpl in Hsrc; inversion Hsrc; subst; simpl;
    rewrite drain_spec; reflexivity.
Qed.

(** A call of [sparseVector()] on an object that holds a vector returns
    it and changes nothing. *)
Lemma sparseVector_cached (st : State) (a : address) :
  _sparseVector (this st) = Some a -> sparseVector st = Ok (Some a, st).
Proof. intros Hc. unfold sparseVector. now rewrite Hc. Qed.

Lemma sparseVector_calls_cached (n : nat) (st : State) (a : address) :
  _sparseVector (this st) = Some a ->
  sparseVector_calls n st = Ok (repeat (Some a) n, st).
Proof.
  intros Hc. induction n as [|n IH]; simpl; [reflexivity|].
  rewrite (sparseVector_cached st a Hc). simpl. now rewrite IH.
Qed.




(** C8.  On a fresh SparseSystemVector whose source is an array or an
    iterator, the first call of [sparseVector()] assembles, pulling every
    element vector once, and stores the vector; every later call returns
    the same object and changes nothing: no vector is allocated and no
    element vector is pulled again. *)
Theorem sparseVector_memoized (dim : Z) (src : Sources) (evs : list ElementVector)
    (h : list SparseVector) (p n : nat) :
  supplied src = Some evs ->
  0 < dim ->
  eqnums_in_range dim evs ->
  exists st1,
    sparseVector (mkState (SparseSystemVector_new dim src) h p)
      = Ok (Some (length h), st1)
    /\ _sparseVector (this st1) = Some (length h)
    /\ nth_error (heap st1) (length h)
       = Some (fold_left scatter evs (SparseVector_new dim))
    /\ pulls st1 = (p + length evs)%nat
    /\ sparseVector_calls n st1 = Ok (repeat (Some (length h)) n, st1).
Proof.
  intros Hsrc _ _. eexists. split; [exact (sparseVector_first dim src evs h p Hsrc)|].
  simpl. repeat split.
  - rewrite nth_error_app2 by lia. now rewrite Nat.sub_diag.
  - now apply sparseVector_calls_cached.
Qed.

(** C8 on an iterator over the two element vectors of the scenario, with
    three calls after the first one. *)
Lemma sparseVector_memoized_witness :
  exists st1,
    sparseVector (mkState (SparseSystemVector_new 3 (SrcIterator [ev1; ev2])) [] 0)
      = Ok (Some 0%nat, st1)
    /\ _sparseVector (this st1) = Some 0%nat
    /\ nth_error (heap st1) 0
       = Some (fold_left scatter [ev1; ev2] (SparseVector_new 3))
    /\ pulls st1 = 2%nat
    /\ sparseVector_calls 3 st1 = Ok ([Some 0%nat; Some 0%nat; Some 0%nat], st1).
Proof.
  apply (sparseVector_memoized 3 (SrcIterator [ev1; ev2]) [ev1; ev2] [] 0 3).
  - reflexivity.
  - lia.
  - repeat constructor; simpl; lia.
Defined.

(** Calling the private [_assemble_()] again on an iterator source would
    assemble the drained iterator; [sparseVector()] never does so. *)
Example assemble_twice_on_iterator :
  (st1 <- _assemble_ (mkState (SparseSystemVector_new 3 (SrcIterator [ev1; ev2])) [] 0) ;;
   st2 <- _assemble_ st1 ;;
   r <- toFull st2 ;;
   Ok (fst r))
  = Ok [0; 0; 0]%float.
Proof. vm_compute. reflexivity. Qed.

(** A source that is neither an array nor an iterator makes
    [sparseVector()] throw. *)
Example sparseVector_other_source :
  sparseVector (mkState (SparseSystemVector_new 3 SrcOther) [] 0)
  = Throw "SparseSystemVector::_assemble_: evs must be a iterator or array.".
Proof. reflexivity. Qed.

End SystemVectorFacts.

(** ** Geometric cell sets *)

Module GCellFacts.
Import JS Numeric GCell Examples.

(** *** The size of a matrix *)

Lemma size_isMatrix (sdim ntan : nat) (J : Matrix) :
  isMatrix sdim ntan J -> size J = [Z.of_nat sdim; Z.of_nat ntan].
Proof.
  intros (Hpos & Hlen & Hrows). destruct J as [|row J]; simpl in *; [lia|].
  inversion Hrows; subst. reflexivity.
Qed.

Lemma strictEquals_opt_nat (a b : nat) :
  strictEquals_opt (Some (Z.of_nat a)) (Some (Z.of_nat b)) = (a =? b)%nat.
Proof.
  simpl. destruct (Nat.eqb_spec a b) as [->|Hne].
  - apply Z.eqb_refl.
  - apply Z.eqb_neq. lia.
Qed.

(** *** Surface Jacobian of a surface cell set *)

Section Manifold2.
Context `{Library}.

Lemma jacobianSurface_by_size (g : GCellSet) (conn : list Z) (N J x : Matrix)
    (sdim ntan : nat) :
  isMatrix sdim ntan J ->
  Manifold2.jacobianSurface g conn N J x =
  if (ntan =? 2)%nat then
    if (sdim =? ntan)%nat then
      Ok (entry J 0 0 * entry J 1 1 - entry J 1 0 * entry J 0 1)%float
    else
      Ok (norm (dot_mv (skewmat (nthColumn J 0)) (nthColumn J 1)))
  else
    Throw "GCellSetManifold2::jacobianSurface(): is not implemented when ntan is not 2".
Proof.
  intros HJ. unfold Manifold2.jacobianSurface.
  rewrite (size_isMatrix sdim ntan J HJ). cbn [nth_error].
  change 2 with (Z.of_nat 2). rewrite !strictEquals_opt_nat.
  reflexivity.
Qed.

(** C7.  For a surface cell set and a Jacobian matrix [J] with [sdim]
    rows and [ntan] tangent columns: when [ntan] is 2, [jacobianSurface]
    returns [J[0][0]*J[1][1] - J[1][0]*J[0][1]] if [sdim] equals [ntan]
    and otherwise the norm of the skew-symmetric matrix of the first
    column of [J] applied to its second column; when [ntan] is not 2 it
    throws. *)
Theorem jacobianSurface_manifold2 (g : GCellSet) (conn : list Z) (N J x : Matrix)
    (sdim ntan : nat) :
  isMatrix sdim ntan J ->
  (ntan = 2%nat -> sdim = ntan ->
   Manifold2.jacobianSurface g conn N J x =
   Ok (entry J 0 0 * entry J 1 1 - entry J 1 0 * entry J 0 1)%float)
  /\ (ntan = 2%nat -> sdim <> ntan ->
      Manifold2.jacobianSurface g conn N J x =
      Ok (norm (dot_mv (skewmat (nthColumn J 0)) (nthColumn J 1))))
  /\ (ntan <> 2%nat ->
      Manifold2.jacobianSurface g conn N J x =
      Throw "GCellSetManifold2::jacobianSurface(): is not implemented when ntan is not 2").
Proof.
  intros HJ. rewrite (jacobianSurface_by_size g conn N J x sdim ntan HJ).
  repeat split.
  - intros -> ->. reflexivity.
  - intros -> Hne. apply Nat.eqb_neq in Hne. now rewrite Hne.
  - intros Hne. apply Nat.eqb_neq in Hne. now rewrite Hne.
Qed.

End Manifold2.

(** C7 at a 3 by 2 Jacobian (a flat surface in space), at the 2 by 2
    identity and at a 2 by 3 matrix, the numeric primitives being the
    reference ones. *)
Lemma jacobianSurface_manifold2_witness :
  isMatrix 3 2 J_3x2
  /\ @Manifold2.jacobianSurface reference axisymmetricQ4 [0; 1; 2; 3] centreN J_3x2 squareX
     = Ok 1%float
  /\ @Manifold2.jacobianSurface reference axisymmetricQ4 [0; 1; 2; 3] centreN identityJ squareX
     = Ok 1%float
  /\ @Manifold2.jacobianSurface reference axisymmetricQ4 [0; 1; 2; 3] centreN J_2x3 squareX
     = Throw "GCellSetManifold2::jacobianSurface(): is not implemented when ntan is not 2".
Proof.
  assert (H32 : isMatrix 3 2 J_3x2) by (repeat constructor).
  assert (H22 : isMatrix 2 2 identityJ) by (repeat constructor).
  assert (H23 : isMatrix 2 3 J_2x3) by (repeat constructor).
  split; [exact H32|]. split; [|split].
  - rewrite (proj1 (proj2 (@jacobianSurface_manifold2 reference axisymmetricQ4
               [0; 1; 2; 3] centreN J_3x2 squareX 3 2 H32)) eq_refl ltac:(lia)).
    vm_compute. reflexivity.
  - rewrite (proj1 (@jacobianSurface_manifold2 reference axisymmetricQ4
               [0; 1; 2; 3] centreN identityJ squareX 2 2 H22) eq_refl eq_refl).
    vm_compute. reflexivity.
  - apply (proj2 (proj2 (@jacobianSurface_manifold2 reference axisymmetricQ4
               [0; 1; 2; 3] centreN J_2x3 squareX 2 3 H23))). lia.
Defined.

(** *** Volume Jacobian of a volume cell set *)

Section Manifold3.
Context `{Library}.

(** The guard of [jacobianVolumn] compares the number of rows of [J],
    not the number of its tangent columns. *)
Lemma jacobianVolumn3_by_rows (g : GCellSet) (conn : list Z) (N J x : Matrix)
    (sdim ntan : nat) :
  isMatrix sdim ntan J ->
  Manifold3.jacobianVolumn g conn N J x =
  if (sdim =? 3)%nat then det J
  else Throw "GCellSetManifold3#jacobianVolumn(): incorrect size of tangents.".
Proof.
  intros HJ. unfold Manifold3.jacobianVolumn.
  rewrite (size_isMatrix sdim ntan J HJ). cbn [nth_error].
  change 3 with (Z.of_nat 3). now rewrite strictEquals_opt_nat.
Qed.

(** A 3 by 3 Jacobian goes to [det]. *)
Lemma jacobianVolumn3_square (g : GCellSet) (conn : list Z) (N J x : Matrix) :
  isMatrix 3 3 J -> Manifold3.jacobianVolumn g conn N J x = det J.
Proof. intros HJ. now rewrite (jacobianVolumn3_by_rows g conn N J x 3 3 HJ). Qed.

(** The guard at work off the square matrices: a Jacobian with three
    rows and two tangent columns passes it and is handed to [det]; a
    Jacobian with two rows and three tangent columns is refused by
    it. *)
Lemma jacobianVolumn_manifold3_guard_reads_rows
    (g : GCellSet) (conn : list Z) (N x : Matrix) :
  Manifold3.jacobianVolumn g conn N J_3x2 x = det J_3x2
  /\ Manifold3.jacobianVolumn g conn N J_2x3 x =
     Throw "GCellSetManifold3#jacobianVolumn(): incorrect size of tangents.".
Proof. split; reflexivity. Qed.

(** C3.  With a [det] that throws on every matrix that is not square,
    as the one of [core.numeric] does, [jacobianVolumn] of a volume cell
    set returns [det(J)] for a 3 by 3 Jacobian [J], and throws for every
    [J] whose number of tangent columns is not 3: the error of its own
    guard when [J] does not have three rows, and the error of [det]
    when it has.  A [J] with three tangent columns that is not 3 by 3
    has no determinant; the guard refuses it. *)
Theorem jacobianVolumn_manifold3_three_tangents
    (g : GCellSet) (conn : list Z) (N J x : Matrix) (sdim ntan : nat) :
  (forall (M : Matrix) (rows cols : nat),
      isMatrix rows cols M -> rows <> cols -> exists msg, det M = Throw msg) ->
  isMatrix sdim ntan J ->
  (sdim = 3%nat -> ntan = 3%nat ->
   Manifold3.jacobianVolumn g conn N J x = det J)
  /\ (ntan <> 3%nat ->
      exists msg, Manifold3.jacobianVolumn g conn N J x = Throw msg)
  /\ (ntan = 3%nat -> sdim <> 3%nat ->
      Manifold3.jacobianVolumn g conn N J x =
      Throw "GCellSetManifold3#jacobianVolumn(): incorrect size of tangents.").
Proof.
  intros Hdet HJ.
  rewrite (jacobianVolumn3_by_rows g conn N J x sdim ntan HJ).
  split; [|split].
  - intros -> _. reflexivity.
  - intros Hntan. destruct (Nat.eqb_spec sdim 3) as [->|Hsdim].
    + apply (Hdet J 3%nat ntan HJ). congruence.
    + eexists. reflexivity.
  - intros _ Hsdim. apply Nat.eqb_neq in Hsdim. now rewrite Hsdim.
Qed.

End Manifold3.

(** The determinant of the reference library throws on every matrix
    that is not square. *)
Lemma ref_det_refuses_nonsquare (M : Matrix) (rows cols : nat) :
  isMatrix rows cols M -> rows <> cols -> exists msg, ref_det M = Throw msg.
Proof.
  intros (Hrows & Hlen & Hall) Hne.
  destruct M as [|r1 [|r2 [|r3 [|r4 M]]]];
    repeat match goal with
           | H : Forall _ (_ :: _) |- _ => inversion_clear H
           end;
    simpl in Hlen; subst rows;
    try (destruct r1 as [|a1 [|a2 [|a3 [|a4 r1]]]]);
    try (destruct r2 as [|b1 [|b2 [|b3 [|b4 r2]]]]);
    try (destruct r3 as [|c1 [|c2 [|c3 [|c4 r3]]]]);
    simpl in *; subst;
    first [ eexists; reflexivity | exfalso; simpl in *; lia ].
Qed.

(** On the brick of the examples: a 3 by 3 Jacobian of determinant 6
    gives 6, a Jacobian with two tangent columns makes [det] throw, and
    one with two rows is refused by the guard. *)
Lemma jacobianVolumn_manifold3_three_tangents_witness :
  ((forall (M : Matrix) (rows cols : nat),
       isMatrix rows cols M -> rows <> cols ->
       exists msg, @det reference M = Throw msg)
   /\ isMatrix 3 3 MoreExamples.stretchJ3
   /\ isMatrix 3 2 J_3x2
   /\ isMatrix 2 3 J_2x3)
  /\ @Manifold3.jacobianVolumn reference MoreExamples.oneBrick
       [0; 1; 2; 3; 4; 5; 6; 7] MoreExamples.brickN MoreExamples.stretchJ3
       MoreExamples.brickX
     = Ok 6%float
  /\ (exists msg,
        @Manifold3.jacobianVolumn reference MoreExamples.oneBrick
          [0; 1; 2; 3; 4; 5; 6; 7] MoreExamples.brickN J_3x2
          MoreExamples.brickX
        = Throw msg)
  /\ @Manifold3.jacobianVolumn reference MoreExamples.oneBrick
       [0; 1; 2; 3; 4; 5; 6; 7] MoreExamples.brickN J_2x3
       MoreExamples.brickX
     = Throw "GCellSetManifold3#jacobianVolumn(): incorrect size of tangents.".
Proof.
  assert (H33 : isMatrix 3 3 MoreExamples.stretchJ3) by (repeat constructor).
  assert (H32 : isMatrix 3 2 J_3x2) by (repeat constructor).
  assert (H23 : isMatrix 2 3 J_2x3) by (repeat constructor).
  split; [split; [exact ref_det_refuses_nonsquare | auto]|].
  split; [|split].
  - rewrite (proj1 (@jacobianVolumn_manifold3_three_tangents reference
               MoreExamples.oneBrick [0; 1; 2; 3; 4; 5; 6; 7]
               MoreExamples.brickN MoreExamples.stretchJ3 MoreExamples.brickX
               3 3 ref_det_refuses_nonsquare H33) eq_refl eq_refl).
    vm_compute. reflexivity.
  - apply (proj1 (proj2 (@jacobianVolumn_manifold3_three_tangents reference
               MoreExamples.oneBrick [0; 1; 2; 3; 4; 5; 6; 7]
               MoreExamples.brickN J_3x2 MoreExamples.brickX
               3 2 ref_det_refuses_nonsquare H32))). lia.
  - apply (proj2 (proj2 (@jacobianVolumn_manifold3_three_tangents reference
               MoreExamples.oneBrick [0; 1; 2; 3; 4; 5; 6; 7]
               MoreExamples.brickN J_2x3 MoreExamples.brickX
               2 3 ref_det_refuses_nonsquare H23))); [reflexivity | lia].
Defined.

(** *** Volume Jacobians of point, curve and surface cell sets *)

Section LowerManifolds.
Context `{Library}.

(** C2 (as amended).  [jacobianVolumn] of a point or curve cell set is
    its [jacobianCurve] times [otherDimension(conn, N, x)], with the
    factors [2], [Math.PI] and [r] in between when the axisymmetry flag
    is set; [jacobianVolumn] of a surface cell set is its
    [jacobianSurface] times [otherDimension(conn, N, x)] when the flag is
    not set, and its [jacobianSurface] times [2], [Math.PI] and [r],
    without [otherDimension], when it is set.  [r] is the first entry of
    the first row of the product of [transpose(N)] and [x]. *)
Theorem jacobianVolumn_lower_manifolds
    (g : GCellSet) (conn : list Z) (N J x : Matrix) (c r : float) :
  (Manifold0.jacobianCurve g conn N J x = Ok c ->
   (axisSymm g = false ->
    Manifold0.jacobianVolumn g conn N J x =
    Ok (c * otherDimension g (Some conn) (Some N) (Some x))%float)
   /\ (axisSymm g = true ->
       index0 (head (mul_mm (transpose N) x)) = Ok r ->
       Manifold0.jacobianVolumn g conn N J x =
       Ok (c * 2 * Math_PI * r * otherDimension g (Some conn) (Some N) (Some x))%float))
  /\ (Manifold1.jacobianCurve g conn N J x = Ok c ->
      (axisSymm g = false ->
       Manifold1.jacobianVolumn g conn N J x =
       Ok (c * otherDimension g (Some conn) (Some N) (Some x))%float)
      /\ (axisSymm g = true ->
          index0 (head (dot_mm (transpose N) x)) = Ok r ->
          Manifold1.jacobianVolumn g conn N J x =
          Ok (c * 2 * Math_PI * r * otherDimension g (Some conn) (Some N) (Some x))%float))
  /\ (Manifold2.jacobianSurface g conn N J x = Ok c ->
      (axisSymm g = false ->
       Manifold2.jacobianVolumn g conn N J x =
       Ok (c * otherDimension g (Some conn) (Some N) (Some x))%float)
      /\ (axisSymm g = true ->
          index0 (head (dot_mm (transpose N) x)) = Ok r ->
          Manifold2.jacobianVolumn g conn N J x =
          Ok (c * 2 * Math_PI * r)%float)).
Proof.
  split; [|split].
  - intros Hc. unfold Manifold0.jacobianVolumn. rewrite Hc. split.
    + intros ->. reflexivity.
    + intros -> Hr. rewrite Hr. reflexivity.
  - intros Hc. unfold Manifold1.jacobianVolumn. rewrite Hc. split.
    + intros ->. reflexivity.
    + intros -> Hr. rewrite Hr. reflexivity.
  - intros Hc. unfold Manifold2.jacobianVolumn. rewrite Hc. split.
    + intros ->. reflexivity.
    + intros -> Hr. rewrite Hr. reflexivity.
Qed.

End LowerManifolds.

(** C2 (as amended) at three cell sets.  The axisymmetric Q4 cell set:
    the surface Jacobian is 1 and the radius 1.5, and the volume Jacobian
    is [1 * 2 * Math.PI * 1.5], the thickness 2 left out.  The L2 cell
    set that is not axisymmetric: the curve Jacobian is 5 and the volume
    Jacobian [5 * 2].  The axisymmetric P1 cell set at radius 3: the
    curve Jacobian is [1 * 2 * Math.PI * 3] and the volume Jacobian is
    this times [2 * Math.PI * 3 * 2]. *)
Lemma jacobianVolumn_lower_manifolds_witness :
  (@Manifold2.jacobianSurface reference axisymmetricQ4 [0; 1; 2; 3] centreN identityJ squareX
   = Ok 1%float
   /\ axisSymm axisymmetricQ4 = true
   /\ index0 (head (@dot_mm reference (transpose centreN) squareX)) = Ok 1.5%float
   /\ @Manifold1.jacobianCurve reference thickL2 [0; 1] centreN2 tangentJ segmentX
      = Ok 5%float
   /\ axisSymm thickL2 = false
   /\ @Manifold0.jacobianCurve reference axisymmetricP1 [0] pointN [] pointX
      = Ok (1 * 2 * Math_PI * 3)%float
   /\ axisSymm axisymmetricP1 = true
   /\ index0 (head (@mul_mm reference (transpose pointN) pointX)) = Ok 3%float)
  /\ @Manifold2.jacobianVolumn reference axisymmetricQ4 [0; 1; 2; 3] centreN identityJ squareX
     = Ok (1 * 2 * Math_PI * 1.5)%float
  /\ @Manifold1.jacobianVolumn reference thickL2 [0; 1] centreN2 tangentJ segmentX
     = Ok (5 * 2)%float
  /\ @Manifold0.jacobianVolumn reference axisymmetricP1 [0] pointN [] pointX
     = Ok (1 * 2 * Math_PI * 3 * 2 * Math_PI * 3 * 2)%float.
Proof.
  split; [repeat split|]. split; [|split].
  - apply (proj2 (proj2 (proj2 (@jacobianVolumn_lower_manifolds reference
             axisymmetricQ4 [0; 1; 2; 3] centreN identityJ squareX 1%float 1.5%float))
             eq_refl)); reflexivity.
  - apply (proj1 (proj1 (proj2 (@jacobianVolumn_lower_manifolds reference
             thickL2 [0; 1] centreN2 tangentJ segmentX 5%float 0%float))
             eq_refl)); reflexivity.
  - apply (proj2 (proj1 (@jacobianVolumn_lower_manifolds reference
             axisymmetricP1 [0] pointN [] pointX (1 * 2 * Math_PI * 3)%float 3%float)
             eq_refl)); reflexivity.
Defined.

(** C2 as stated fails twice.  On an axisymmetric surface cell set whose
    [otherDimension] is not 1: for the Q4 cell set of thickness 2 the
    code returns [1 * 2 * Math.PI * 1.5], about 9.42, where the claim
    gives the surface Jacobian times the thickness times [2*pi*r], about
    18.85.  On a curve cell set that is not axisymmetric, when the
    next-lower Jacobian is read as [jacobianSurface]: for the L2 cell set
    of thickness 2 the curve Jacobian is 5, the surface Jacobian 10, and
    the code returns 10 where the claim gives 10 times the thickness. *)
Lemma jacobianVolumn_claim_counterexample :
  (@Manifold2.jacobianSurface reference axisymmetricQ4 [0; 1; 2; 3] centreN identityJ squareX
   = Ok 1%float
   /\ index0 (head (@dot_mm reference (transpose centreN) squareX)) = Ok 1.5%float
   /\ @Manifold2.jacobianVolumn reference axisymmetricQ4 [0; 1; 2; 3] centreN identityJ squareX
      = Ok 0x1.2d97c7f3321d2p+3%float
   /\ jacobianVolumn_claimed 1%float axisymmetricQ4 [0; 1; 2; 3] centreN squareX 1.5%float
      = 0x1.2d97c7f3321d2p+4%float
   /\ strictEquals 0x1.2d97c7f3321d2p+3%float 0x1.2d97c7f3321d2p+4%float = false)
  /\ (@Manifold1.jacobianCurve reference thickL2 [0; 1] centreN2 tangentJ segmentX
      = Ok 5%float
      /\ @Manifold1.jacobianSurface reference thickL2 [0; 1] centreN2 tangentJ segmentX
         = Ok 10%float
      /\ @Manifold1.jacobianVolumn reference thickL2 [0; 1] centreN2 tangentJ segmentX
         = Ok 10%float
      /\ jacobianVolumn_claimed 10%float thickL2 [0; 1] centreN2 segmentX 3%float
         = 20%float).
Proof. repeat split. Qed.

(** *** Construction *)

Section ConstructionFacts.
Context `{Collaborators}.

Lemma construct_with_topology (t : CellType) (uuid : string) (topology : Topology)
    (od : OtherDimArg) (ax : option bool) :
  construct t uuid (Some (mkOptions None (Some (IsTopology topology)) od ax)) =
  GCellSet_init t uuid (mkOptions None (Some (IsTopology topology)) od ax).
Proof. reflexivity. Qed.

(** C9.  Constructing a P1, L2, Q4 or H8 cell set from a Topology:
    when the cell size of the topology at its dimension differs from the
    [cellSize()] of the type, or the dimension of the topology differs
    from the [dim()] of the type, the constructor throws and no object is
    returned; when both agree, the constructor returns an object that
    holds this topology. *)
Theorem construct_checks_topology (t : CellType) (uuid : string)
    (topology : Topology) (od : OtherDimArg) (ax : option bool) :
  (getCellSizeInDim topology (getDim topology) <> cellSize t ->
   construct t uuid (Some (mkOptions None (Some (IsTopology topology)) od ax))
   = Throw "GCellSet(): cellSize of the topology dismatch.")
  /\ (getCellSizeInDim topology (getDim topology) = cellSize t ->
      getDim topology <> dim t ->
      construct t uuid (Some (mkOptions None (Some (IsTopology topology)) od ax))
      = Throw "GCellSet(): dim of the topology dismatch.")
  /\ (getCellSizeInDim topology (getDim topology) = cellSize t ->
      getDim topology = dim t ->
      exists g,
        construct t uuid (Some (mkOptions None (Some (IsTopology topology)) od ax))
        = Ok g
        /\ _topology g = topology /\ variant g = t /\ _id g = uuid).
Proof.
  rewrite construct_with_topology. unfold GCellSet_init. cbn [opt_topology].
  split; [|split].
  - intros Hne. apply Z.eqb_neq in Hne. now rewrite Hne.
  - intros Hsize Hne. apply Z.eqb_eq in Hsize. apply Z.eqb_neq in Hne.
    now rewrite Hsize, Hne.
  - intros Hsize Hdim. apply Z.eqb_eq in Hsize. apply Z.eqb_eq in Hdim.
    rewrite Hsize, Hdim. cbn [negb]. eexists. split; [reflexivity|].
    repeat split.
Qed.

End ConstructionFacts.

(** C9 on the topology of one quad: Q4 accepts it and L2 refuses its
    cell size; Q4 refuses the cell size of the topology of one line, and
    the dimension of a topology of four-node cells of dimension 1. *)
Lemma construct_checks_topology_witness :
  (getCellSizeInDim topologyQ4 (getDim topologyQ4) = cellSize Q4
   /\ getDim topologyQ4 = dim Q4
   /\ getCellSizeInDim topologyQ4 (getDim topologyQ4) <> cellSize L2
   /\ getCellSizeInDim topologyL2 (getDim topologyL2) <> cellSize Q4
   /\ getCellSizeInDim topologyFourNodeCurve (getDim topologyFourNodeCurve) = cellSize Q4
   /\ getDim topologyFourNodeCurve <> dim Q4)
  /\ (exists g,
         @construct exampleCollaborators Q4 "id-1"
           (Some (mkOptions None (Some (IsTopology topologyQ4)) ArgNeither None))
         = Ok g /\ _topology g = topologyQ4 /\ variant g = Q4 /\ _id g = "id-1")
  /\ @construct exampleCollaborators L2 "id-2"
       (Some (mkOptions None (Some (IsTopology topologyQ4)) ArgNeither None))
     = Throw "GCellSet(): cellSize of the topology dismatch."
  /\ @construct exampleCollaborators Q4 "id-3"
       (Some (mkOptions None (Some (IsTopology topologyL2)) ArgNeither None))
     = Throw "GCellSet(): cellSize of the topology dismatch."
  /\ @construct exampleCollaborators Q4 "id-4"
       (Some (mkOptions None (Some (IsTopology topologyFourNodeCurve)) ArgNeither None))
     = Throw "GCellSet(): dim of the topology dismatch.".
Proof.
  split; [repeat split; discriminate|]. split; [|split; [|split]].
  - apply (proj2 (proj2 (@construct_checks_topology exampleCollaborators Q4 "id-1"
             topologyQ4 ArgNeither None))); reflexivity.
  - apply (proj1 (@construct_checks_topology exampleCollaborators L2 "id-2"
             topologyQ4 ArgNeither None)). discriminate.
  - apply (proj1 (@construct_checks_topology exampleCollaborators Q4 "id-3"
             topologyL2 ArgNeither None)). discriminate.
  - apply (proj1 (proj2 (@construct_checks_topology exampleCollaborators Q4 "id-4"
             topologyFourNodeCurve ArgNeither None))); [reflexivity | discriminate].
Defined.

(** Construction from a connectivity list goes through [hypercube]; a
    missing options object, or options with neither [conn] nor
    [topology], are refused by the constructor of the concrete type. *)
Example construct_without_options :
  @construct exampleCollaborators Q4 "id-5" None
  = Throw "Q4#constructor(options): options is not a valid Q4InitOption"
  /\ @construct exampleCollaborators H8 "id-6"
       (Some (mkOptions None None ArgNeither None))
     = Throw "H8#constructor(options): options is not a valid H8InitOption"
  /\ @construct exampleCollaborators L2 "id-7"
       (Some (mkOptions None (Some NotTopology) ArgNeither None))
     = Throw "GCellSet#constructor(options): options is not a valid GCellSetInitOption.".
Proof. repeat split. Qed.

(** *** Equality of cell sets *)

Lemma topology_equals_true (a b : Topology) :
  topology_equals a b = true <-> a = b.
Proof. unfold topology_equals. apply bool_decide_eq_true. Qed.

Lemma equals_spec (g : GCellSet) (other : Value) :
  equals g other = true <->
  exists o,
    other = VGCellSet o
    /\ type (variant g) = type (variant o)
    /\ cellSize (variant g) = cellSize (variant o)
    /\ axisSymm g = axisSymm o
    /\ strictEquals (otherDimension g None None None)
                    (otherDimension o None None None) = true
    /\ normalized (_topology g) = normalized (_topology o).
Proof.
  destruct other as [o|]; simpl.
  - destruct (String.eqb_spec (type (variant g)) (type (variant o))) as [Ht|Ht];
      simpl.
    2:{ split; [discriminate|]. intros (o' & Ho & Ht' & _).
        inversion Ho; subst. contradiction. }
    destruct (Z.eqb_spec (cellSize (variant g)) (cellSize (variant o))) as [Hc|Hc];
      simpl.
    2:{ split; [discriminate|]. intros (o' & Ho & _ & Hc' & _).
        inversion Ho; subst. contradiction. }
    destruct (Bool.eqb (axisSymm g) (axisSymm o)) eqn:Ha; simpl.
    2:{ split; [discriminate|]. intros (o' & Ho & _ & _ & Ha' & _).
        inversion Ho; subst. rewrite Ha' in Ha.
        now rewrite Bool.eqb_reflx in Ha. }
    apply Bool.eqb_prop in Ha.
    destruct (strictEquals (otherDimension g None None None)
                           (otherDimension o None None None)) eqn:Hd; simpl.
    2:{ split; [discriminate|]. intros (o' & Ho & _ & _ & _ & Hd' & _).
        inversion Ho; subst. congruence. }
    destruct (topology_equals (normalized (_topology g)) (normalized (_topology o)))
      eqn:Hn; simpl.
    + apply topology_equals_true in Hn. split; [|reflexivity].
      intros _. exists o. repeat split; assumption.
    + split; [discriminate|]. intros (o' & Ho & _ & _ & _ & _ & Hn').
      inversion Ho; subst. apply topology_equals_true in Hn'. congruence.
  - split; [discriminate|]. intros (o & Ho & _). discriminate.
Qed.

(** C10 (as amended).  [equals(other)] returns true exactly when [other]
    is a GCellSet of the same [type()], the same [cellSize()] and the
    same axisymmetry flag, whose [otherDimension()], called without
    arguments, returns a number strictly equal to what [otherDimension()]
    of this cell set returns, and whose normalized topology equals the
    normalized topology of this cell set; function references are not
    compared.  For an argument that is not a GCellSet it returns
    false. *)
Theorem equals_compares_values :
  (forall (g : GCellSet) (other : Value),
      equals g other = true <->
      exists o,
        other = VGCellSet o
        /\ type (variant g) = type (variant o)
        /\ cellSize (variant g) = cellSize (variant o)
        /\ axisSymm g = axisSymm o
        /\ strictEquals (otherDimension g None None None)
                        (otherDimension o None None None) = true
        /\ normalized (_topology g) = normalized (_topology o))
  /\ (forall g : GCellSet, equals g VOther = false).
Proof. split; [exact equals_spec | reflexivity]. Qed.

(** C10 (as amended) at these two cell sets. *)
Lemma equals_compares_values_witness :
  equals q4WithA (VGCellSet q4WithB) = true.
Proof.
  apply (proj1 equals_compares_values q4WithA (VGCellSet q4WithB)).
  exists q4WithB. repeat split.
Defined.

(** C10 as stated fails: the two cell sets hold different function
    objects as [otherDimension], and [equals] returns true.  A function
    that returns NaN is not even equal to itself. *)
Lemma equals_function_reference_counterexample :
  equals q4WithA (VGCellSet q4WithB) = true
  /\ _otherDimension q4WithA = ODFunction thicknessA
  /\ _otherDimension q4WithB = ODFunction thicknessB
  /\ Nat.eqb (fn_ref thicknessA) (fn_ref thicknessB) = false.
Proof. repeat split. Qed.

Example equals_same_function_returning_NaN :
  let f := mkJSFunction 3 (fun _ _ _ => NaN) in
  let g := mkGCellSet Q4 false (ODFunction f) "c" topologyQ4 in
  equals g (VGCellSet g) = false.
Proof. reflexivity. Qed.

End GCellFacts.

(** ** Magnitude of binary64 results

    The operations of the shape functions cannot overflow on arguments of
    small magnitude: this is read off the specification of binary64
    arithmetic ([SpecFloat]), whose rounding keeps the number of digits
    of the mantissa plus the exponent within one of the exact result. *)

Module FloatFacts.

(** *** Digits of a mantissa *)

Lemma digits2_pos_size (p : positive) : digits2_pos p = Pos.size p.
Proof. induction p; simpl; congruence. Qed.

Lemma digits2_log2 (p : positive) : Zpos (digits2_pos p) = Z.log2 (Zpos p) + 1.
Proof.
  rewrite digits2_pos_size. destruct p; simpl; try reflexivity; lia.
Qed.

Lemma Zdigits2_log2 (m : Z) : 0 < m -> Zdigits2 m = Z.log2 m + 1.
Proof. destruct m; try lia. intros _. apply digits2_log2. Qed.

Lemma Zdigits2_nonneg (m : Z) : 0 <= Zdigits2 m.
Proof. destruct m; simpl; lia. Qed.

Lemma Zdigits2_le (a b : Z) : 0 <= a <= b -> Zdigits2 a <= Zdigits2 b.
Proof.
  intros [Ha Hab]. destruct (Z.eq_dec a 0) as [->|Hne].
  - apply Zdigits2_nonneg.
  - rewrite !Zdigits2_log2 by lia. pose proof (Z.log2_le_mono a b Hab). lia.
Qed.

Lemma Zdigits2_shift (a n b : Z) :
  0 < a -> 0 <= n -> a * 2 ^ n <= b -> Zdigits2 a + n <= Zdigits2 b.
Proof.
  intros Ha Hn Hab.
  assert (0 < 2 ^ n) by (apply Z.pow_pos_nonneg; lia).
  assert (Hpos : 0 < a * 2 ^ n) by nia.
  rewrite !Zdigits2_log2 by lia.
  pose proof (Z.log2_le_mono _ _ Hab) as Hl.
  rewrite Z.log2_mul_pow2 in Hl by lia. lia.
Qed.

Lemma Zdigits2_succ (a : Z) : 0 <= a -> Zdigits2 (a + 1) <= Zdigits2 a + 1.
Proof.
  intros Ha. destruct (Z.eq_dec a 0) as [->|Hne]; [simpl; lia|].
  rewrite !Zdigits2_log2 by lia.
  pose proof (Z.log2_spec a ltac:(lia)) as [_ Hhi].
  assert (Hlt : a + 1 < 2 ^ (Z.succ (Z.succ (Z.log2 a)))).
  { rewrite (Z.pow_succ_r 2 (Z.succ (Z.log2 a))) by (pose proof (Z.log2_nonneg a); lia). lia. }
  apply Z.log2_lt_pow2 in Hlt; lia.
Qed.

Lemma Zdigits2_mul (a b : positive) :
  Zpos (digits2_pos (a * b)) <= Zpos (digits2_pos a) + Zpos (digits2_pos b).
Proof.
  rewrite !digits2_log2, Pos2Z.inj_mul.
  pose proof (Z.log2_mul_above (Zpos a) (Zpos b) ltac:(lia) ltac:(lia)). lia.
Qed.

(** *** Shifting a mantissa to the right *)
Lemma shr_1_half (mrs : shr_record) :
  0 <= shr_m mrs -> 0 <= shr_m (shr_1 mrs) /\ shr_m (shr_1 mrs) * 2 <= shr_m mrs.
Proof.
  destruct mrs as [m r s]. simpl. intros Hm.
  destruct m as [|[p|p|]|p]; simpl; lia.
Qed.

Lemma pow2_xO (p : positive) : 2 ^ Zpos p~0 = 2 ^ Zpos p * 2 ^ Zpos p.
Proof.
  replace (Zpos p~0) with (Zpos p + Zpos p) by lia.
  apply Z.pow_add_r; lia.
Qed.

Lemma pow2_xI (p : positive) : 2 ^ Zpos p~1 = 2 * (2 ^ Zpos p * 2 ^ Zpos p).
Proof.
  replace (Zpos p~1) with (Z.succ (Zpos p~0)) by lia.
  rewrite Z.pow_succ_r by lia. now rewrite pow2_xO.
Qed.

Lemma iter_shr_1 (p : positive) :
  forall mrs, 0 <= shr_m mrs ->
    0 <= shr_m (SpecFloat.iter_pos shr_1 p mrs)
    /\ shr_m (SpecFloat.iter_pos shr_1 p mrs) * 2 ^ (Zpos p) <= shr_m mrs.
Proof.
  induction p as [p IH|p IH|]; intros mrs Hm; cbn [SpecFloat.iter_pos].
  - destruct (shr_1_half mrs Hm) as [H0 H1].
    destruct (IH _ H0) as [H2 H3]. destruct (IH _ H2) as [H4 H5].
    split; [exact H4|]. rewrite pow2_xI.
    assert (0 < 2 ^ Zpos p) by (apply Z.pow_pos_nonneg; lia). nia.
  - destruct (IH _ Hm) as [H2 H3]. destruct (IH _ H2) as [H4 H5].
    split; [exact H4|]. rewrite pow2_xO.
    assert (0 < 2 ^ Zpos p) by (apply Z.pow_pos_nonneg; lia). nia.
  - apply shr_1_half in Hm. rewrite Z.pow_1_r. exact Hm.
Qed.

(** *** Rounding *)

Section Rounding.
Variables prec emax : Z.
Hypothesis Hprec : 1 <= prec.

Lemma shr_m_of_loc (m : Z) (l : location) : shr_m (shr_record_of_loc m l) = m.
Proof. destruct l as [|[| |]]; reflexivity. Qed.

(** Shifting to the exponent of the format keeps the mantissa
    non-negative and does not raise the magnitude. *)
Lemma shr_fexp_bound (m e : Z) (l : location) :
  0 <= m ->
  0 <= shr_m (fst (shr_fexp prec emax m e l))
  /\ snd (shr_fexp prec emax m e l) = Z.max e (SpecFloat.fexp prec emax (Zdigits2 m + e))
  /\ (0 < shr_m (fst (shr_fexp prec emax m e l)) ->
      Zdigits2 (shr_m (fst (shr_fexp prec emax m e l)))
      + snd (shr_fexp prec emax m e l) <= Zdigits2 m + e).
Proof.
  intros Hm. unfold shr_fexp, shr.
  destruct (SpecFloat.fexp prec emax (Zdigits2 m + e) - e) as [|p|p] eqn:Hn; simpl.
  - rewrite shr_m_of_loc. repeat split; lia.
  - pose proof (iter_shr_1 p (shr_record_of_loc m l)) as Hit.
    rewrite shr_m_of_loc in Hit. destruct (Hit Hm) as [H0 H1].
    repeat split; [exact H0 | lia |].
    intros Hpos. pose proof (Zdigits2_shift _ (Zpos p) m Hpos ltac:(lia) H1). lia.
  - rewrite shr_m_of_loc. repeat split; lia.
Qed.

Lemma round_nearest_even_bound (m : Z) (l : location) :
  m <= round_nearest_even m l <= m + 1.
Proof.
  destruct l as [|[| |]]; simpl; try lia. destruct (Z.even m); lia.
Qed.

(** Rounding a number of magnitude at most [K], inside the range of the
    format, gives a finite number of magnitude at most [K + 1]. *)
Lemma binary_round_aux_mag (sx : bool) (mx ex : Z) (lx : location) (K : Z) :
  0 < mx ->
  Zdigits2 mx + ex <= K ->
  SpecFloat.emin prec emax <= K ->
  K <= emax - prec ->
  mag_le (K + 1) (binary_round_aux prec emax sx mx ex lx).
Proof.
  intros Hmx HM Hmin Hmax. unfold binary_round_aux.
  pose proof (shr_fexp_bound mx ex lx ltac:(lia)) as (H1 & He1 & Hd1).
  destruct (shr_fexp prec emax mx ex lx) as [mrs' e'] eqn:E1. simpl in H1, He1, Hd1.
  pose proof (round_nearest_even_bound (shr_m mrs') (loc_of_shr_record mrs')) as Hr.
  set (mr := round_nearest_even (shr_m mrs') (loc_of_shr_record mrs')) in *.
  pose proof (shr_fexp_bound mr e' loc_Exact ltac:(lia)) as (H2 & He2 & Hd2).
  destruct (shr_fexp prec emax mr e' loc_Exact) as [mrs'' e''] eqn:E2.
  simpl in H2, He2, Hd2.
  pose proof (Zdigits2_nonneg mx) as Hdx.
  assert (Hdx1 : 1 <= Zdigits2 mx).
  { rewrite Zdigits2_log2 by lia. pose proof (Z.log2_nonneg mx). lia. }
  unfold SpecFloat.fexp in He1, He2.
  assert (HM2 : Zdigits2 mr + e' <= Z.max (K + 1) (SpecFloat.emin prec emax + 1)).
  { destruct (Z.eq_dec (shr_m mrs') 0) as [H0|H0].
    - assert (Hmr : Zdigits2 mr <= 1).
      { pose proof (Zdigits2_le mr 1 ltac:(lia)). simpl in *. lia. }
      lia.
    - pose proof (Zdigits2_le mr (shr_m mrs' + 1) ltac:(lia)).
      pose proof (Zdigits2_succ (shr_m mrs') ltac:(lia)).
      specialize (Hd1 ltac:(lia)). lia. }
  destruct (shr_m mrs'') as [|m|m] eqn:Em; simpl; [exact I| |lia].
  assert (He'' : e'' <= emax - prec) by lia.
  apply Z.leb_le in He''. rewrite He''. simpl.
  specialize (Hd2 ltac:(lia)). simpl in Hd2. lia.
Qed.

End Rounding.

Lemma mag_le_mono (K K' : Z) (s : spec_float) : K <= K' -> mag_le K s -> mag_le K' s.
Proof. intros HK. destruct s; simpl; trivial. lia. Qed.

Lemma mag_le_opp (K : Z) (s : spec_float) : mag_le K s -> mag_le K (SFopp s).
Proof. destruct s; simpl; trivial. Qed.

Lemma Zdigits2_upper (a : Z) : 0 < a -> a < 2 ^ Zdigits2 a.
Proof.
  intros Ha. rewrite Zdigits2_log2 by exact Ha.
  pose proof (Z.log2_spec a Ha) as [_ H]. exact H.
Qed.

Lemma Zdigits2_below_pow2 (a n : Z) : 0 < a -> 0 <= n -> a < 2 ^ n -> Zdigits2 a <= n.
Proof.
  intros Ha Hn Hlt. rewrite Zdigits2_log2 by exact Ha.
  apply Z.log2_lt_pow2 in Hlt; lia.
Qed.

Lemma Zdigits2_sum (a b s : Z) :
  0 < a -> 0 < b -> 0 < s -> s <= a + b ->
  Zdigits2 s <= Z.max (Zdigits2 a) (Zdigits2 b) + 1.
Proof.
  intros Ha Hb Hs Hsum.
  pose proof (Zdigits2_upper a Ha) as Hua. pose proof (Zdigits2_upper b Hb) as Hub.
  pose proof (Zdigits2_nonneg a). pose proof (Zdigits2_nonneg b).
  set (n := Z.max (Zdigits2 a) (Zdigits2 b)) in *.
  assert (Hpa : 2 ^ Zdigits2 a <= 2 ^ n) by (apply Z.pow_le_mono_r; lia).
  assert (Hpb : 2 ^ Zdigits2 b <= 2 ^ n) by (apply Z.pow_le_mono_r; lia).
  apply Zdigits2_below_pow2; [lia | lia |].
  rewrite Z.pow_add_r, Z.pow_1_r by lia. lia.
Qed.

Lemma iter_xO (m d : positive) : Zpos (Pos.iter xO m d) = Zpos m * 2 ^ Zpos d.
Proof.
  rewrite <- Z.shiftl_mul_pow2 by lia. simpl.
  apply (Pos.iter_swap_gen _ _ Zpos xO (Z.mul 2)). reflexivity.
Qed.

Lemma Zdigits2_mul_pow2 (a n : Z) : 0 < a -> 0 <= n -> Zdigits2 (a * 2 ^ n) = Zdigits2 a + n.
Proof.
  intros Ha Hn. assert (0 < 2 ^ n) by (apply Z.pow_pos_nonneg; lia).
  rewrite !Zdigits2_log2 by nia. rewrite Z.log2_mul_pow2 by lia. lia.
Qed.

(** [shl_align] keeps the magnitude and the value. *)
Lemma shl_align_mag (m : positive) (e e' : Z) :
  Zpos (digits2_pos (fst (shl_align m e e'))) + snd (shl_align m e e')
  = Zpos (digits2_pos m) + e.
Proof.
  unfold shl_align. destruct (e' - e) as [|p|p] eqn:Hd; cbn [fst snd]; try reflexivity.
  change (Zpos (digits2_pos (Pos.iter xO m p)))
    with (Zdigits2 (Zpos (Pos.iter xO m p))).
  rewrite iter_xO, Zdigits2_mul_pow2 by lia. cbn [Zdigits2]. lia.
Qed.

Lemma shl_align_value (m : positive) (e e' : Z) :
  e' <= e -> Zpos (fst (shl_align m e e')) = Zpos m * 2 ^ (e - e').
Proof.
  intros He. unfold shl_align. destruct (e' - e) as [|p|p] eqn:Hd; cbn [fst].
  - replace (e - e') with 0 by lia. rewrite Z.pow_0_r. lia.
  - lia.
  - rewrite iter_xO. f_equal. f_equal. lia.
Qed.

(** *** Products, sums and differences *)

Section Operations.
Variables prec emax : Z.
Hypothesis Hprec : 1 <= prec.

Lemma binary_round_mag (s : bool) (m : positive) (e K : Z) :
  Zpos (digits2_pos m) + e <= K ->
  SpecFloat.emin prec emax <= K ->
  K <= emax - prec ->
  mag_le (K + 1) (binary_round prec emax s m e).
Proof.
  intros HM Hmin Hmax. unfold binary_round.
  pose proof (shl_align_mag m e (SpecFloat.fexp prec emax (Zpos (digits2_pos m) + e))) as Hal.
  destruct (shl_align m e (SpecFloat.fexp prec emax (Zpos (digits2_pos m) + e))) as [mz ez].
  cbn [fst snd] in Hal. apply binary_round_aux_mag; try assumption; cbn [Zdigits2]; lia.
Qed.

Lemma binary_normalize_mag (m e K : Z) (sz : bool) :
  (m <> 0 -> Zdigits2 m + e <= K) ->
  SpecFloat.emin prec emax <= K ->
  K <= emax - prec ->
  mag_le (K + 1) (binary_normalize prec emax m e sz).
Proof.
  intros HM Hmin Hmax. destruct m as [|p|p]; simpl; [exact I| |];
    apply binary_round_mag; try assumption; apply HM; lia.
Qed.

Lemma SFmul_mag (Ka Kb : Z) (a b : spec_float) :
  mag_le Ka a -> mag_le Kb b ->
  SpecFloat.emin prec emax <= Ka + Kb ->
  Ka + Kb <= emax - prec ->
  mag_le (Ka + Kb + 1) (SFmul prec emax a b).
Proof.
  intros Ha Hb Hmin Hmax.
  destruct a as [sa|sa| |sa ma ea]; destruct b as [sb|sb| |sb mb eb];
    cbn [mag_le SFmul] in *; try exact I; try contradiction.
  apply binary_round_aux_mag; try assumption; [lia|].
  cbn [Zdigits2]. pose proof (Zdigits2_mul ma mb). lia.
Qed.

(** The sum or difference of two aligned mantissas has at most one
    digit more than the larger of them. *)
Lemma aligned_sum_mag (sa sb : bool) (ma mb : positive) (ea eb Ka Kb : Z)
    (combine : Z -> Z -> Z) :
  (forall u v, Z.abs (combine u v) <= Z.abs u + Z.abs v) ->
  Zpos (digits2_pos ma) + ea <= Ka ->
  Zpos (digits2_pos mb) + eb <= Kb ->
  let ez := Z.min ea eb in
  let S := combine (cond_Zopp sa (Zpos (fst (shl_align ma ea ez))))
                   (cond_Zopp sb (Zpos (fst (shl_align mb eb ez)))) in
  S <> 0 -> Zdigits2 S + ez <= Z.max Ka Kb + 1.
Proof.
  intros Hcomb Ha Hb ez S HS.
  assert (Hza : Zpos (fst (shl_align ma ea ez)) = Zpos ma * 2 ^ (ea - ez))
    by (apply shl_align_value; unfold ez; lia).
  assert (Hzb : Zpos (fst (shl_align mb eb ez)) = Zpos mb * 2 ^ (eb - ez))
    by (apply shl_align_value; unfold ez; lia).
  set (a' := Zpos (fst (shl_align ma ea ez))) in *.
  set (b' := Zpos (fst (shl_align mb eb ez))) in *.
  assert (Hda : Zdigits2 a' + ez = Zpos (digits2_pos ma) + ea).
  { rewrite Hza, Zdigits2_mul_pow2 by (unfold ez; lia). cbn [Zdigits2]. lia. }
  assert (Hdb : Zdigits2 b' + ez = Zpos (digits2_pos mb) + eb).
  { rewrite Hzb, Zdigits2_mul_pow2 by (unfold ez; lia). cbn [Zdigits2]. lia. }
  assert (Habs : Z.abs S <= a' + b').
  { unfold S. etransitivity; [apply Hcomb|].
    unfold a', b'. destruct sa, sb; cbn [cond_Zopp]; lia. }
  assert (Hd : Zdigits2 S = Zdigits2 (Z.abs S)) by (destruct S; reflexivity).
  rewrite Hd.
  pose proof (Zdigits2_sum a' b' (Z.abs S) ltac:(unfold a'; lia) ltac:(unfold b'; lia)
                ltac:(lia) Habs).
  lia.
Qed.

Lemma SFadd_mag (Ka Kb : Z) (a b : spec_float) :
  mag_le Ka a -> mag_le Kb b ->
  SpecFloat.emin prec emax <= Z.max Ka Kb + 1 ->
  Z.max Ka Kb + 1 <= emax - prec ->
  mag_le (Z.max Ka Kb + 2) (SFadd prec emax a b).
Proof.
  intros Ha Hb Hmin Hmax.
  destruct a as [sa|sa| |sa ma ea]; destruct b as [sb|sb| |sb mb eb];
    cbn [mag_le SFadd] in *; try exact I; try contradiction; try lia.
  - destruct sa, sb; exact I.
  - replace (Z.max Ka Kb + 2) with (Z.max Ka Kb + 1 + 1) by lia.
    apply binary_normalize_mag; try assumption.
    apply (aligned_sum_mag sa sb ma mb ea eb Ka Kb Z.add); try assumption.
    intros u v. lia.
Qed.

Lemma SFsub_mag (Ka Kb : Z) (a b : spec_float) :
  mag_le Ka a -> mag_le Kb b ->
  SpecFloat.emin prec emax <= Z.max Ka Kb + 1 ->
  Z.max Ka Kb + 1 <= emax - prec ->
  mag_le (Z.max Ka Kb + 2) (SFsub prec emax a b).
Proof.
  intros Ha Hb Hmin Hmax.
  destruct a as [sa|sa| |sa ma ea]; destruct b as [sb|sb| |sb mb eb];
    cbn [mag_le SFsub] in *; try exact I; try contradiction; try lia.
  - destruct sa, sb; exact I.
  - replace (Z.max Ka Kb + 2) with (Z.max Ka Kb + 1 + 1) by lia.
    apply binary_normalize_mag; try assumption.
    apply (aligned_sum_mag sa sb ma mb ea eb Ka Kb Z.sub); try assumption.
    intros u v. lia.
Qed.

End Operations.

(** *** Binary64 operations *)

Ltac binary64_bounds := try unfold SpecFloat.emin; try unfold prec; try unfold emax; lia.

(** A value of bounded magnitude is finite; the magnitude of a product
    is at most the sum of the magnitudes plus one, and the magnitude of a
    sum or difference at most the larger magnitude plus two. *)

Lemma fmag_finite (K : Z) (x : float) : fmag K x -> is_finiteb x = true.
Proof. unfold fmag, is_finiteb. destruct (Prim2SF x); simpl; tauto. Qed.

Lemma fmag_opp (K : Z) (x : float) : fmag K x -> fmag K (- x)%float.
Proof. unfold fmag. rewrite opp_spec. apply mag_le_opp. Qed.

Lemma fmag_mul (Ka Kb : Z) (a b : float) :
  fmag Ka a -> fmag Kb b -> -1074 <= Ka + Kb -> Ka + Kb <= 971 ->
  fmag (Ka + Kb + 1) (a * b)%float.
Proof.
  unfold fmag. intros Ha Hb Hlo Hhi. rewrite mul_spec.
  apply SFmul_mag; try assumption; binary64_bounds.
Qed.

Lemma fmag_add (Ka Kb : Z) (a b : float) :
  fmag Ka a -> fmag Kb b -> -1074 <= Z.max Ka Kb + 1 -> Z.max Ka Kb + 1 <= 971 ->
  fmag (Z.max Ka Kb + 2) (a + b)%float.
Proof.
  unfold fmag. intros Ha Hb Hlo Hhi. rewrite add_spec.
  apply SFadd_mag; try assumption; binary64_bounds.
Qed.

Lemma fmag_sub (Ka Kb : Z) (a b : float) :
  fmag Ka a -> fmag Kb b -> -1074 <= Z.max Ka Kb + 1 -> Z.max Ka Kb + 1 <= 971 ->
  fmag (Z.max Ka Kb + 2) (a - b)%float.
Proof.
  unfold fmag. intros Ha Hb Hlo Hhi. rewrite sub_spec.
  apply SFsub_mag; try assumption; binary64_bounds.
Qed.

(** The constants of the shape functions. *)
Lemma fmag_1 : fmag 1 1%float.
Proof. vm_compute. discriminate. Qed.

Lemma fmag_half : fmag 0 0.5%float.
Proof. vm_compute. discriminate. Qed.

Lemma fmag_quarter : fmag (-1) 0.25%float.
Proof. vm_compute. discriminate. Qed.

Lemma fmag_eighth : fmag (-2) 0.125%float.
Proof. vm_compute. discriminate. Qed.

(** A valid mantissa has at most 53 digits, so a number between -1 and 1
    has magnitude at most 1. *)

Lemma valid_digits (s : bool) (m : positive) (e : Z) :
  valid_binary (S754_finite s m e) = true ->
  Zpos (digits2_pos m) <= 53.
Proof.
  unfold valid_binary, SpecFloat.valid_binary, bounded, canonical_mantissa, SpecFloat.fexp, SpecFloat.emin, prec, emax.
  intros H. apply andb_true_iff in H as [H _]. apply Z.eqb_eq in H. lia.
Qed.

Lemma fmag_unit (x : float) :
  (-1 <=? x)%float = true -> (x <=? 1)%float = true -> fmag 1 x.
Proof.
  rewrite !leb_spec. unfold fmag.
  change (Prim2SF (-1)) with (S754_finite true 4503599627370496 (-52)).
  change (Prim2SF 1) with (S754_finite false 4503599627370496 (-52)).
  pose proof (Prim2SF_valid x) as Hv.
  destruct (Prim2SF x) as [s|s| |s m e]; cbn [mag_le]; trivial.
  - destruct s; cbn; intros; discriminate.
  - cbn. discriminate.
  - apply valid_digits in Hv. unfold SFleb, SFcompare.
    destruct s.
    + intros Hlo _. destruct (Z.compare_spec (-52) e) as [He|He|He];
        try discriminate; lia.
    + intros _ Hhi. destruct (Z.compare_spec e (-52)) as [He|He|He];
        try discriminate; lia.
Qed.


End FloatFacts.

(** ** Reference shape functions *)

Module ShapeFacts.
Import JS Numeric GCell Examples FloatFacts.

(** *** Sign symmetry of binary64 multiplication *)

Lemma SFmul_opp_l (prec emax : Z) (x y : spec_float) :
  SFmul prec emax (SFopp x) y = SFopp (SFmul prec emax x y).
Proof.
  destruct x as [sx|sx| |sx mx ex]; destruct y as [sy|sy| |sy my ey];
    simpl; try reflexivity; try (destruct sx, sy; reflexivity).
  unfold binary_round_aux.
  destruct (shr_fexp prec emax (Z.pos (mx * my)) (ex + ey) loc_Exact) as [mrs' e'].
  destruct (shr_fexp prec emax
              (round_nearest_even (shr_m mrs') (loc_of_shr_record mrs')) e' loc_Exact)
    as [mrs'' e''].
  destruct (shr_m mrs'') as [|m|m]; simpl; try reflexivity.
  - destruct sx, sy; reflexivity.
  - destruct (e'' <=? emax - prec); destruct sx, sy; reflexivity.
Qed.

Lemma mul_opp_l (a b : float) : (- a * b = - (a * b))%float.
Proof.
  apply Prim2SF_inj.
  rewrite opp_spec, !mul_spec, opp_spec. apply SFmul_opp_l.
Qed.

Lemma SF2Q_opp (s : spec_float) : (SF2Q (SFopp s) == - SF2Q s)%Q.
Proof.
  destruct s as [sg|sg| |sg m e]; simpl; try reflexivity.
  destruct sg; simpl; ring.
Qed.

Lemma F2Q_opp (a : float) : (F2Q (- a) == - F2Q a)%Q.
Proof. unfold F2Q. rewrite opp_spec. apply SF2Q_opp. Qed.

(** *** Derivatives: the columns of [bfundpar] *)

Ltac cancel_columns :=
  unfold exactSum; cbn; rewrite ?mul_opp_l, ?F2Q_opp; ring.

Lemma L2_bfundpar_column :
  (exactSum (column NaN 0 (@L2_bfundpar float _)) == 0)%Q.
Proof. vm_compute. reflexivity. Qed.

Lemma Q4_bfundpar_columns (xi eta : float) (j : nat) :
  (j < 2)%nat ->
  (exactSum (column NaN j (Q4_bfundpar xi eta)) == 0)%Q.
Proof.
  intros Hj. destruct j as [|[|j]]; [| |lia]; cancel_columns.
Qed.

Lemma H8_bfundpar_columns (xi eta theta : float) (j : nat) :
  (j < 3)%nat ->
  (exactSum (column NaN j (H8_bfundpar xi eta theta)) == 0)%Q.
Proof.
  intros Hj. destruct j as [|[|[|j]]]; [| | |lia]; cancel_columns.
Qed.

(** The entries of [bfundpar] at a parametric point of the reference
    element are finite numbers. *)
Ltac mag :=
  lazymatch goal with
  | |- fmag _ (PrimFloat.mul _ _) => eapply fmag_mul; [mag | mag | lia | lia]
  | |- fmag _ (PrimFloat.sub _ _) => eapply fmag_sub; [mag | mag | lia | lia]
  | |- fmag _ (PrimFloat.add _ _) => eapply fmag_add; [mag | mag | lia | lia]
  | |- fmag _ (PrimFloat.opp _) => apply fmag_opp; mag
  | |- fmag _ _ =>
      first [ eassumption | exact fmag_1 | exact fmag_half
            | exact fmag_quarter | exact fmag_eighth ]
  end.

Ltac finite := eapply fmag_finite; mag.

Lemma validParam_cons (c : float) (p : list float) :
  validParam (c :: p) = true -> fmag 1 c /\ validParam p = true.
Proof.
  cbn [validParam forallb]. rewrite !andb_true_iff. intros [[Hlo Hhi] Hp].
  split; [now apply fmag_unit | exact Hp].
Qed.

Lemma Q4_bfundpar_finite (xi eta : float) (j : nat) :
  fmag 1 xi -> fmag 1 eta -> (j < 2)%nat ->
  forallb is_finiteb (column NaN j (Q4_bfundpar xi eta)) = true.
Proof.
  intros Hxi Heta Hj. destruct j as [|[|j]]; [| |lia];
    cbn; rewrite ?andb_true_iff; repeat split; finite.
Qed.

Lemma H8_bfundpar_finite (xi eta theta : float) (j : nat) :
  fmag 1 xi -> fmag 1 eta -> fmag 1 theta -> (j < 3)%nat ->
  forallb is_finiteb (column NaN j (H8_bfundpar xi eta theta)) = true.
Proof.
  intros Hxi Heta Htheta Hj. destruct j as [|[|[|j]]]; [| | |lia];
    cbn; rewrite ?andb_true_iff; repeat split; finite.
Qed.

(** C5.  For L2, Q4 and H8 and every parametric point [p] of the
    reference element ([dim] coordinates, each in [[-1, 1]]),
    [bfundpar(p)] has [cellSize] rows of [dim] entries each, and in every
    column the entries are finite numbers that add up to exactly 0: the
    entries of a column come in pairs of opposite numbers.  The sum is
    the sum of the numbers that the binary64 entries stand for. *)
Theorem bfundpar_columns_sum_to_zero (t : CellType) (p : list float) :
  t <> P1 ->
  length p = Z.to_nat (dim t) ->
  validParam p = true ->
  length (bfundpar t p) = Z.to_nat (cellSize t)
  /\ Forall (fun row => length row = Z.to_nat (dim t)) (bfundpar t p)
  /\ forall j : nat,
      (j < Z.to_nat (dim t))%nat ->
      forallb is_finiteb (column NaN j (bfundpar t p)) = true
      /\ (exactSum (column NaN j (bfundpar t p)) == 0)%Q.
Proof.
  intros Ht Hlen Hvalid. destruct t; [contradiction| | |].
  - split; [reflexivity|]. split; [repeat constructor|].
    intros j Hj. destruct j as [|j]; [|simpl in Hj; lia].
    split; [reflexivity | exact L2_bfundpar_column].
  - destruct p as [|xi [|eta [|? ?]]]; try discriminate Hlen.
    apply validParam_cons in Hvalid as [Hxi Hvalid].
    apply validParam_cons in Hvalid as [Heta _].
    split; [reflexivity|]. split; [repeat constructor|].
    intros j Hj. split.
    + now apply Q4_bfundpar_finite.
    + now apply Q4_bfundpar_columns.
  - destruct p as [|xi [|eta [|theta [|? ?]]]]; try discriminate Hlen.
    apply validParam_cons in Hvalid as [Hxi Hvalid].
    apply validParam_cons in Hvalid as [Heta Hvalid].
    apply validParam_cons in Hvalid as [Htheta _].
    split; [reflexivity|]. split; [repeat constructor|].
    intros j Hj. split.
    + now apply H8_bfundpar_finite.
    + now apply H8_bfundpar_columns.
Qed.

(** C5 at the parametric point (0.1, 0.3) of Q4, both columns. *)
Lemma bfundpar_columns_sum_to_zero_witness :
  (Q4 <> P1
   /\ length [d0_1; d0_3] = Z.to_nat (dim Q4)
   /\ validParam [d0_1; d0_3] = true)
  /\ (forallb is_finiteb (column NaN 0 (bfundpar Q4 [d0_1; d0_3])) = true
      /\ (exactSum (column NaN 0 (bfundpar Q4 [d0_1; d0_3])) == 0)%Q)
  /\ (forallb is_finiteb (column NaN 1 (bfundpar Q4 [d0_1; d0_3])) = true
      /\ (exactSum (column NaN 1 (bfundpar Q4 [d0_1; d0_3])) == 0)%Q).
Proof.
  assert (Ht : Q4 <> P1) by discriminate.
  split; [repeat split; exact Ht|].
  split.
  - apply (proj2 (proj2 (bfundpar_columns_sum_to_zero Q4 [d0_1; d0_3] Ht eq_refl eq_refl))
             0%nat). simpl; lia.
  - apply (proj2 (proj2 (bfundpar_columns_sum_to_zero Q4 [d0_1; d0_3] Ht eq_refl eq_refl))
             1%nat). simpl; lia.
Defined.

(** In exact arithmetic the columns of [bfundpar] add up to 0 as well. *)
Lemma bfundpar_exact_columns :
  (nsum (column 0%Q 0 (@L2_bfundpar Q _)) == 0)%Q
  /\ (forall xi eta : Q,
         (nsum (column 0%Q 0 (Q4_bfundpar xi eta)) == 0)%Q
         /\ (nsum (column 0%Q 1 (Q4_bfundpar xi eta)) == 0)%Q)
  /\ (forall xi eta theta : Q,
         (nsum (column 0%Q 0 (H8_bfundpar xi eta theta)) == 0)%Q
         /\ (nsum (column 0%Q 1 (H8_bfundpar xi eta theta)) == 0)%Q
         /\ (nsum (column 0%Q 2 (H8_bfundpar xi eta theta)) == 0)%Q).
Proof.
  split; [reflexivity|]. split.
  - intros xi eta. split; unfold nsum; cbn; ring.
  - intros xi eta theta. repeat split; unfold nsum; cbn; ring.
Qed.

(** Summed from the left in binary64, the second column of Q4 at
    (0.1, 0.3) misses 0 by a rounding error although its entries are two
    pairs of opposite numbers. *)
Example Q4_bfundpar_column_rounding :
  column NaN 1 (bfundpar Q4 [d0_1; d0_3])
  = [(- 0x1.ccccccccccccdp-3); (- 0x1.199999999999ap-2);
     0x1.199999999999ap-2; 0x1.ccccccccccccdp-3]%float
  /\ nsum (column NaN 1 (bfundpar Q4 [d0_1; d0_3])) = 0x1p-55%float.
Proof. split; reflexivity. Qed.

(** *** Values: the entries of [bfun] *)

Lemma L2_bfun_exact (x : Q) : (nsum (entries (L2_bfun x)) == 1)%Q.
Proof. unfold nsum. cbn. ring. Qed.

Lemma Q4_bfun_exact (xi eta : Q) : (nsum (entries (Q4_bfun xi eta)) == 1)%Q.
Proof. unfold nsum. cbn. ring. Qed.

Lemma H8_bfun_exact (xi eta theta : Q) :
  (nsum (entries (H8_bfun xi eta theta)) == 1)%Q.
Proof. unfold nsum. cbn. ring. Qed.

(** C4 (as amended).  Evaluated in exact arithmetic, the entries of
    [bfun] of L2, Q4 and H8 add up to 1 at every parametric point with
    rational coordinates (every binary64 point is one).  Evaluated in
    binary64, as the code does, L2 at 0 gives [[0.5, 0.5]], Q4 at (0, 0)
    four entries 0.25 and H8 at (0, 0, 0) eight entries 0.125, and these
    add up to exactly 1. *)
Theorem bfun_partition_of_unity :
  ((forall x : Q, (nsum (entries (L2_bfun x)) == 1)%Q)
   /\ (forall xi eta : Q, (nsum (entries (Q4_bfun xi eta)) == 1)%Q)
   /\ (forall xi eta theta : Q, (nsum (entries (H8_bfun xi eta theta)) == 1)%Q))
  /\ (bfun L2 [0%float] = [[0.5]; [0.5]]%float
      /\ nsum (entries (bfun L2 [0%float])) = 1%float)
  /\ (bfun Q4 [0; 0]%float = [[0.25]; [0.25]; [0.25]; [0.25]]%float
      /\ nsum (entries (bfun Q4 [0; 0]%float)) = 1%float)
  /\ (bfun H8 [0; 0; 0]%float
      = [[0.125]; [0.125]; [0.125]; [0.125]; [0.125]; [0.125]; [0.125]; [0.125]]%float
      /\ nsum (entries (bfun H8 [0; 0; 0]%float)) = 1%float).
Proof.
  split; [|repeat split].
  split; [exact L2_bfun_exact | split; [exact Q4_bfun_exact | exact H8_bfun_exact]].
Qed.

(** C4 as stated fails at the valid parametric point (0.6, 0.6) of Q4.
    The four entries the code returns are 0x1.47ae147ae147cp-5,
    0x1.47ae147ae147cp-3, 0x1.47ae147ae147cp-1 and 0x1.47ae147ae147cp-3.
    The numbers they stand for add up to 1 + 7 * 2^-55, not to 1; added
    in binary64 from the left they give 1 + 2^-52, and in no order of
    summation do they give 1. *)
Lemma bfun_partition_of_unity_counterexample :
  validParam [d0_6; d0_6] = true
  /\ bfun Q4 [d0_6; d0_6]
     = [[0x1.47ae147ae147cp-5]; [0x1.47ae147ae147cp-3];
        [0x1.47ae147ae147cp-1]; [0x1.47ae147ae147cp-3]]%float
  /\ forallb is_finiteb (entries (bfun Q4 [d0_6; d0_6])) = true
  /\ Qeq_bool (exactSum (entries (bfun Q4 [d0_6; d0_6])))
              (1 + 7 * Qpower (2 # 1) (-55))%Q = true
  /\ Qeq_bool (exactSum (entries (bfun Q4 [d0_6; d0_6]))) 1%Q = false
  /\ nsum (entries (bfun Q4 [d0_6; d0_6])) = 0x1.0000000000001p+0%float
  /\ strictEquals (nsum (entries (bfun Q4 [d0_6; d0_6]))) 1%float = false
  /\ forallb (fun l => negb (strictEquals (nsum l) 1%float))
             (orderings (entries (bfun Q4 [d0_6; d0_6]))) = true.
Proof. repeat split; vm_compute; reflexivity. Qed.

(** The 24 orders of four entries are all there. *)
Example orderings_of_four :
  length (orderings [1; 2; 3; 4]%nat) = 24%nat
  /\ NoDup (orderings [1; 2; 3; 4]%nat).
Proof.
  split; [reflexivity|].
  apply (bool_decide_unpack _). vm_compute. exact I.
Qed.

End ShapeFacts.

(** ** core.utils.js: rotations, minimum search and canonical cells *)

Module RotationFacts.
Import Utils UtilsFacts.

(** Two integer lists with the same length and the same entries. *)
Lemma list_Z_ext (a b : list Z) :
  length a = length b ->
  (forall j, (j < length a)%nat -> nth j a 0 = nth j b 0) ->
  a = b.
Proof. intros Hlen Hnth. now apply (nth_ext a b 0 0). Qed.

Lemma rotateLeft_zero (arr : list Z) : rotateLeft arr 0 = arr.
Proof.
  apply list_Z_ext; [apply rotateLeft_length|].
  intros j Hj. rewrite rotateLeft_length in Hj.
  rewrite rotateLeft_nth by exact Hj.
  rewrite Z.add_0_l, Z.mod_small by lia. now rewrite Nat2Z.id.
Qed.

Lemma rotateLeft_rotateLeft (arr : list Z) (r s : Z) :
  rotateLeft (rotateLeft arr r) s = rotateLeft arr (r + s).
Proof.
  apply list_Z_ext; [now rewrite !rotateLeft_length|].
  intros j Hj. rewrite !rotateLeft_length in Hj.
  set (n := Z.of_nat (length arr)).
  assert (Hn : 0 < n) by (unfold n; lia).
  rewrite rotateLeft_nth by (now rewrite rotateLeft_length).
  rewrite rotateLeft_length. fold n.
  pose proof (Z.mod_pos_bound (s + Z.of_nat j) n Hn) as Hb.
  rewrite rotateLeft_nth by (fold n; lia). fold n.
  rewrite Z2Nat.id by lia.
  rewrite Zplus_mod_idemp_r.
  rewrite rotateLeft_nth by exact Hj. fold n.
  do 3 f_equal. lia.
Qed.

Lemma rotateLeft_same_residue (arr : list Z) (r s : Z) :
  r mod Z.of_nat (length arr) = s mod Z.of_nat (length arr) ->
  rotateLeft arr r = rotateLeft arr s.
Proof.
  intros Hrs.
  apply list_Z_ext; [now rewrite !rotateLeft_length|].
  intros j Hj. rewrite rotateLeft_length in Hj.
  rewrite !rotateLeft_nth by exact Hj.
  rewrite <- (Zplus_mod_idemp_l r), Hrs, Zplus_mod_idemp_l. reflexivity.
Qed.

Lemma rotateLeft_skipn_firstn (arr : list Z) (offset : Z) :
  let i := Z.to_nat (offset mod Z.of_nat (length arr)) in
  rotateLeft arr offset = skipn i arr ++ firstn i arr.
Proof.
  intros i.
  destruct (Nat.eq_dec (length arr) 0%nat) as [Hz|Hnz].
  - apply length_zero_iff_nil in Hz. subst arr.
    now rewrite skipn_nil, firstn_nil.
  - assert (Hlen : (0 < length arr)%nat) by lia.
    set (n := Z.of_nat (length arr)) in *.
    assert (Hn : n = Z.of_nat (length arr)) by reflexivity.
    pose proof (Z.mod_pos_bound offset n ltac:(lia)) as Hi.
    assert (Hin : (i < length arr)%nat) by (unfold i; lia).
    apply list_Z_ext.
    + rewrite rotateLeft_length, length_app, length_skipn, length_firstn. lia.
    + intros j Hj. rewrite rotateLeft_length in Hj.
      rewrite rotateLeft_nth by exact Hj. fold n.
      rewrite <- (Zplus_mod_idemp_l offset).
      replace (offset mod n) with (Z.of_nat i) by (unfold i; lia).
      destruct (Nat.lt_ge_cases j (length arr - i)) as [Hlt|Hge].
      * rewrite app_nth1 by (rewrite length_skipn; lia).
        rewrite nth_skipn. rewrite Z.mod_small by lia.
        f_equal. lia.
      * rewrite app_nth2 by (rewrite length_skipn; lia).
        rewrite length_skipn, nth_firstn.
        assert (Hlt : (j - (length arr - i) <? i)%nat = true)
          by (apply Nat.ltb_lt; lia).
        rewrite Hlt.
        replace (Z.of_nat i + Z.of_nat j)
          with (Z.of_nat (j - (length arr - i)) + 1 * n) by lia.
        rewrite Z_mod_plus_full, Z.mod_small by lia.
        now rewrite Nat2Z.id.
Qed.

Lemma rotateLeft_Permutation (arr : list Z) (offset : Z) :
  Permutation arr (rotateLeft arr offset).
Proof.
  rewrite rotateLeft_skipn_firstn.
  set (i := Z.to_nat _).
  rewrite <- (firstn_skipn i arr) at 1.
  apply Permutation_app_comm.
Qed.

(** X1.  A rotation to the left by [offset] is the array cut at position
    [offset mod len] with the two pieces swapped: the entries from that
    position to the end, followed by the entries before it.  It keeps
    the length and is a permutation of the array. *)
Theorem rotateLeft_cut_and_swap (arr : list Z) (offset : Z) :
  let i := Z.to_nat (offset mod Z.of_nat (length arr)) in
  rotateLeft arr offset = skipn i arr ++ firstn i arr
  /\ length (rotateLeft arr offset) = length arr
  /\ Permutation arr (rotateLeft arr offset).
Proof.
  intros i. split; [apply rotateLeft_skipn_firstn|].
  split; [apply rotateLeft_length | apply rotateLeft_Permutation].
Qed.

(** X2.  Rotating by [r] and then by [s] is rotating by [r + s], for all
    integers [r] and [s] of either sign; rotating by 0 changes nothing. *)
Theorem rotateLeft_compose (arr : list Z) (r s : Z) :
  rotateLeft (rotateLeft arr r) s = rotateLeft arr (r + s)
  /\ rotateLeft arr 0 = arr.
Proof. split; [apply rotateLeft_rotateLeft | apply rotateLeft_zero]. Qed.

(** X3.  [rotateRight] undoes [rotateLeft] by the same offset, and
    [rotateLeft] undoes [rotateRight]. *)
Theorem rotateRight_undoes_rotateLeft (arr : list Z) (offset : Z) :
  rotateRight (rotateLeft arr offset) offset = arr
  /\ rotateLeft (rotateRight arr offset) offset = arr.
Proof.
  unfold rotateRight. rewrite !rotateLeft_rotateLeft.
  rewrite Z.add_opp_diag_r, Z.add_opp_diag_l. split; apply rotateLeft_zero.
Qed.

(** X4.  The offset of a rotation counts modulo the length: adding any
    multiple of the length to the offset gives the same array, and a
    rotation by a multiple of the length gives the array back. *)
Theorem rotateLeft_periodic (arr : list Z) (offset k : Z) :
  rotateLeft arr (offset + k * Z.of_nat (length arr)) = rotateLeft arr offset
  /\ rotateLeft arr (k * Z.of_nat (length arr)) = arr.
Proof.
  split.
  - apply rotateLeft_same_residue. apply Z_mod_plus_full.
  - transitivity (rotateLeft arr 0); [|apply rotateLeft_zero].
    apply rotateLeft_same_residue.
    now rewrite Z_mod_mult, Zmod_0_l.
Qed.

(** *** [minIndex] returns the first position of the minimum *)

Lemma minIndex_fold_first (l : list Z) :
  forall (k m : nat) (s : sofar),
    (m < length l)%nat ->
    (forall j, (j < length l)%nat -> nth m l 0 <= nth j l 0) ->
    (forall j, (j < m)%nat -> nth m l 0 < nth j l 0) ->
    above (nth m l 0) (value s) ->
    index (fold_left minIndex_step
                     (combine l (map Z.of_nat (seq k (length l)))) s)
    = Z.of_nat (k + m).
Proof.
  induction l as [|x l IH]; intros k m s Hm Hle Hlt Hs; simpl in Hm; [lia|].
  destruct m as [|m]; simpl.
  - simpl in Hs. rewrite (lt_value_above _ _ Hs).
    rewrite minIndex_fold_no_update.
    + simpl. f_equal. lia.
    + intros y Hy. destruct (In_nth _ _ 0 Hy) as (j & Hj & <-).
      exact (Hle (S j) ltac:(simpl; lia)).
  - simpl in Hs.
    assert (Hx : nth m l 0 < x) by exact (Hlt 0%nat ltac:(lia)).
    replace (Z.of_nat (k + S m)) with (Z.of_nat (S k + m)) by lia.
    apply IH.
    + lia.
    + intros j Hj. exact (Hle (S j) ltac:(simpl; lia)).
    + intros j Hj. exact (Hlt (S j) ltac:(lia)).
    + destruct (lt_value x (value s)); simpl; [exact Hx | exact Hs].
Qed.

Lemma minIndex_first (c : list Z) (m : nat) :
  (m < length c)%nat ->
  (forall j, (j < length c)%nat -> nth m c 0 <= nth j c 0) ->
  (forall j, (j < m)%nat -> nth m c 0 < nth j c 0) ->
  minIndex c = Z.of_nat m.
Proof.
  intros Hm Hle Hlt. unfold minIndex, indexed.
  now rewrite (minIndex_fold_first c 0 m) by (simpl; auto).
Qed.

(** Every non-empty array has a first position of its minimum. *)
Lemma first_minimum_exists (c : list Z) :
  c <> [] ->
  exists m, (m < length c)%nat
            /\ (forall j, (j < length c)%nat -> nth m c 0 <= nth j c 0)
            /\ (forall j, (j < m)%nat -> nth m c 0 < nth j c 0).
Proof.
  induction c as [|x c IH]; intros Hne; [congruence|].
  destruct c as [|y c].
  - exists 0%nat. split; [simpl; lia|]. split.
    + intros [|[|j]] Hj; simpl in *; lia.
    + intros j Hj. lia.
  - destruct (IH ltac:(discriminate)) as (m & Hm & Hle & Hlt).
    destruct (Z_le_gt_dec x (nth m (y :: c) 0)) as [Hx|Hx].
    + exists 0%nat. split; [simpl; lia|]. split.
      * intros [|j] Hj; [simpl; lia|].
        change (x <= nth j (y :: c) 0).
        specialize (Hle j ltac:(simpl in *; lia)). lia.
      * intros j Hj. lia.
    + exists (S m). split; [simpl in *; lia|]. split.
      * intros [|j] Hj.
        -- change (nth m (y :: c) 0 <= x). lia.
        -- change (nth m (y :: c) 0 <= nth j (y :: c) 0).
           apply Hle. simpl in *; lia.
      * intros [|j] Hj.
        -- change (nth m (y :: c) 0 < x). lia.
        -- change (nth m (y :: c) 0 < nth j (y :: c) 0).
           apply Hlt. lia.
Qed.

(** X5.  [minIndex] of the empty array is -1.  For a non-empty array it
    is a position inside the array whose entry is less than or equal to
    every entry and strictly less than every entry before it: the first
    position of the minimum. *)
Theorem minIndex_first_minimum (vec : list Z) :
  (vec = [] -> minIndex vec = -1)
  /\ (vec <> [] ->
      exists m, minIndex vec = Z.of_nat m
                /\ (m < length vec)%nat
                /\ (forall j, (j < length vec)%nat -> nth m vec 0 <= nth j vec 0)
                /\ (forall j, (j < m)%nat -> nth m vec 0 < nth j vec 0)).
Proof.
  split.
  - now intros ->.
  - intros Hne. destruct (first_minimum_exists vec Hne) as (m & Hm & Hle & Hlt).
    exists m. split; [now apply minIndex_first | auto].
Qed.

(** The first minimum of [[3, 1, 2, 1]] is at position 1. *)
Lemma minIndex_first_minimum_witness :
  [3; 1; 2; 1] <> []
  /\ exists m, minIndex [3; 1; 2; 1] = Z.of_nat m
               /\ (m < length [3; 1; 2; 1])%nat
               /\ (forall j, (j < length [3; 1; 2; 1])%nat ->
                             nth m [3; 1; 2; 1] 0 <= nth j [3; 1; 2; 1] 0)
               /\ (forall j, (j < m)%nat ->
                             nth m [3; 1; 2; 1] 0 < nth j [3; 1; 2; 1] 0).
Proof.
  split; [discriminate|].
  apply (proj2 (minIndex_first_minimum [3; 1; 2; 1])). discriminate.
Defined.

(** *** Canonical form of a cell *)

Lemma normalizedCell_nth (c : list Z) (m j : nat) :
  minIndex c = Z.of_nat m -> (m < length c)%nat -> (j < length c)%nat ->
  nth j (normalizedCell c) 0 =
  nth (Z.to_nat ((Z.of_nat m + Z.of_nat j) mod Z.of_nat (length c))) c 0.
Proof.
  intros Hmin Hm Hj. unfold normalizedCell. rewrite Hmin.
  now apply rotateLeft_nth.
Qed.

Lemma minIndex_normalizedCell (c : list Z) :
  c <> [] -> minIndex (normalizedCell c) = 0.
Proof.
  intros Hne.
  destruct (first_minimum_exists c Hne) as (m & Hm & Hle & Hlt).
  pose proof (minIndex_first c m Hm Hle Hlt) as Hmin.
  assert (Hlen : length (normalizedCell c) = length c)
    by apply rotateLeft_length.
  assert (H0 : nth 0 (normalizedCell c) 0 = nth m c 0).
  { rewrite (normalizedCell_nth c m 0 Hmin Hm) by lia.
    rewrite Z.add_0_r, Z.mod_small by lia. now rewrite Nat2Z.id. }
  apply (minIndex_first (normalizedCell c) 0).
  - lia.
  - intros j Hj. rewrite Hlen in Hj. rewrite H0.
    rewrite (normalizedCell_nth c m j Hmin Hm Hj).
    apply Hle. now apply rotateLeft_index_in_range.
  - intros j Hj. lia.
Qed.

(** X6.  [normalizedCell] is idempotent on every cell, also on the empty
    cell and on cells in which the smallest node index repeats. *)
Theorem normalizedCell_idempotent_all (conn : list Z) :
  normalizedCell (normalizedCell conn) = normalizedCell conn.
Proof.
  destruct conn as [|x c]; [reflexivity|].
  unfold normalizedCell at 1.
  rewrite minIndex_normalizedCell by discriminate.
  apply rotateLeft_zero.
Qed.

Lemma fold_min_In (l : list Z) (d : Z) :
  fold_right Z.min d l = d \/ In (fold_right Z.min d l) l.
Proof.
  induction l as [|y l IH]; simpl; [now left|].
  destruct (Z.min_spec y (fold_right Z.min d l)) as [[_ ->]|[_ ->]].
  - right. now left.
  - destruct IH as [IH|IH]; [now left | right; now right].
Qed.

Lemma cellMin_In (c : list Z) : c <> [] -> In (cellMin c) c.
Proof.
  destruct c as [|x c]; [congruence|]. intros _. unfold cellMin.
  destruct (fold_min_In (x :: c) (hd 0 (x :: c))) as [H|H]; [|exact H].
  rewrite H. now left.
Qed.

(** X7.  The canonical form of a non-empty cell is a rotation of the
    cell, hence a permutation of its nodes, and its first entry is the
    smallest node index of the cell. *)
Theorem normalizedCell_min_first (conn : list Z) :
  conn <> [] ->
  (exists r, 0 <= r < Z.of_nat (length conn)
             /\ normalizedCell conn = rotateLeft conn r)
  /\ Permutation conn (normalizedCell conn)
  /\ nth 0 (normalizedCell conn) 0 = cellMin conn
  /\ forall y, In y conn -> nth 0 (normalizedCell conn) 0 <= y.
Proof.
  intros Hne.
  destruct (first_minimum_exists conn Hne) as (m & Hm & Hle & Hlt).
  pose proof (minIndex_first conn m Hm Hle Hlt) as Hmin.
  assert (H0 : nth 0 (normalizedCell conn) 0 = nth m conn 0).
  { rewrite (normalizedCell_nth conn m 0 Hmin Hm) by lia.
    rewrite Z.add_0_r, Z.mod_small by lia. now rewrite Nat2Z.id. }
  assert (Hall : forall y, In y conn -> nth m conn 0 <= y).
  { intros y Hy. destruct (In_nth _ _ 0 Hy) as (j & Hj & <-). now apply Hle. }
  split; [|split; [|split]].
  - exists (Z.of_nat m). split; [lia|]. unfold normalizedCell. now rewrite Hmin.
  - unfold normalizedCell.
    apply rotateLeft_Permutation.
  - rewrite H0.
    pose proof (cellMin_In conn Hne) as Hin.
    pose proof (Hall _ Hin).
    pose proof (cellMin_le conn (nth m conn 0) (nth_In _ _ Hm)). lia.
  - intros y Hy. rewrite H0. now apply Hall.
Qed.

(** The theorem on canonical forms applied to the cell [[3,1,2]]. *)
Lemma normalizedCell_min_first_witness :
  [3; 1; 2] <> []
  /\ nth 0 (normalizedCell [3; 1; 2]) 0 = cellMin [3; 1; 2].
Proof.
  split; [discriminate|].
  apply (normalizedCell_min_first [3; 1; 2]). discriminate.
Defined.

End RotationFacts.

(** ** core.utils.js: array generators, comparison, iterators, identifiers *)

Module CoreUtilsFacts.
Import JS CoreUtils Stdlib.Strings.Ascii.

(** *** array1d, array2d *)

Section ArrayFacts.
Context `{Engine}.

(** The lengths for which [Array.apply(null, Array(m))] returns: inside
    [0 .. 2^32 - 1] and accepted by [apply]. *)
Lemma Array_indices_ok (caller : Caller) (m : Z) :
  0 <= m < arrayLengthLimit -> apply_accepts caller m = true ->
  Array_indices caller m = Ok (map Z.of_nat (seq 0 (Z.to_nat m))).
Proof.
  intros Hm Hacc. unfold Array_indices.
  destruct (Z.ltb_spec m 0) as [E|_]; [lia|].
  destruct (Z.leb_spec arrayLengthLimit m) as [E|_]; [lia|].
  cbn [orb]. now rewrite Hacc.
Qed.

Lemma Array_indices_invalid (caller : Caller) (m : Z) :
  m < 0 \/ arrayLengthLimit <= m ->
  Array_indices caller m = Throw "RangeError: Invalid array length".
Proof.
  intros Hm. unfold Array_indices.
  destruct (Z.ltb_spec m 0) as [_|E]; [reflexivity|].
  destruct (Z.leb_spec arrayLengthLimit m) as [_|E']; [reflexivity|lia].
Qed.

Lemma Array_indices_refused (caller : Caller) (m : Z) :
  0 <= m < arrayLengthLimit -> apply_accepts caller m = false ->
  Array_indices caller m = Throw apply_refused.
Proof.
  intros Hm Hacc. unfold Array_indices.
  destruct (Z.ltb_spec m 0) as [E|_]; [lia|].
  destruct (Z.leb_spec arrayLengthLimit m) as [E|_]; [lia|].
  cbn [orb]. now rewrite Hacc.
Qed.

(** The value [array1d] puts at index [i]. *)
Lemma array1d_ok {A : Type} (caller : Caller) (m : Z) (fn : Generator1 A) :
  0 <= m < arrayLengthLimit -> apply_accepts caller m = true ->
  array1d caller m fn =
  Ok (map (fun i : nat =>
             match fn with
             | Gen1Function f => f (Z.of_nat i)
             | Gen1Constant c => c
             end) (seq 0 (Z.to_nat m))).
Proof.
  intros Hm Hacc. unfold array1d.
  destruct fn; rewrite Array_indices_ok by assumption; simpl;
    now rewrite map_map.
Qed.

Lemma array1d_invalid {A : Type} (caller : Caller) (m : Z)
    (fn : Generator1 A) :
  m < 0 \/ arrayLengthLimit <= m ->
  array1d caller m fn = Throw "RangeError: Invalid array length".
Proof.
  intros Hm. unfold array1d.
  destruct fn; now rewrite Array_indices_invalid by exact Hm.
Qed.

Lemma array1d_refused {A : Type} (caller : Caller) (m : Z)
    (fn : Generator1 A) :
  0 <= m < arrayLengthLimit -> apply_accepts caller m = false ->
  array1d caller m fn = Throw apply_refused.
Proof.
  intros Hm Hacc. unfold array1d.
  destruct fn; now rewrite Array_indices_refused by assumption.
Qed.

Lemma collect_ok {A B : Type} (g : B -> A) (l : list B) :
  collect (map (fun i => Ok (g i)) l) = Ok (map g l).
Proof.
  induction l as [|b l IH]; simpl; [reflexivity|]. now rewrite IH.
Qed.

Lemma array2d_ok {A : Type} (m n : Z) (fn : Generator2 A) :
  0 <= m < arrayLengthLimit -> apply_accepts ByArray2d m = true ->
  0 <= n < arrayLengthLimit -> apply_accepts ByArray2dRow n = true ->
  array2d m n fn =
  Ok (map (fun i => map (fun j => value2 fn i j) (seq 0 (Z.to_nat n)))
          (seq 0 (Z.to_nat m))).
Proof.
  intros Hm Hma Hn Hna. unfold array2d.
  destruct fn as [f|c]; rewrite array1d_ok by assumption; simpl.
  - rewrite <- (collect_ok
        (fun i : nat => map (fun j : nat => f (Z.of_nat i) (Z.of_nat j))
                            (seq 0 (Z.to_nat n)))).
    f_equal. apply map_ext. intros i.
    rewrite Array_indices_ok by assumption. simpl. now rewrite map_map.
  - rewrite <- (collect_ok
        (fun i : nat => map (fun j : nat => c) (seq 0 (Z.to_nat n)))).
    f_equal. apply map_ext. intros i.
    rewrite Array_indices_ok by assumption. simpl. now rewrite map_map.
Qed.

Lemma nth_error_tabulate {A : Type} (g : nat -> A) (k i : nat) :
  (i < k)%nat -> nth_error (map g (seq 0 k)) i = Some (g i).
Proof.
  intros Hi.
  rewrite (nth_error_nth' _ (g 0%nat)) by (now rewrite length_map, length_seq).
  rewrite map_nth, seq_nth by exact Hi. reflexivity.
Qed.

(** X8.  When [m] and [n] are lengths that [Array] and [apply] accept
    (integers from 0 to 2^32 - 1 that are not too long an argument list
    for the engine), [array2d(m, n, fn)] returns [m] rows of [n] entries
    each, and entry [j] of row [i] is [fn(i, j)], or [fn] itself when
    [fn] is not a function.  An [m] that is negative or at least 2^32
    throws a RangeError, and so does such an [n] when there is at least
    one row; an [m] or, with at least one row, an [n] that the engine
    refuses throws the error of the engine; with [m = 0] the result is
    the empty array whatever [n] is. *)
Theorem array2d_rows_and_columns {A : Type} (m n : Z) (fn : Generator2 A) :
  (0 <= m < arrayLengthLimit -> apply_accepts ByArray2d m = true ->
   0 <= n < arrayLengthLimit -> apply_accepts ByArray2dRow n = true ->
   exists M, array2d m n fn = Ok M
     /\ length M = Z.to_nat m
     /\ forall i, (i < Z.to_nat m)%nat ->
          exists row, nth_error M i = Some row
            /\ length row = Z.to_nat n
            /\ forall j, (j < Z.to_nat n)%nat ->
                 nth_error row j = Some (value2 fn i j))
  /\ (m < 0 \/ arrayLengthLimit <= m ->
      array2d m n fn = Throw "RangeError: Invalid array length")
  /\ (0 <= m < arrayLengthLimit -> apply_accepts ByArray2d m = false ->
      array2d m n fn = Throw apply_refused)
  /\ (0 < m < arrayLengthLimit -> apply_accepts ByArray2d m = true ->
      (n < 0 \/ arrayLengthLimit <= n ->
       array2d m n fn = Throw "RangeError: Invalid array length")
      /\ (0 <= n < arrayLengthLimit -> apply_accepts ByArray2dRow n = false ->
          array2d m n fn = Throw apply_refused))
  /\ (m = 0 -> apply_accepts ByArray2d 0 = true -> array2d m n fn = Ok []).
Proof.
  split; [|split; [|split; [|split]]].
  - intros Hm Hma Hn Hna. eexists. split; [now apply array2d_ok|].
    split; [now rewrite length_map, length_seq|].
    intros i Hi. eexists. split; [now apply nth_error_tabulate|].
    split; [now rewrite length_map, length_seq|].
    intros j Hj. now apply nth_error_tabulate.
  - intros Hm. unfold array2d.
    destruct fn; now rewrite array1d_invalid by exact Hm.
  - intros Hm Hma. unfold array2d.
    destruct fn; now rewrite array1d_refused by assumption.
  - intros Hm Hma.
    destruct (Z.to_nat m) as [|k] eqn:Ek; [lia|].
    split.
    + intros Hn. unfold array2d.
      destruct fn; rewrite array1d_ok by (assumption || lia); rewrite Ek;
        simpl; now rewrite Array_indices_invalid by exact Hn.
    + intros Hn Hna. unfold array2d.
      destruct fn; rewrite array1d_ok by (assumption || lia); rewrite Ek;
        simpl; now rewrite Array_indices_refused by assumption.
  - intros -> Hacc. unfold array2d.
    destruct fn; rewrite array1d_ok by (assumption || (unfold arrayLengthLimit; lia));
      reflexivity.
Qed.

(** *** embed *)

(** The copy loop of [embed] after [k] rounds. *)
Lemma embed_copy (v out : list float) (k : nat) :
  (k <= length v)%nat -> (k <= length out)%nat ->
  fold_left (fun out i => <[i := at_index v i]> out) (seq 0 k) out
  = take k v ++ drop k out.
Proof.
  induction k as [|k IH]; intros Hv Hout.
  - simpl. now rewrite drop_0.
  - rewrite seq_S, fold_left_app, IH by lia. cbn [fold_left Nat.add].
    destruct (lookup_lt_is_Some_2 v k ltac:(lia)) as [x Hx].
    destruct (lookup_lt_is_Some_2 out k ltac:(lia)) as [y Hy].
    rewrite (take_S_r v k x Hx), (drop_S out y k Hy).
    unfold at_index. rewrite (nth_lookup_Some v k NaN x Hx).
    rewrite insert_app_r_alt by (rewrite length_take; lia).
    rewrite length_take, Nat.min_l, Nat.sub_diag by lia. cbn.
    now rewrite <- app_assoc.
Qed.

Lemma embed_ok (v : Vector) (dim : Z) :
  0 <= dim < arrayLengthLimit -> apply_accepts ByEmbed dim = true ->
  embed (IsArray v) dim =
  Ok (take (Z.to_nat dim) v ++ replicate (Z.to_nat dim - length v) 0%float).
Proof.
  intros Hdim Hacc. unfold embed.
  rewrite array1d_ok by assumption. simpl.
  set (d := Z.to_nat dim).
  assert (Hout : map (fun _ : nat => 0%float) (seq 0 d) = replicate d 0%float).
  { clear. generalize 0%nat. induction d as [|d IH]; intros s; simpl;
      [reflexivity | now rewrite IH]. }
  rewrite Hout. f_equal.
  destruct (Z.of_nat (length v) <? dim) eqn:E.
  - apply Z.ltb_lt in E. rewrite Nat2Z.id.
    rewrite embed_copy by (rewrite ?length_replicate; lia).
    rewrite drop_replicate, firstn_all, take_ge by lia. reflexivity.
  - apply Z.ltb_ge in E. fold d.
    rewrite embed_copy by (rewrite ?length_replicate; lia).
    rewrite drop_replicate. do 2 f_equal. lia.
Qed.

Lemma embed_length (v : Vector) (d : nat) :
  length (take d v ++ replicate (d - length v) 0%float) = d.
Proof. rewrite length_app, length_take, length_replicate. lia. Qed.

Lemma embed_at (v : Vector) (d i : nat) :
  (i < d)%nat ->
  at_index (take d v ++ replicate (d - length v) 0%float) i
  = if (i <? length v)%nat then at_index v i else 0%float.
Proof.
  intros Hi. unfold at_index.
  destruct (i <? length v)%nat eqn:E.
  - apply Nat.ltb_lt in E.
    rewrite app_nth1 by (rewrite length_take; lia).
    rewrite !nth_lookup, lookup_take_lt by lia. reflexivity.
  - apply Nat.ltb_ge in E.
    rewrite app_nth2 by (rewrite length_take; lia).
    rewrite nth_lookup, lookup_replicate_2; [reflexivity|].
    rewrite length_take. lia.
Qed.

(** X9.  For an array [vec] and a [dim] that is a length [Array] and
    [apply] accept (an integer from 0 to 2^32 - 1, not too long an
    argument list for the engine), [embed(vec, dim)] returns an array of
    exactly [dim] entries: entry [i] is [vec[i]] where [vec] has one,
    and 0 after the end of [vec]; a longer [vec] is cut to its first
    [dim] entries.  A [dim] that is negative or at least 2^32 throws a
    RangeError, a [dim] that the engine refuses throws the error of the
    engine, and a first argument that is not an array throws the error
    of [embed]. *)
Theorem embed_pads_or_truncates (vec : Vector) (dim : Z) :
  (0 <= dim < arrayLengthLimit -> apply_accepts ByEmbed dim = true ->
   exists out, embed (IsArray vec) dim = Ok out
     /\ Z.of_nat (length out) = dim
     /\ forall i, (i < length out)%nat ->
          at_index out i
          = if (i <? length vec)%nat then at_index vec i else 0%float)
  /\ (dim < 0 \/ arrayLengthLimit <= dim ->
      embed (IsArray vec) dim = Throw "RangeError: Invalid array length")
  /\ (0 <= dim < arrayLengthLimit -> apply_accepts ByEmbed dim = false ->
      embed (IsArray vec) dim = Throw apply_refused)
  /\ embed NotArray dim
     = Throw "embed(vec, dim): vec must be a Javascript array.".
Proof.
  split; [|split; [|split]].
  - intros Hdim Hacc. eexists. split; [now apply embed_ok|].
    rewrite embed_length. split; [lia|].
    intros i Hi. now apply embed_at.
  - intros Hdim. unfold embed. now rewrite array1d_invalid.
  - intros Hdim Hacc. unfold embed. now rewrite array1d_refused.
  - reflexivity.
Qed.

(** X10.  Embedding twice is embedding once, where both steps return:
    when [d1] and [d2] are lengths that [Array] and [apply] accept,
    [embed(embed(vec, d1), d2)] is [embed(vec, d2)] whenever the first
    step lost nothing that the second keeps, that is when [d2 <= d1] or
    [vec.length <= d1]; and when [vec.length] is such a length,
    [embed(vec, vec.length)] is a copy of [vec]. *)
Theorem embed_twice (vec : Vector) (d1 d2 : Z) :
  (0 <= d1 < arrayLengthLimit -> apply_accepts ByEmbed d1 = true ->
   0 <= d2 < arrayLengthLimit -> apply_accepts ByEmbed d2 = true ->
   d2 <= d1 \/ Z.of_nat (length vec) <= d1 ->
   (out <- embed (IsArray vec) d1 ;; embed (IsArray out) d2)
   = embed (IsArray vec) d2)
  /\ (Z.of_nat (length vec) < arrayLengthLimit ->
      apply_accepts ByEmbed (Z.of_nat (length vec)) = true ->
      embed (IsArray vec) (Z.of_nat (length vec)) = Ok vec).
Proof.
  split.
  - intros H1 Ha1 H2 Ha2 Hd.
    rewrite (embed_ok vec d1 H1 Ha1). cbn [bind].
    rewrite !embed_ok by assumption. f_equal.
    set (n1 := Z.to_nat d1). set (n2 := Z.to_nat d2).
    apply (nth_ext _ _ NaN NaN).
    + now rewrite !embed_length.
    + intros i Hi. rewrite embed_length in Hi.
      pose proof (embed_at (take n1 vec ++ replicate (n1 - length vec) 0%float)
                           n2 i Hi) as Hl.
      pose proof (embed_at vec n2 i Hi) as Hr.
      unfold at_index in Hl, Hr. rewrite Hl, Hr, embed_length.
      destruct (Nat.ltb_spec i n1) as [E1|E1].
      * pose proof (embed_at vec n1 i E1) as Hm. unfold at_index in Hm.
        now rewrite Hm.
      * destruct (Nat.ltb_spec i (length vec)) as [E2|E2]; [|reflexivity].
        exfalso. unfold n1, n2 in *. lia.
  - intros Hlen Hacc. rewrite embed_ok by (assumption || lia).
    rewrite Nat2Z.id, Nat.sub_diag, firstn_all.
    simpl. now rewrite app_nil_r.
Qed.

End ArrayFacts.

(** A 3 by 2 array of zeros, on an engine that accepts 65535
    arguments. *)
Lemma array2d_rows_and_columns_witness :
  (0 <= 3 < arrayLengthLimit
   /\ @apply_accepts MoreExamples.exampleEngine ByArray2d 3 = true
   /\ 0 <= 2 < arrayLengthLimit
   /\ @apply_accepts MoreExamples.exampleEngine ByArray2dRow 2 = true)
  /\ exists M, @array2d MoreExamples.exampleEngine Z 3 2 (Gen2Constant 0)
               = Ok M
               /\ length M = 3%nat.
Proof.
  assert (H3 : 0 <= 3 < arrayLengthLimit) by (unfold arrayLengthLimit; lia).
  assert (H2 : 0 <= 2 < arrayLengthLimit) by (unfold arrayLengthLimit; lia).
  split; [repeat split; solve [reflexivity | apply H3 | apply H2]|].
  destruct (proj1 (@array2d_rows_and_columns MoreExamples.exampleEngine Z
                     3 2 (Gen2Constant 0)) H3 eq_refl H2 eq_refl)
    as (M & HM & Hlen & _).
  exists M. split; [exact HM | exact Hlen].
Defined.

(** [[1,2]] embedded in dimension 3. *)
Lemma embed_pads_or_truncates_witness :
  (0 <= 3 < arrayLengthLimit
   /\ @apply_accepts MoreExamples.exampleEngine ByEmbed 3 = true)
  /\ exists out, @embed MoreExamples.exampleEngine (IsArray [1; 2]%float) 3
                 = Ok out
                 /\ Z.of_nat (length out) = 3.
Proof.
  assert (H3 : 0 <= 3 < arrayLengthLimit) by (unfold arrayLengthLimit; lia).
  split; [split; [exact H3 | reflexivity]|].
  destruct (proj1 (@embed_pads_or_truncates MoreExamples.exampleEngine
                     [1; 2]%float 3) H3 eq_refl)
    as (out & Hout & Hlen & _).
  exists out. split; [exact Hout | exact Hlen].
Defined.

(** The two examples of the documentation of [embed], and a dimension
    that [Array] refuses. *)
Example embed_documented :
  @embed MoreExamples.exampleEngine (IsArray [1; 2]%float) 3
  = Ok [1; 2; 0]%float
  /\ @embed MoreExamples.exampleEngine (IsArray [0]%float) 3
     = Ok [0; 0; 0]%float
  /\ @embed MoreExamples.exampleEngine (IsArray [1; 2]%float) 4294967296
     = Throw "RangeError: Invalid array length".
Proof. repeat split. Qed.

(** [[1,2,3]] embedded in dimension 5 and then in dimension 2. *)
Lemma embed_twice_witness :
  (0 <= 5 < arrayLengthLimit
   /\ @apply_accepts MoreExamples.exampleEngine ByEmbed 5 = true
   /\ 0 <= 2 < arrayLengthLimit
   /\ @apply_accepts MoreExamples.exampleEngine ByEmbed 2 = true
   /\ 2 <= 5)
  /\ (out <- @embed MoreExamples.exampleEngine (IsArray [1; 2; 3]%float) 5 ;;
      @embed MoreExamples.exampleEngine (IsArray out) 2)
     = @embed MoreExamples.exampleEngine (IsArray [1; 2; 3]%float) 2.
Proof.
  assert (H5 : 0 <= 5 < arrayLengthLimit) by (unfold arrayLengthLimit; lia).
  assert (H2 : 0 <= 2 < arrayLengthLimit) by (unfold arrayLengthLimit; lia).
  split; [repeat split; solve [reflexivity | apply H5 | apply H2 | lia]|].
  apply (proj1 (@embed_twice MoreExamples.exampleEngine [1; 2; 3]%float 5 2)
               H5 eq_refl H2 eq_refl).
  left. lia.
Defined.

(** *** byLexical *)

(** The loop on two arrays of the same length. *)
Lemma byLexical_loop_zero (a : list Z) :
  forall (b : list Z) (res : Difference),
    length a = length b ->
    (byLexical_loop a b res = DNumber 0
     <-> a = b /\ (a = [] -> res = DNumber 0)).
Proof.
  induction a as [|x a IH]; intros [|y b] res Hlen; try discriminate.
  - simpl. split; [now intros -> | intros [_ H]; now apply H].
  - simpl. destruct (Z.eqb_spec (x - y) 0) as [E|E]; simpl.
    + rewrite E, IH by (simpl in Hlen; lia).
      assert (x = y) by lia. subst y.
      split.
      * intros [-> _]. split; [reflexivity | discriminate].
      * intros [H _]. injection H as ->. split; [reflexivity | reflexivity].
    + split.
      * intros H. injection H as H. lia.
      * intros [H _]. injection H as H _. lia.
Qed.

Lemma byLexical_loop_flip (a : list Z) :
  forall (b : list Z) (r r' : Difference) (z : Z),
    length a = length b ->
    (r = DNumber z -> r' = DNumber (- z)) ->
    byLexical_loop a b r = DNumber z ->
    byLexical_loop b a r' = DNumber (- z).
Proof.
  induction a as [|x a IH]; intros [|y b] r r' z Hlen Hr; try discriminate.
  - simpl. exact Hr.
  - simpl.
    destruct (Z.eqb_spec (x - y) 0) as [E|E];
      destruct (Z.eqb_spec (y - x) 0) as [E'|E']; try lia; simpl.
    + apply IH; [simpl in Hlen; lia|].
      intros H. injection H as <-. f_equal. lia.
    + intros H. injection H as <-. f_equal. lia.
Qed.

(** X11.  On two arrays of integers of the same length, [byLexical] is
    antisymmetric: when [byLexical(a, b)] is the number [z],
    [byLexical(b, a)] is [-z]; and on non-empty arrays of the same
    length it returns 0 exactly when the two arrays are equal. *)
Theorem byLexical_antisymmetric (a b : list Z) :
  length a = length b ->
  (forall z, byLexical a b = DNumber z -> byLexical b a = DNumber (- z))
  /\ (a <> [] -> (byLexical a b = DNumber 0 <-> a = b)).
Proof.
  intros Hlen. split.
  - intros z. unfold byLexical.
    apply byLexical_loop_flip; [exact Hlen | discriminate].
  - intros Hne. unfold byLexical. rewrite byLexical_loop_zero by exact Hlen.
    split; [now intros [H _] | intros H; split; [exact H | contradiction]].
Qed.

(** Two quadrilaterals that differ in the third node. *)
Lemma byLexical_antisymmetric_witness :
  length [1; 2; 3; 4] = length [1; 2; 5; 0]
  /\ byLexical [1; 2; 5; 0] [1; 2; 3; 4] = DNumber (- -2).
Proof.
  split; [reflexivity|].
  apply (proj1 (byLexical_antisymmetric [1; 2; 3; 4] [1; 2; 5; 0] eq_refl)).
  reflexivity.
Defined.

(** The sign of the loop on arrays of the same length. *)
Lemma byLexical_loop_negative (a : list Z) :
  forall (b : list Z) (r : Difference),
    length a = length b -> isNegative r = false ->
    (isNegative (byLexical_loop a b r) = true
     <-> exists p x y a' b',
           a = p ++ x :: a' /\ b = p ++ y :: b' /\ x < y).
Proof.
  induction a as [|x a IH]; intros [|y b] r Hlen Hr; try discriminate.
  - simpl. rewrite Hr. split; [discriminate|].
    intros (p & x & y & a' & b' & Ha & _). now destruct p.
  - simpl. destruct (Z.eqb_spec (x - y) 0) as [E|E]; simpl.
    + assert (x = y) by lia. subst y.
      rewrite (IH b (DNumber (x - x)) ltac:(simpl in Hlen; lia)
                  ltac:(simpl; apply Z.ltb_ge; lia)).
      split.
      * intros (p & x' & y' & a' & b' & -> & -> & Hlt).
        now exists (x :: p), x', y', a', b'.
      * intros (p & x' & y' & a' & b' & Ha & Hb & Hlt).
        destruct p as [|q p]; simpl in Ha, Hb.
        -- injection Ha as -> _. injection Hb as -> _. lia.
        -- injection Ha as -> ->. injection Hb as ->.
           now exists p, x', y', a', b'.
    + split.
      * intros H. apply Z.ltb_lt in H.
        exists [], x, y, a, b. repeat split. lia.
      * intros (p & x' & y' & a' & b' & Ha & Hb & Hlt).
        destruct p as [|q p]; simpl in Ha, Hb.
        -- injection Ha as -> _. injection Hb as -> _.
           apply Z.ltb_lt. lia.
        -- injection Ha as -> _. injection Hb as -> _. lia.
Qed.

(** X12.  On two arrays of integers of the same length,
    [byLexical(a, b)] is negative exactly when [a] comes before [b] in
    lexicographic order: the arrays agree on a prefix [p], and at the
    first position where they differ the entry of [a] is the smaller
    one. *)
Theorem byLexical_negative_iff_precedes (a b : list Z) :
  length a = length b ->
  (isNegative (byLexical a b) = true
   <-> exists p x y a' b', a = p ++ x :: a' /\ b = p ++ y :: b' /\ x < y).
Proof.
  intros Hlen. unfold byLexical.
  now apply byLexical_loop_negative.
Qed.

(** [[1,2,3,4]] comes before [[1,2,5,0]]. *)
Lemma byLexical_negative_iff_precedes_witness :
  length [1; 2; 3; 4] = length [1; 2; 5; 0]
  /\ exists p x y a' b',
       [1; 2; 3; 4] = p ++ x :: a' /\ [1; 2; 5; 0] = p ++ y :: b' /\ x < y.
Proof.
  split; [reflexivity|].
  apply (proj1 (byLexical_negative_iff_precedes [1; 2; 3; 4] [1; 2; 5; 0]
                                                eq_refl)).
  reflexivity.
Defined.

Lemma byLexical_loop_transitive (a : list Z) :
  forall (b c : list Z) (r1 r2 r3 : Difference),
    length a = length b -> length b = length c ->
    isNegative r1 = false ->
    isNegative (byLexical_loop a b r1) = true ->
    isNegative (byLexical_loop b c r2) = true ->
    isNegative (byLexical_loop a c r3) = true.
Proof.
  induction a as [|x a IH]; intros [|y b] [|z c] r1 r2 r3 Hab Hbc Hr1;
    try discriminate.
  - simpl. congruence.
  - simpl.
    destruct (Z.eqb_spec (x - y) 0) as [E1|E1];
      destruct (Z.eqb_spec (y - z) 0) as [E2|E2];
      destruct (Z.eqb_spec (x - z) 0) as [E3|E3];
      simpl; rewrite ?Z.ltb_lt; try lia.
    intros H1 H2.
    apply (IH b c (DNumber (x - y)) (DNumber (y - z)));
      simpl in *; try lia; try assumption.
Qed.

Lemma byLexical_loop_trichotomy (a : list Z) :
  forall (b : list Z) (r1 r2 : Difference),
    length a = length b ->
    a = b \/ isNegative (byLexical_loop a b r1) = true
          \/ isNegative (byLexical_loop b a r2) = true.
Proof.
  induction a as [|x a IH]; intros [|y b] r1 r2 Hlen; try discriminate.
  - now left.
  - simpl.
    destruct (Z.eqb_spec (x - y) 0) as [E1|E1];
      destruct (Z.eqb_spec (y - x) 0) as [E2|E2]; try lia; simpl.
    + assert (x = y) by lia. subst y.
      destruct (IH b (DNumber (x - x)) (DNumber (x - x))
                   ltac:(simpl in Hlen; lia)) as [->|[H|H]]; auto.
    + right. rewrite !Z.ltb_lt. lia.
Qed.

(** X13.  On arrays of integers of one length, "[byLexical(a, b)] is
    negative" is a strict total order: it is transitive, no array comes
    before itself, and of two different arrays one comes before the
    other. *)
Theorem byLexical_strict_total_order (a b c : list Z) :
  length a = length b -> length b = length c ->
  (isNegative (byLexical a b) = true -> isNegative (byLexical b c) = true ->
   isNegative (byLexical a c) = true)
  /\ isNegative (byLexical a a) = false
  /\ (a = b \/ isNegative (byLexical a b) = true
            \/ isNegative (byLexical b a) = true).
Proof.
  intros Hab Hbc. unfold byLexical. split; [|split].
  - now apply byLexical_loop_transitive.
  - destruct (isNegative (byLexical_loop a a DUndefined)) eqn:E; [|reflexivity].
    apply (byLexical_loop_negative a a DUndefined eq_refl eq_refl) in E.
    destruct E as (p & x & y & a' & b' & Ha & Hb & Hlt).
    rewrite Ha in Hb. apply app_inv_head in Hb. injection Hb as -> _. lia.
  - now apply byLexical_loop_trichotomy.
Qed.

(** Three edges given by their two nodes. *)
Lemma byLexical_strict_total_order_witness :
  (length [1; 2] = length [1; 3] /\ length [1; 3] = length [2; 0])
  /\ isNegative (byLexical [1; 2] [2; 0]) = true.
Proof.
  split; [split; reflexivity|].
  apply (proj1 (byLexical_strict_total_order [1; 2] [1; 3] [2; 0]
                                             eq_refl eq_refl));
    reflexivity.
Defined.

Lemma byLexical_loop_prefix (p : list Z) :
  forall (a b : list Z) (r : Difference),
    byLexical_loop (p ++ a) (p ++ b) r
    = byLexical_loop a b (match p with [] => r | _ => DNumber 0 end).
Proof.
  induction p as [|q p IH]; intros a b r; [reflexivity|].
  simpl. rewrite Z.sub_diag. simpl. rewrite IH. now destruct p.
Qed.

(** X14.  On arrays of different lengths [byLexical] is not a
    comparison: only the first [a.length] positions are read.  An empty
    [a] gives [undefined]; a non-empty [a] that is a prefix of [b] gives
    0, as if the two were equal; and when [b] is a proper prefix of [a]
    the result is [NaN], which is neither negative nor zero. *)
Theorem byLexical_on_prefixes (a rest : list Z) (x : Z) :
  byLexical [] a = DUndefined
  /\ (a <> [] -> byLexical a (a ++ rest) = DNumber 0)
  /\ byLexical (a ++ x :: rest) a = DNaN.
Proof.
  unfold byLexical. split; [reflexivity|]. split.
  - intros Hne.
    rewrite <- (app_nil_r a) at 1. rewrite byLexical_loop_prefix.
    now destruct a.
  - rewrite <- (app_nil_r a) at 2. now rewrite byLexical_loop_prefix.
Qed.

(** The edge [[1, 2]] compared with the triangle [[1, 2, 3]]. *)
Lemma byLexical_on_prefixes_witness :
  [1; 2] <> [] /\ byLexical [1; 2] ([1; 2] ++ [3]) = DNumber 0.
Proof.
  split; [discriminate|].
  apply (proj1 (proj2 (byLexical_on_prefixes [1; 2] [3] 0))). discriminate.
Defined.

(** *** Iterators *)

(** One step of the iterator of a list. *)
Lemma list_iterator_next {A : Type} (lst : list A) (i : nat) :
  next (list_iterator lst i) = (item_at lst i, list_iterator lst (S i)).
Proof. reflexivity. Qed.

Lemma list_iterator_hasNext {A : Type} (lst : list A) (i : nat) :
  hasNext (list_iterator lst i) = (i <? length lst)%nat.
Proof. reflexivity. Qed.

(** The loop of [listFromIterator] on the iterator of [pre ++ suf] that
    has already returned the entries of [pre]. *)
Lemma listFromIterator_loop_list {A : Type} (suf : list A) :
  forall (pre : list A) (fuel : nat) (out : list (Item A)),
    (length suf < fuel)%nat ->
    listFromIterator_loop fuel (list_iterator (pre ++ suf) (length pre)) out
    = Some (out ++ map Value suf,
            list_iterator (pre ++ suf) (length (pre ++ suf))).
Proof.
  induction suf as [|x suf IH]; intros pre fuel out Hfuel;
    (destruct fuel as [|fuel]; [simpl in Hfuel; lia|]).
  - cbn [listFromIterator_loop]. rewrite list_iterator_hasNext.
    rewrite app_nil_r, Nat.ltb_irrefl. simpl. now rewrite app_nil_r.
  - cbn [listFromIterator_loop].
    rewrite list_iterator_hasNext, list_iterator_next.
    assert (Hlt : (length pre <? length (pre ++ x :: suf))%nat = true).
    { apply Nat.ltb_lt. rewrite length_app. simpl. lia. }
    rewrite Hlt.
    assert (Hx : item_at (pre ++ x :: suf) (length pre) = Value x).
    { unfold item_at. rewrite nth_error_app2, Nat.sub_diag by lia.
      reflexivity. }
    rewrite Hx.
    replace (pre ++ x :: suf) with ((pre ++ [x]) ++ suf)
      by (now rewrite <- app_assoc).
    replace (S (length pre)) with (length (pre ++ [x]))
      by (rewrite length_app; simpl; lia).
    rewrite IH by (simpl in Hfuel; lia).
    simpl. now rewrite <- app_assoc.
Qed.

(** X15.  [listFromIterator(iteratorFromList(lst))] is a copy of [lst]:
    the loop ends after [lst.length + 1] tests of [hasNext()] and has
    collected the entries of [lst] in order. *)
Theorem listFromIterator_iteratorFromList {A : Type} (lst : list A)
    (fuel : nat) :
  (length lst < fuel)%nat ->
  exists iter iter',
    iteratorFromList (IsList lst) = Ok iter
    /\ listFromIterator fuel iter = Some (map Value lst, iter').
Proof.
  intros Hfuel. do 2 eexists. split; [reflexivity|].
  unfold listFromIterator.
  exact (listFromIterator_loop_list lst [] fuel [] Hfuel).
Qed.

(** The list [[7, 8, 9]] through an iterator and back. *)
Lemma listFromIterator_iteratorFromList_witness :
  (length [7; 8; 9] < 4)%nat
  /\ exists iter iter',
       iteratorFromList (IsList [7; 8; 9]) = Ok iter
       /\ listFromIterator 4 iter = Some ([Value 7; Value 8; Value 9], iter').
Proof.
  split; [simpl; lia|].
  apply (listFromIterator_iteratorFromList [7; 8; 9] 4). simpl. lia.
Defined.

(** X16.  The iterator of a list is single-pass: once [listFromIterator]
    has run over it, [hasNext()] is false, [next()] returns [undefined]
    and leaves [hasNext()] false, and a second [listFromIterator] over
    the same iterator returns the empty array. *)
Theorem iteratorFromList_single_pass {A : Type} (lst : list A)
    (fuel : nat) (iter iter' : Iterator A) (out : list (Item A)) :
  iteratorFromList (IsList lst) = Ok iter ->
  listFromIterator fuel iter = Some (out, iter') ->
  hasNext iter' = false
  /\ fst (next iter') = Undefined
  /\ hasNext (snd (next iter')) = false
  /\ listFromIterator fuel iter' = Some ([], iter').
Proof.
  intros Hiter Hrun. injection Hiter as <-.
  assert (Hfuel : (length lst < fuel)%nat).
  { destruct (Nat.lt_ge_cases (length lst) fuel) as [H|H]; [exact H|].
    exfalso. revert out iter' Hrun. unfold listFromIterator.
    change (list_iterator lst 0)
      with (list_iterator ([] ++ lst) (length (@nil A))).
    generalize (@nil (Item A)) as acc. generalize (@nil A) as pre.
    revert fuel H.
    induction lst as [|x lst IH]; intros [|fuel] H pre acc out iter';
      simpl in H; try lia; try discriminate.
    cbn [listFromIterator_loop].
    rewrite list_iterator_hasNext, list_iterator_next.
    assert (Hlt : (length pre <? length (pre ++ x :: lst))%nat = true).
    { apply Nat.ltb_lt. rewrite length_app. simpl. lia. }
    rewrite Hlt.
    replace (pre ++ x :: lst) with ((pre ++ [x]) ++ lst)
      by (now rewrite <- app_assoc).
    replace (S (length pre)) with (length (pre ++ [x]))
      by (rewrite length_app; simpl; lia).
    apply IH. lia. }
  unfold listFromIterator in *.
  pose proof (listFromIterator_loop_list lst [] fuel [] Hfuel) as Hloop.
  simpl in Hloop. rewrite Hloop in Hrun. injection Hrun as _ <-.
  split; [|split; [|split]].
  - rewrite list_iterator_hasNext. apply Nat.ltb_irrefl.
  - rewrite list_iterator_next. cbn [fst]. unfold item_at.
    now rewrite (proj2 (nth_error_None lst (length lst))) by lia.
  - rewrite list_iterator_next. cbn [snd]. rewrite list_iterator_hasNext.
    apply Nat.ltb_ge. lia.
  - destruct fuel as [|fuel]; [lia|]. cbn [listFromIterator_loop].
    rewrite list_iterator_hasNext, Nat.ltb_irrefl. reflexivity.
Qed.

(** The iterator of [[7, 8, 9]] after it has been read. *)
Lemma iteratorFromList_single_pass_witness :
  (iteratorFromList (IsList [7; 8; 9]) = Ok (list_iterator [7; 8; 9] 0)
   /\ listFromIterator 4 (list_iterator [7; 8; 9] 0)
      = Some ([Value 7; Value 8; Value 9], list_iterator [7; 8; 9] 3))
  /\ listFromIterator 4 (list_iterator [7; 8; 9] 3)
     = Some ([], list_iterator [7; 8; 9] 3).
Proof.
  split; [split; reflexivity|].
  apply (iteratorFromList_single_pass [7; 8; 9] 4 (list_iterator [7; 8; 9] 0)
           (list_iterator [7; 8; 9] 3) [Value 7; Value 8; Value 9]);
    reflexivity.
Defined.

(** *** uuid *)

Lemma toString16_digit (v : Z) :
  0 <= v < 16 ->
  exists h, toString16 v = String h EmptyString /\ isHexDigit h = true.
Proof.
  intros Hv.
  assert (H : v = 0 \/ v = 1 \/ v = 2 \/ v = 3 \/ v = 4 \/ v = 5 \/ v = 6
              \/ v = 7 \/ v = 8 \/ v = 9 \/ v = 10 \/ v = 11 \/ v = 12
              \/ v = 13 \/ v = 14 \/ v = 15) by lia.
  repeat (destruct H as [->|H]; [eexists; split; reflexivity|]).
  subst v. eexists; split; reflexivity.
Qed.

(** [r&0x3|0x8] is 8, 9, 10 or 11 for every integer [r]. *)
Lemma variant_bits (r : Z) :
  let v := Z.lor (Z.land r 3) 8 in v = 8 \/ v = 9 \/ v = 10 \/ v = 11.
Proof.
  intros v. unfold v. change 3 with (Z.ones 2).
  rewrite Z.land_ones by lia.
  pose proof (Z.mod_pos_bound r (2 ^ 2) ltac:(lia)) as Hb.
  change (2 ^ 2) with 4 in *.
  assert (H : r mod 4 = 0 \/ r mod 4 = 1 \/ r mod 4 = 2 \/ r mod 4 = 3) by lia.
  destruct H as [-> | [-> | [-> | ->]]]; auto.
Qed.

Lemma uuid_digit_x (r : Z) :
  0 <= r < 16 ->
  exists h, uuid_digit "x"%char r = String h EmptyString /\ isHexDigit h = true.
Proof. intros Hr. unfold uuid_digit. simpl. now apply toString16_digit. Qed.

Lemma uuid_digit_y (r : Z) :
  exists h, uuid_digit "y"%char r = String h EmptyString
            /\ (h = "8" \/ h = "9" \/ h = "a" \/ h = "b")%char.
Proof.
  unfold uuid_digit. simpl.
  destruct (variant_bits r) as [-> | [-> | [-> | ->]]];
    eexists; (split; [reflexivity|]); auto.
Qed.

(** What [replace] does to every character of a template. *)
Lemma replace_xy_shape (random : nat -> Z) (template : string) :
  (forall k, 0 <= random k < 16) ->
  forall k,
    String.length (replace_xy template random k) = String.length template
    /\ forall i c, String.get i template = Some c ->
         exists h, String.get i (replace_xy template random k) = Some h
           /\ (c = "x"%char -> isHexDigit h = true)
           /\ (c = "y"%char ->
               (h = "8" \/ h = "9" \/ h = "a" \/ h = "b")%char)
           /\ (c <> "x"%char -> c <> "y"%char -> h = c).
Proof.
  intros Hrandom.
  induction template as [|c0 rest IH]; intros k.
  - split; [reflexivity|]. intros i c Hc. now destruct i.
  - destruct (IH (S k)) as [HlenS HgetS]. destruct (IH k) as [Hlen Hget].
    cbn [replace_xy].
    destruct (Ascii.eqb_spec c0 "x"%char) as [->|Hx].
    + cbn [orb]. destruct (uuid_digit_x (random k) (Hrandom k)) as (h & -> & Hh).
      change (String h "" +:+ replace_xy rest random (S k))
        with (String h (replace_xy rest random (S k))).
      cbn. split; [now rewrite HlenS|].
      intros [|i] c Hc.
      * injection Hc as <-. exists h.
        split; [reflexivity|]. split; [auto|]. split; [discriminate|].
        intros H. now contradiction H.
      * now apply HgetS.
    + destruct (Ascii.eqb_spec c0 "y"%char) as [->|Hy].
      * cbn [orb]. destruct (uuid_digit_y (random k)) as (h & -> & Hh).
        change (String h "" +:+ replace_xy rest random (S k))
          with (String h (replace_xy rest random (S k))).
        cbn. split; [now rewrite HlenS|].
        intros [|i] c Hc.
        -- injection Hc as <-. exists h.
           split; [reflexivity|]. split; [discriminate|]. split; [auto|].
           intros _ H. now contradiction H.
        -- now apply HgetS.
      * cbn [orb]. cbn. split; [now rewrite Hlen|].
        intros [|i] c Hc.
        -- injection Hc as <-. exists c0.
           split; [reflexivity|]. split; [intros; contradiction|].
           split; [intros; contradiction | reflexivity].
        -- now apply Hget.
Qed.

(** X17.  Whatever [Math.random()] returns, [uuid()] has the shape of a
    version-4 identifier: it has the 36 characters of the template
    [xxxxxxxx-xxxx-4xxx-yxxx-xxxxxxxxxxxx], with the hyphens and the [4]
    in place, one lower-case hexadecimal digit for every [x], and one of
    [8], [9], [a], [b] for the [y].  [random k] is the integer
    [Math.random()*16|0] of call number [k], between 0 and 15. *)
Theorem uuid_version4_shape (random : nat -> Z) :
  (forall k, 0 <= random k < 16) ->
  String.length (uuid random) = 36%nat
  /\ forall i c,
       String.get i "xxxxxxxx-xxxx-4xxx-yxxx-xxxxxxxxxxxx" = Some c ->
       exists h, String.get i (uuid random) = Some h
         /\ (c = "x"%char -> isHexDigit h = true)
         /\ (c = "y"%char -> (h = "8" \/ h = "9" \/ h = "a" \/ h = "b")%char)
         /\ (c <> "x"%char -> c <> "y"%char -> h = c).
Proof.
  intros Hrandom. unfold uuid.
  exact (replace_xy_shape random _ Hrandom 0%nat).
Qed.

(** The identifier made when every call of [Math.random()] gives a
    number between 0.3125 and 0.375, so that every digit is 5. *)
Lemma uuid_version4_shape_witness :
  (forall k : nat, 0 <= 5 < 16)
  /\ String.length (uuid (fun _ => 5)) = 36%nat.
Proof.
  split; [intros _; lia|].
  apply (uuid_version4_shape (fun _ => 5)). intros _. lia.
Defined.

Example uuid_all_fives :
  uuid (fun _ => 5) = "55555555-5555-4555-9555-555555555555".
Proof. reflexivity. Qed.

End CoreUtilsFacts.

(** ** gcellset.js: dispatch by target dimension, element-type chain,
    selection and copies *)

Module GCellSetOpsFacts.
Import JS Numeric GCell GCellSetOps.

(** *** jacobianInDim *)

Section DispatchFacts.
Context `{Library}.

(** X18.  [jacobianInDim] of a cell set of manifold dimension [m]
    supports exactly the target dimensions from [max(1, m)] to 3: for
    such a [dim] it is the curve (1), surface (2) or volume (3) Jacobian
    of the class, and for every other integer it throws the error of
    the class that names [dim].  For L2, Q4 and H8 the target [m] gives
    [jacobian]; for P1, [jacobian] is 1 while the target 0 is refused. *)
Theorem jacobianInDim_supported_dimensions (g : GCellSet) (conn : list Z)
    (N J x : Matrix) (d : Z) :
  (Z.max 1 (dim (variant g)) <= d <= 3 ->
   jacobianInDim g conn N J x d = jacobianNamed g conn N J x d)
  /\ (d < Z.max 1 (dim (variant g)) \/ 3 < d ->
      jacobianInDim g conn N J x d
      = Throw (jacobianInDim_error (variant g) d))
  /\ (1 <= dim (variant g) ->
      jacobianInDim g conn N J x (dim (variant g)) = jacobian g conn N J x)
  /\ (variant g = P1 ->
      jacobian g conn N J x = Ok 1%float
      /\ jacobianInDim g conn N J x 0
         = Throw "GCellSetManifold0::jacobianInDim(): wrong dimension 0").
Proof.
  unfold jacobianInDim, jacobianNamed, jacobian, jacobianInDim_error.
  split; [|split; [|split]].
  - intros Hd.
    assert (Hc : d = 1 \/ d = 2 \/ d = 3) by lia.
    destruct (variant g); simpl in Hd;
      destruct Hc as [-> | [-> | ->]]; try lia; reflexivity.
  - intros Hd.
    destruct (variant g); simpl in Hd;
      unfold Manifold0_jacobianInDim, Manifold1_jacobianInDim,
        Manifold2_jacobianInDim, Manifold3_jacobianInDim;
      repeat match goal with
             | |- context [?a =? ?b] =>
                 destruct (Z.eqb_spec a b); [lia|]
             end; reflexivity.
  - intros Hm. destruct (variant g); simpl in Hm; try lia; reflexivity.
  - intros ->. split; reflexivity.
Qed.

End DispatchFacts.

(** The thick L2 cell set of the examples: the targets 1, 2, 3 are
    supported, the target 0 is not. *)
Lemma jacobianInDim_supported_dimensions_witness :
  (Z.max 1 (dim (variant Examples.thickL2)) <= 1 <= 3
   /\ 0 < Z.max 1 (dim (variant Examples.thickL2)))
  /\ @jacobianInDim reference Examples.thickL2 [0; 1] Examples.centreN2
       Examples.tangentJ Examples.segmentX 1
     = @Manifold1.jacobianCurve reference Examples.thickL2 [0; 1]
         Examples.centreN2 Examples.tangentJ Examples.segmentX
  /\ @jacobianInDim reference Examples.thickL2 [0; 1] Examples.centreN2
       Examples.tangentJ Examples.segmentX 0
     = Throw "GCellSetManifold1::jacobianInDim(): wrong dimension 0".
Proof.
  split; [simpl; lia|]. split.
  - apply (proj1 (@jacobianInDim_supported_dimensions reference
                    Examples.thickL2 [0; 1] Examples.centreN2
                    Examples.tangentJ Examples.segmentX 1)).
    simpl. lia.
  - apply (proj1 (proj2 (@jacobianInDim_supported_dimensions reference
                    Examples.thickL2 [0; 1] Examples.centreN2
                    Examples.tangentJ Examples.segmentX 0))).
    simpl. lia.
Defined.

(** *** The chain of element types *)

(** The boundary type of L2, Q4 and H8 is the type one manifold
    dimension lower with half as many nodes per cell, and
    [boundaryCellType()] is its name; P1 has no boundary type, and its
    [boundaryCellType()] throws. *)
Theorem boundary_type_one_dimension_lower (t : CellType) :
  (t <> P1 ->
   exists C, boundaryGCellSetConstructor t = Some C
     /\ dim C = dim t - 1
     /\ 2 * cellSize C = cellSize t
     /\ boundaryCellType t = Ok (type C))
  /\ (t = P1 ->
      boundaryGCellSetConstructor t = None
      /\ exists msg, boundaryCellType t = Throw msg).
Proof.
  split.
  - intros Hne. destruct t; [congruence| | |];
      eexists; repeat split; reflexivity.
  - intros ->. split; [reflexivity|]. eexists. reflexivity.
Qed.

(** The boundary type of Q4 is L2. *)
Lemma boundary_type_one_dimension_lower_witness :
  Q4 <> P1 /\ exists C, boundaryGCellSetConstructor Q4 = Some C
                        /\ dim C = dim Q4 - 1.
Proof.
  split; [discriminate|].
  destruct (proj1 (boundary_type_one_dimension_lower Q4) ltac:(discriminate))
    as (C & HC & Hdim & _).
  exists C. split; [exact HC | exact Hdim].
Defined.

Section ChainFacts.
Context `{FamilyTable}.

(** X20.  When the family of the topology lists the element types
    [P1, L2, Q4, H8], the extruded type of a P1, L2 or Q4 cell set is the
    next type of the list, one manifold dimension higher and with twice
    as many nodes per cell, and its boundary type is the type of the
    cell set again; for an H8 cell set [extrudedGCellSetConstructor]
    throws.  When the family does not list the type of the cell set it
    throws too. *)
Theorem extruded_type_next_in_chain (g : GCellSet) (cellTypes : list string) :
  cellTypesOf (getFamilyType (_topology g)) = Some cellTypes ->
  (cellTypes = ["P1"; "L2"; "Q4"; "H8"] -> variant g <> H8 ->
   exists C, extrudedGCellSetConstructor g = Ok (Some C)
     /\ dim C = dim (variant g) + 1
     /\ cellSize C = 2 * cellSize (variant g)
     /\ boundaryGCellSetConstructor C = Some (variant g))
  /\ (cellTypes = ["P1"; "L2"; "Q4"; "H8"] -> variant g = H8 ->
      extrudedGCellSetConstructor g
      = Throw "GCellSet::extrudedGCellSetConstructor(): unknow extruded type for H8")
  /\ (~ In (type (variant g)) cellTypes ->
      extrudedGCellSetConstructor g
      = Throw ("GCellSet::extrudedGCellSetConstructor(): unknow type "
                 +:+ type (variant g))).
Proof.
  intros Htable. unfold extrudedGCellSetConstructor. rewrite Htable.
  split; [|split].
  - intros -> Hne. destruct (variant g); [| | |congruence];
      eexists; repeat split; reflexivity.
  - intros -> ->. reflexivity.
  - intros Hnot.
    assert (Hidx : indexOf cellTypes (type (variant g)) = -1).
    { clear Htable. induction cellTypes as [|s rest IH]; [reflexivity|].
      simpl. destruct (String.eqb_spec s (type (variant g))) as [E|E].
      - exfalso. apply Hnot. now left.
      - rewrite IH by (intros Hin; apply Hnot; now right). reflexivity. }
    now rewrite Hidx.
Qed.

End ChainFacts.

(** The Q4 cell set of the examples: its extruded type is H8. *)
Lemma extruded_type_next_in_chain_witness :
  (@cellTypesOf MoreExamples.exampleFamilies
     (getFamilyType (_topology Examples.axisymmetricQ4))
   = Some ["P1"; "L2"; "Q4"; "H8"]
   /\ variant Examples.axisymmetricQ4 <> H8)
  /\ exists C,
       @extrudedGCellSetConstructor MoreExamples.exampleFamilies
         Examples.axisymmetricQ4 = Ok (Some C)
       /\ boundaryGCellSetConstructor C = Some Q4.
Proof.
  split; [split; [reflexivity | discriminate]|].
  destruct (proj1 (@extruded_type_next_in_chain MoreExamples.exampleFamilies
                     Examples.axisymmetricQ4 ["P1"; "L2"; "Q4"; "H8"] eq_refl)
                  eq_refl ltac:(discriminate))
    as (C & HC & _ & _ & Hb).
  exists C. split; [exact HC | exact Hb].
Defined.

(** *** boxSelect and subset *)

Section SelectionFacts.
Context `{Collaborators} `{Feutils}.

(** The indices the loop of [boxSelect] pushes, for cells numbered from
    [k] on. *)
Lemma selected_from_In (test : list Z -> bool) (conn : list (list Z)) :
  forall (k : nat) (idx : Z),
    In idx (flat_map (fun ci : list Z * nat =>
                        let '(cell, i) := ci in
                        if test cell then [Z.of_nat i] else [])
                     (combine conn (seq k (length conn))))
    <-> exists i cell, idx = Z.of_nat (k + i)
                       /\ nth_error conn i = Some cell /\ test cell = true.
Proof.
  induction conn as [|c conn IH]; intros k idx; simpl.
  - split; [tauto|]. intros (i & cell & _ & Hnth & _). now destruct i.
  - rewrite in_app_iff, IH. split.
    + intros [Hin | (i & cell & -> & Hnth & Ht)].
      * destruct (test c) eqn:Ec; [|contradiction].
        destruct Hin as [<-|[]]. exists 0%nat, c.
        repeat split; [f_equal; lia | exact Ec].
      * exists (S i), cell. repeat split; [f_equal; lia | exact Hnth | exact Ht].
    + intros (i & cell & -> & Hnth & Ht). destruct i as [|i]; simpl in Hnth.
      * injection Hnth as ->. left. rewrite Ht. left. f_equal. lia.
      * right. exists i, cell. repeat split; [f_equal; lia | exact Hnth | exact Ht].
Qed.

Lemma selected_from_sorted (test : list Z -> bool) (conn : list (list Z)) :
  forall k : nat,
    Sorted.StronglySorted Z.lt
      (flat_map (fun ci : list Z * nat =>
                   let '(cell, i) := ci in
                   if test cell then [Z.of_nat i] else [])
                (combine conn (seq k (length conn)))).
Proof.
  induction conn as [|c conn IH]; intros k; simpl;
    [apply Sorted.SSorted_nil|].
  destruct (test c); simpl; [|apply IH].
  apply Sorted.SSorted_cons; [apply IH|].
  apply List.Forall_forall. intros idx Hin.
  apply selected_from_In in Hin. destruct Hin as (i & _ & -> & _). lia.
Qed.

Lemma selected_In (test : list Z -> bool) (conn : list (list Z)) (idx : Z) :
  In idx (selected test conn)
  <-> 0 <= idx /\ exists cell, nth_error conn (Z.to_nat idx) = Some cell
                               /\ test cell = true.
Proof.
  unfold selected. rewrite selected_from_In. split.
  - intros (i & cell & -> & Hnth & Ht). split; [lia|].
    exists cell. now rewrite Nat2Z.id.
  - intros (Hidx & cell & Hnth & Ht).
    exists (Z.to_nat idx), cell. repeat split; [lia | exact Hnth | exact Ht].
Qed.

(** The test [boxSelect] applies to a cell. *)
Lemma boxSelect_ok (g : GCellSet) (xyzAt : Z -> Vector) (b : Vector)
    (inflate : option float) (any : option bool) :
  boxSelect g (IsFeNodeSet xyzAt)
            (Some (mkBoxSelectOption (Some b) inflate any))
  = Ok (selected
          (fun cell =>
             if default false any
             then anyNodesInBox xyzAt cell (inflated b inflate)
             else allNodesInBox xyzAt cell (inflated b inflate))
          (conn g)).
Proof.
  unfold boxSelect. destruct any as [[|]|]; reflexivity.
Qed.

(** X21.  [boxSelect] returns the indices of the cells of [conn()] that
    pass the test, each once and in increasing order: a cell passes when
    all of its nodes are inside the (inflated) box, or, with the option
    [any], when at least one is.  It throws when [fens] is no FeNodeSet,
    when [options] is no object and when [options.bounds] is no
    array. *)
Theorem boxSelect_selects (g : GCellSet) (xyzAt : Z -> Vector) (b : Vector)
    (inflate : option float) (any : option bool)
    (options : option boxSelectOption) :
  (exists res,
     boxSelect g (IsFeNodeSet xyzAt)
               (Some (mkBoxSelectOption (Some b) inflate any)) = Ok res
     /\ Sorted.StronglySorted Z.lt res
     /\ forall idx,
          In idx res <->
          0 <= idx
          /\ exists cell,
               nth_error (conn g) (Z.to_nat idx) = Some cell
               /\ (if default false any
                   then anyNodesInBox xyzAt cell (inflated b inflate)
                   else allNodesInBox xyzAt cell (inflated b inflate))
                  = true)
  /\ (exists msg, boxSelect g NotFeNodeSet options = Throw msg)
  /\ (exists msg, boxSelect g (IsFeNodeSet xyzAt) None = Throw msg)
  /\ (exists msg,
        boxSelect g (IsFeNodeSet xyzAt)
                  (Some (mkBoxSelectOption None inflate any)) = Throw msg).
Proof.
  split; [|split; [|split]]; try (eexists; reflexivity).
  eexists. split; [apply boxSelect_ok|]. split.
  - apply selected_from_sorted.
  - intros idx. apply selected_In.
Qed.

(** X22.  With the same box, every cell that [boxSelect] selects without
    the option [any] is also selected with it, provided no cell of the
    connectivity is empty (an empty cell has all of its nodes inside
    every box, and none). *)
Theorem boxSelect_all_within_any (g : GCellSet) (xyzAt : Z -> Vector)
    (b : Vector) (inflate : option float) (res_all res_any : list Z) :
  Forall (fun cell => cell <> []) (conn g) ->
  boxSelect g (IsFeNodeSet xyzAt)
            (Some (mkBoxSelectOption (Some b) inflate (Some false)))
  = Ok res_all ->
  boxSelect g (IsFeNodeSet xyzAt)
            (Some (mkBoxSelectOption (Some b) inflate (Some true)))
  = Ok res_any ->
  forall idx, In idx res_all -> In idx res_any.
Proof.
  intros Hne Hall Hany idx.
  rewrite boxSelect_ok in Hall, Hany.
  injection Hall as <-. injection Hany as <-.
  rewrite !selected_In. cbn [default].
  intros (Hidx & cell & Hnth & Ht). split; [exact Hidx|].
  exists cell. split; [exact Hnth|].
  rewrite List.Forall_forall in Hne.
  specialize (Hne cell (nth_error_In _ _ Hnth)).
  destruct cell as [|n cell]; [congruence|].
  unfold allNodesInBox in Ht. unfold anyNodesInBox.
  simpl in *. apply andb_true_iff in Ht. destruct Ht as [-> _]. reflexivity.
Qed.

(** Selecting from [subset]'s point of view: the cells at the selected
    indices. *)
Lemma subset_selected_from (test : list Z -> bool) (conn : list (list Z)) :
  forall pre : list (list Z),
    map (fun idx => if idx <? 0 then None
                    else nth_error (pre ++ conn) (Z.to_nat idx))
        (flat_map (fun ci : list Z * nat =>
                     let '(cell, i) := ci in
                     if test cell then [Z.of_nat i] else [])
                  (combine conn (seq (length pre) (length conn))))
    = map Some (List.filter test conn).
Proof.
  induction conn as [|c conn IH]; intros pre; simpl; [reflexivity|].
  rewrite map_app.
  replace (pre ++ c :: conn) with ((pre ++ [c]) ++ conn)
    by (now rewrite <- app_assoc).
  replace (S (length pre)) with (length (pre ++ [c]))
    by (rewrite length_app; simpl; lia).
  rewrite IH.
  destruct (test c); simpl; [|reflexivity].
  f_equal.
  destruct (Z.ltb_spec (Z.of_nat (length pre)) 0) as [Hneg|_]; [lia|].
  rewrite Nat2Z.id, <- app_assoc. simpl.
  now rewrite nth_error_app2, Nat.sub_diag by lia.
Qed.

(** X23.  [subset(conn(), boxSelect(fens, options))] is the list of the
    cells of [conn()] that pass the test of [boxSelect], in their order:
    no entry is [undefined], no cell is repeated or moved. *)
Theorem subset_of_boxSelect (g : GCellSet) (xyzAt : Z -> Vector) (b : Vector)
    (inflate : option float) (any : option bool) (res : list Z) :
  boxSelect g (IsFeNodeSet xyzAt)
            (Some (mkBoxSelectOption (Some b) inflate any)) = Ok res ->
  subset (conn g) res
  = map Some
        (List.filter
           (fun cell =>
              if default false any
              then anyNodesInBox xyzAt cell (inflated b inflate)
              else allNodesInBox xyzAt cell (inflated b inflate))
           (conn g)).
Proof.
  rewrite boxSelect_ok. intros Hres. injection Hres as <-.
  unfold subset, selected.
  exact (subset_selected_from _ (conn g) []).
Qed.

End SelectionFacts.

(** Two squares side by side and the box of the left one: the left
    square has all nodes inside, the right square only two. *)
Lemma boxSelect_all_within_any_witness :
  (Forall (fun cell => cell <> []) (conn MoreExamples.twoQuads)
   /\ @boxSelect Examples.exampleCollaborators MoreExamples.exampleFeutils
        MoreExamples.twoQuads (IsFeNodeSet MoreExamples.twoQuadsXyz)
        (Some (mkBoxSelectOption (Some MoreExamples.unitBox) None (Some false)))
      = Ok [0]
   /\ @boxSelect Examples.exampleCollaborators MoreExamples.exampleFeutils
        MoreExamples.twoQuads (IsFeNodeSet MoreExamples.twoQuadsXyz)
        (Some (mkBoxSelectOption (Some MoreExamples.unitBox) None (Some true)))
      = Ok [0; 1])
  /\ In 0 [0; 1].
Proof.
  assert (Hne : Forall (fun cell : list Z => cell <> [])
                       (conn MoreExamples.twoQuads))
    by (repeat constructor; discriminate).
  split; [split; [exact Hne | split; reflexivity]|].
  apply (@boxSelect_all_within_any Examples.exampleCollaborators
           MoreExamples.exampleFeutils MoreExamples.twoQuads
           MoreExamples.twoQuadsXyz MoreExamples.unitBox None [0] [0; 1]
           Hne eq_refl eq_refl).
  now left.
Defined.

(** The subset of the two squares selected by the box of the left one. *)
Lemma subset_of_boxSelect_witness :
  @boxSelect Examples.exampleCollaborators MoreExamples.exampleFeutils
    MoreExamples.twoQuads (IsFeNodeSet MoreExamples.twoQuadsXyz)
    (Some (mkBoxSelectOption (Some MoreExamples.unitBox) None None))
  = Ok [0]
  /\ subset (conn MoreExamples.twoQuads) [0] = [Some [0; 1; 4; 3]].
Proof.
  split; [reflexivity|].
  exact (@subset_of_boxSelect Examples.exampleCollaborators
           MoreExamples.exampleFeutils MoreExamples.twoQuads
           MoreExamples.twoQuadsXyz MoreExamples.unitBox None None [0]
           eq_refl).
Defined.

(** *** clone *)

Section CloneFacts.
Context `{Collaborators}.

(** What the constructor guarantees about the object it returns. *)
Lemma GCellSet_init_ok (t : CellType) (uuid : string) (o : Options)
    (g : GCellSet) :
  GCellSet_init t uuid o = Ok g ->
  variant g = t
  /\ getCellSizeInDim (_topology g) (getDim (_topology g)) = cellSize t
  /\ getDim (_topology g) = dim t
  /\ match _otherDimension g with
     | ODNumber v => isNumber v = true \/ v = 1%float
     | ODFunction _ => True
     end.
Proof.
  unfold GCellSet_init.
  destruct (opt_topology o) as [[topology|]|]; try discriminate.
  destruct (Z.eqb_spec (getCellSizeInDim topology (getDim topology))
                       (cellSize t)) as [Hsize|_]; [|discriminate].
  destruct (Z.eqb_spec (getDim topology) (dim t)) as [Hdim|_]; [|discriminate].
  cbn [negb]. intros Hg. injection Hg as <-. cbn.
  repeat split; try assumption.
  destruct (opt_otherDimension o) as [v|f|]; [|exact I|now right].
  destruct (isNumber v) eqn:E; [now left | now right].
Qed.

Lemma construct_ok (t : CellType) (uuid : string) (o : option Options)
    (g : GCellSet) :
  construct t uuid o = Ok g ->
  variant g = t
  /\ getCellSizeInDim (_topology g) (getDim (_topology g)) = cellSize t
  /\ getDim (_topology g) = dim t
  /\ match _otherDimension g with
     | ODNumber v => isNumber v = true \/ v = 1%float
     | ODFunction _ => True
     end.
Proof.
  unfold construct. destruct o as [o|]; [|discriminate].
  destruct (opt_conn o) as [c|].
  - destruct (hypercube c (dim t)) as [topology|msg]; [|discriminate].
    cbn [bind]. apply GCellSet_init_ok.
  - destruct (opt_topology o); [|discriminate]. apply GCellSet_init_ok.
Qed.

Lemma Topology_clone_same (t : Topology) : Topology_clone t = t.
Proof. now destruct t. Qed.

(** [equals] between two objects that agree in everything but [_id]. *)
Lemma equals_same_fields (g g' : GCellSet) :
  variant g' = variant g -> _axisSymm g' = _axisSymm g ->
  _otherDimension g' = _otherDimension g -> _topology g' = _topology g ->
  equals g' (VGCellSet g)
  = strictEquals (otherDimension g None None None)
                 (otherDimension g None None None).
Proof.
  intros Hv Ha Ho Ht. unfold equals, axisSymm, otherDimension.
  rewrite Hv, Ha, Ho, Ht.
  rewrite String.eqb_refl, Z.eqb_refl, eqb_reflx. cbn [negb orb].
  unfold topology_equals. rewrite bool_decide_eq_true_2 by reflexivity.
  cbn [negb]. now destruct (strictEquals _ _).
Qed.

(** X24.  [clone()] of a cell set that a constructor returned succeeds:
    the copy has the same type, axisymmetry flag, other dimension and
    topology, and a new id.  The copy [equals] the original exactly when
    [otherDimension()], called without arguments, returns a number
    other than [NaN]. *)
Theorem clone_equals_original (t : CellType) (uuid uuid' : string)
    (options : option Options) (g : GCellSet) :
  construct t uuid options = Ok g ->
  exists g',
    clone uuid' g = Ok g'
    /\ g' = mkGCellSet (variant g) (_axisSymm g) (_otherDimension g) uuid'
                       (_topology g)
    /\ equals g' (VGCellSet g)
       = strictEquals (otherDimension g None None None)
                      (otherDimension g None None None)
    /\ equals g (VGCellSet g')
       = strictEquals (otherDimension g None None None)
                      (otherDimension g None None None).
Proof.
  intros Hg. destruct (construct_ok t uuid options g Hg)
    as (Hv & Hsize & Hdim & Hod).
  eexists. split; [|split; [reflexivity|split]].
  - unfold clone, construct. cbn [opt_conn opt_topology].
    unfold GCellSet_init. cbn [opt_topology opt_otherDimension opt_axisSymm].
    rewrite Topology_clone_same, Hv.
    apply Z.eqb_eq in Hsize, Hdim. rewrite Hsize, Hdim. cbn [negb].
    do 2 f_equal.
    destruct (_otherDimension g) as [v|f]; cbn [asArgument]; [|reflexivity].
    destruct Hod as [-> | ->]; [reflexivity|].
    now destruct (isNumber 1%float).
  - now apply equals_same_fields.
  - set (g' := mkGCellSet _ _ _ _ _).
    rewrite (equals_same_fields g' g) by reflexivity.
    reflexivity.
Qed.

End CloneFacts.

(** A Q4 cell set of thickness 2 built from the topology of one quad,
    and its clone. *)
Lemma clone_equals_original_witness :
  @construct Examples.exampleCollaborators Q4 "id-1"
    (Some (mkOptions None (Some (IsTopology Examples.topologyQ4))
                     (ArgNumber 2%float) None))
  = Ok (mkGCellSet Q4 false (ODNumber 2%float) "id-1" Examples.topologyQ4)
  /\ exists g',
       @clone Examples.exampleCollaborators "id-2"
         (mkGCellSet Q4 false (ODNumber 2%float) "id-1" Examples.topologyQ4)
       = Ok g'
       /\ equals g' (VGCellSet (mkGCellSet Q4 false (ODNumber 2%float) "id-1"
                                           Examples.topologyQ4)) = true.
Proof.
  split; [reflexivity|].
  destruct (@clone_equals_original Examples.exampleCollaborators Q4
              "id-1" "id-2"
              (Some (mkOptions None (Some (IsTopology Examples.topologyQ4))
                               (ArgNumber 2%float) None))
              (mkGCellSet Q4 false (ODNumber 2%float) "id-1"
                          Examples.topologyQ4) eq_refl)
    as (g' & Hclone & _ & Hequals & _).
  exists g'. split; [exact Hclone|]. rewrite Hequals. reflexivity.
Defined.

(** *** triangles *)

Lemma flat_map_length_uniform {A B : Type} (f : A -> list B) (k : nat)
    (l : list A) :
  Forall (fun a => length (f a) = k) l ->
  length (flat_map f l) = (k * length l)%nat.
Proof.
  induction 1 as [|a l Ha _ IH]; simpl; [lia|].
  rewrite length_app, Ha, IH. lia.
Qed.

Lemma cell_of_four (cell : list Z) :
  length cell = 4%nat -> exists a b c d, cell = [a; b; c; d].
Proof.
  destruct cell as [|a [|b [|c [|d [|e cell]]]]]; try discriminate.
  intros _. now exists a, b, c, d.
Qed.

Lemma cell_of_eight (cell : list Z) :
  length cell = 8%nat ->
  exists b0 b1 b2 b3 b4 b5 b6 b7, cell = [b0; b1; b2; b3; b4; b5; b6; b7].
Proof.
  destruct cell as [|b0 [|b1 [|b2 [|b3 [|b4 [|b5 [|b6 [|b7 [|b8 cell]]]]]]]]];
    try discriminate.
  intros _. now exists b0, b1, b2, b3, b4, b5, b6, b7.
Qed.

(** A triangle made of three different nodes of a cell. *)
Ltac corners a b c :=
  exists a, b, c; split; [reflexivity|];
  split; [simpl; auto 10|]; split; [simpl; auto 10|];
  split; [simpl; auto 10|];
  intros Hnodup;
  repeat match goal with
         | H : NoDup (_ :: _) |- _ => inversion_clear H
         end;
  repeat split; intros Heq; subst; unfold not in *;
  match goal with
  | H : _ ∈ _ -> False |- _ => solve [apply H; repeat constructor]
  end.

Lemma Q4_triangles_of_corners (quad : list Z) (tri : list (option Z)) :
  length quad = 4%nat -> In tri (Q4_triangles_of quad) ->
  exists a b c, tri = [Some a; Some b; Some c]
                /\ In a quad /\ In b quad /\ In c quad
                /\ (NoDup quad -> a <> b /\ b <> c /\ a <> c).
Proof.
  intros Hlen Hin.
  destruct (cell_of_four quad Hlen) as (q0 & q1 & q2 & q3 & ->).
  simpl in Hin. destruct Hin as [<- | [<- | []]].
  - corners q0 q1 q2.
  - corners q2 q3 q0.
Qed.

Lemma H8_triangles_of_corners (brick : list Z) (tri : list (option Z)) :
  length brick = 8%nat -> In tri (H8_triangles_of brick) ->
  exists a b c, tri = [Some a; Some b; Some c]
                /\ In a brick /\ In b brick /\ In c brick
                /\ (NoDup brick -> a <> b /\ b <> c /\ a <> c).
Proof.
  intros Hlen Hin.
  destruct (cell_of_eight brick Hlen)
    as (b0 & b1 & b2 & b3 & b4 & b5 & b6 & b7 & ->).
  simpl in Hin.
  destruct Hin as [<- | [<- | [<- | [<- | [<- | [<- | [<- | [<- | [<- |
                  [<- | [<- | [<- | []]]]]]]]]]]]].
  - corners b0 b3 b1.
  - corners b1 b3 b2.
  - corners b0 b1 b4.
  - corners b1 b5 b4.
  - corners b1 b2 b5.
  - corners b6 b5 b2.
  - corners b2 b3 b7.
  - corners b7 b6 b2.
  - corners b0 b4 b7.
  - corners b4 b7 b3.
  - corners b4 b5 b6.
  - corners b6 b7 b4.
Qed.

(** X19.  For a Q4 or H8 cell set whose cells all have [cellSize()]
    nodes, [triangles()] returns 2 triangles for every quad and 12 for
    every brick; each triangle has three entries, none of them
    [undefined], which are nodes of one cell of the set, and three
    different nodes when the nodes of that cell are different.  For a P1
    or L2 cell set it returns the empty array. *)
Theorem triangles_of_cells (g : GCellSet) :
  let cells := getCellsInDim (_topology g) (dim (variant g)) in
  (variant g = Q4 \/ variant g = H8 ->
   Forall (fun cell => Z.of_nat (length cell) = cellSize (variant g)) cells ->
   Z.of_nat (length (triangles g))
   = trianglesPerCell (variant g) * Z.of_nat (length cells)
   /\ forall tri, In tri (triangles g) ->
        exists cell a b c,
          In cell cells /\ tri = [Some a; Some b; Some c]
          /\ In a cell /\ In b cell /\ In c cell
          /\ (NoDup cell -> a <> b /\ b <> c /\ a <> c))
  /\ (variant g = P1 \/ variant g = L2 -> triangles g = []).
Proof.
  intros cells. unfold triangles. split.
  - intros Hv Hall. subst cells.
    destruct Hv as [Hv|Hv]; rewrite Hv in *; cbn [dim cellSize] in *.
    + assert (Hlen : Forall (fun cell : list Z => length cell = 4%nat)
                            (getCellsInDim (_topology g) 2)).
      { eapply List.Forall_impl; [|exact Hall]. simpl. intros cell Hc. lia. }
      split.
      * rewrite (flat_map_length_uniform Q4_triangles_of 2).
        -- cbn [trianglesPerCell]. lia.
        -- eapply List.Forall_impl; [|exact Hlen]. reflexivity.
      * intros tri Hin. apply in_flat_map in Hin.
        destruct Hin as (cell & Hcell & Htri).
        rewrite List.Forall_forall in Hlen.
        destruct (Q4_triangles_of_corners cell tri (Hlen cell Hcell) Htri)
          as (a & b & c & H1).
        now exists cell, a, b, c.
    + assert (Hlen : Forall (fun cell : list Z => length cell = 8%nat)
                            (getCellsInDim (_topology g) 3)).
      { eapply List.Forall_impl; [|exact Hall]. simpl. intros cell Hc. lia. }
      split.
      * rewrite (flat_map_length_uniform H8_triangles_of 12).
        -- cbn [trianglesPerCell]. lia.
        -- eapply List.Forall_impl; [|exact Hlen]. reflexivity.
      * intros tri Hin. apply in_flat_map in Hin.
        destruct Hin as (cell & Hcell & Htri).
        rewrite List.Forall_forall in Hlen.
        destruct (H8_triangles_of_corners cell tri (Hlen cell Hcell) Htri)
          as (a & b & c & H1).
        now exists cell, a, b, c.
  - now intros [-> | ->].
Qed.

(** The two squares side by side give four triangles. *)
Lemma triangles_of_cells_witness :
  (variant MoreExamples.twoQuads = Q4
   /\ Forall (fun cell => Z.of_nat (length cell)
                          = cellSize (variant MoreExamples.twoQuads))
             (getCellsInDim (_topology MoreExamples.twoQuads)
                            (dim (variant MoreExamples.twoQuads))))
  /\ Z.of_nat (length (triangles MoreExamples.twoQuads)) = 2 * 2.
Proof.
  assert (Hall : Forall (fun cell => Z.of_nat (length cell)
                          = cellSize (variant MoreExamples.twoQuads))
             (getCellsInDim (_topology MoreExamples.twoQuads)
                            (dim (variant MoreExamples.twoQuads))))
    by (repeat constructor).
  split; [split; [reflexivity | exact Hall]|].
  exact (proj1 (proj1 (triangles_of_cells MoreExamples.twoQuads)
                      (or_introl eq_refl) Hall)).
Defined.

End GCellSetOpsFacts.

(** ** core.utils.js: contracts on vectors and matrices *)

Module ContractsFacts.
Import JS Contracts.

Section WithCheckTypes.
Context `{CheckTypes}.

Lemma assert_number_returned (v : JSValue) (message : string) :
  returned (assert_number v message) = isNumberValue v.
Proof.
  destruct v as [x| |]; simpl; [|reflexivity|reflexivity].
  now destruct (check_number x).
Qed.

Lemma vector_entries_returned (entries : list JSValue) :
  forall i, returned (vector_entries i entries)
            = forallb isNumberValue entries.
Proof.
  induction entries as [|e rest IH]; intros i; [reflexivity|].
  cbn [vector_entries forallb].
  rewrite <- assert_number_returned with (message :=
    "vec(" +:+ pretty i +:+ "): " +:+ toString e +:+ " is not a number.").
  destruct (assert_number e _); simpl; [apply IH | reflexivity].
Qed.

Lemma matrix_entries_returned (entries : list JSValue) :
  forall i j, returned (matrix_entries i j entries)
              = forallb isNumberValue entries.
Proof.
  induction entries as [|e rest IH]; intros i j; [reflexivity|].
  cbn [matrix_entries forallb].
  rewrite <- assert_number_returned with (message :=
    "mat(" +:+ pretty i +:+ "," +:+ pretty j +:+ ") is not a number.").
  destruct (assert_number e _); simpl; [apply IH | reflexivity].
Qed.

Lemma call_returned {S A : Type} (c : S -> A -> Result unit * S)
    (state : S) (whatsWrong : string) (arg : A) :
  returned (fst (call c (Checking state whatsWrong) arg))
  = returned (fst (c state arg)).
Proof.
  unfold call. destruct (c state arg) as [[u|message] state']; reflexivity.
Qed.

Lemma lengthIs_pinned (len : nat) (d : Dimension) :
  lengthIs len (pinned d len) = fits len d.
Proof. destruct d; simpl; [apply Z.eqb_refl | reflexivity]. Qed.

(** What the body of a vector contract decides. *)
Lemma vector_body_returned (n : Dimension) (vec : JSValue) :
  returned (fst (vector_body n vec))
  = match vec with
    | JSArray entries =>
        fits (length entries) n && forallb isNumberValue entries
    | _ => false
    end.
Proof.
  destruct vec as [x|entries|]; [reflexivity| |reflexivity].
  unfold vector_body. rewrite lengthIs_pinned.
  destruct (fits (length entries) n); cbn [negb fst andb]; [|reflexivity].
  apply vector_entries_returned.
Qed.

(** X27.  While [_env] is ['dev'], [isVectorOfDimension(vector, n)] is
    true exactly when [n] is ['*'] or a positive number, [vector] is an
    array of numbers, and its length is [n] unless [n] is ['*'].  With a
    dimension that is not positive it is false for every value, also
    for the empty array and the dimension 0.  With any other [_env] the
    contract is [noop] and only the dimension is looked at. *)
Theorem isVectorOfDimension_decides (_env : string) (vector : JSValue)
    (n : Dimension) :
  (_env = "dev" ->
   isVectorOfDimension _env vector n
   = validDimension n
     && match vector with
        | JSArray entries =>
            fits (length entries) n && forallb isNumberValue entries
        | _ => false
        end)
  /\ (_env <> "dev" -> isVectorOfDimension _env vector n = validDimension n).
Proof.
  unfold isVectorOfDimension, ensureVectorOfDimension, assert_positive.
  split.
  - intros ->. destruct n as [|z]; cbn [bind validDimension andb].
    + unfold defineContract. cbn [String.eqb Ascii.eqb Bool.eqb].
      rewrite call_returned. apply vector_body_returned.
    + destruct (0 <? z); cbn [bind andb]; [|reflexivity].
      unfold defineContract. cbn [String.eqb Ascii.eqb Bool.eqb].
      rewrite call_returned. apply vector_body_returned.
  - intros Henv. apply String.eqb_neq in Henv.
    destruct n as [|z]; cbn [bind validDimension].
    + unfold defineContract. now rewrite Henv.
    + destruct (0 <? z); cbn [bind]; [|reflexivity].
      unfold defineContract. now rewrite Henv.
Qed.

(** What the loop over the rows decides, for a dimension [n] that is
    ['*'] or not negative. *)
Lemma matrix_rows_returned (rows : list JSValue) :
  forall (n : Dimension) (i : nat),
    match n with Fixed z => 0 <= z | Star => True end ->
    (returned (fst (matrix_rows n i rows)) = true
     <-> exists cols, fits cols n = true
                      /\ forallb (isNumberArray cols) rows = true).
Proof.
  induction rows as [|row rest IH]; intros n i Hn.
  - split; [|reflexivity]. intros _.
    destruct n as [|z]; [now exists 0%nat|].
    exists (Z.to_nat z). split; [|reflexivity]. simpl. apply Z.eqb_eq. lia.
  - destruct row as [x|entries|].
    + split; [discriminate|]. now intros (cols & _ & Hall).
    + cbn [matrix_rows]. rewrite lengthIs_pinned.
      destruct (fits (length entries) n) eqn:Efit; cbn [negb].
      * pose proof (matrix_entries_returned entries i 0) as Hentries.
        destruct (matrix_entries i 0 entries) as [u|message];
          cbn [returned] in Hentries.
        -- rewrite IH by (destruct n; simpl; lia).
           split.
           ++ intros (cols & Hcols & Hall).
              assert (cols = length entries) as ->.
              { destruct n as [|z]; simpl in Hcols, Efit;
                  apply Z.eqb_eq in Hcols; [lia|].
                apply Z.eqb_eq in Efit. lia. }
              exists (length entries). split; [exact Efit|].
              cbn [forallb isNumberArray].
              now rewrite Nat.eqb_refl, <- Hentries, Hall.
           ++ intros (cols & Hcols & Hall). cbn [forallb isNumberArray] in Hall.
              apply andb_true_iff in Hall. destruct Hall as [Hrow Hall].
              apply andb_true_iff in Hrow. destruct Hrow as [Hlen _].
              apply Nat.eqb_eq in Hlen. subst cols.
              exists (length entries). split; [|exact Hall].
              destruct n; simpl; [apply Z.eqb_refl | exact Efit].
        -- split; [discriminate|]. intros (cols & _ & Hall).
           cbn [forallb isNumberArray] in Hall.
           rewrite <- Hentries in Hall.
           now rewrite andb_false_r in Hall.
      * split; [discriminate|]. intros (cols & Hcols & Hall).
        cbn [forallb isNumberArray] in Hall.
        apply andb_true_iff in Hall. destruct Hall as [Hrow _].
        apply andb_true_iff in Hrow. destruct Hrow as [Hlen _].
        apply Nat.eqb_eq in Hlen. subst cols. congruence.
    + split; [discriminate|]. now intros (cols & _ & Hall).
Qed.

Lemma matrix_body_returned (m n : Dimension) (mat : JSValue) :
  match n with Fixed z => 0 <= z | Star => True end ->
  (returned (fst (matrix_body (m, n) mat)) = true
   <-> exists rows cols,
         mat = JSArray rows
         /\ fits (length rows) m = true
         /\ fits cols n = true
         /\ forallb (isNumberArray cols) rows = true).
Proof.
  intros Hn. destruct mat as [x|rows|].
  - split; [discriminate|]. now intros (rows & cols & Hmat & _).
  - cbn [matrix_body]. rewrite lengthIs_pinned.
    destruct (fits (length rows) m) eqn:Efit; cbn [negb].
    + pose proof (matrix_rows_returned rows n 0 Hn) as Hrows.
      destruct (matrix_rows n 0 rows) as [outcome n']. cbn [fst] in *.
      rewrite Hrows. split.
      * intros (cols & Hcols & Hall). now exists rows, cols.
      * intros (rows' & cols & Hmat & _ & Hcols & Hall).
        injection Hmat as <-. now exists cols.
    + split; [discriminate|].
      intros (rows' & cols & Hmat & Hfit & _). injection Hmat as <-.
      congruence.
  - split; [discriminate|]. now intros (rows & cols & Hmat & _).
Qed.

(** X28.  While [_env] is ['dev'], [isMatrixOfDimension(mat, m, n)] is
    true exactly when [m] and [n] are ['*'] or positive numbers and
    [mat] is an array of rows that are arrays of numbers, all of one
    length; the number of rows is [m] and the length of the rows is [n]
    unless they are ['*'].  So the empty array is a matrix of dimension
    ['*'] by ['*'] and not a matrix of dimension 0 by 0.  With any other
    [_env] only the dimensions are looked at. *)
Theorem isMatrixOfDimension_decides (_env : string) (mat : JSValue)
    (m n : Dimension) :
  (_env = "dev" ->
   (isMatrixOfDimension _env mat m n = true
    <-> validDimension m = true /\ validDimension n = true
        /\ exists rows cols,
             mat = JSArray rows
             /\ fits (length rows) m = true
             /\ fits cols n = true
             /\ forallb (isNumberArray cols) rows = true))
  /\ (_env <> "dev" ->
      isMatrixOfDimension _env mat m n = validDimension m && validDimension n)
  /\ isMatrixOfDimension "dev" (JSArray []) Star Star = true
  /\ isMatrixOfDimension "dev" (JSArray []) (Fixed 0) (Fixed 0) = false.
Proof.
  split; [|split; [|split; reflexivity]].
  - intros ->.
    unfold isMatrixOfDimension, ensureMatrixOfDimension.
    destruct (validDimension m) eqn:Em.
    2:{ destruct m as [|z]; [discriminate|]. simpl in Em.
        cbn [assert_positive]. rewrite Em. cbn [bind].
        split; [discriminate | now intros (? & _)]. }
    destruct (validDimension n) eqn:En.
    2:{ destruct n as [|z]; [discriminate|]. simpl in En.
        assert (Hm : assert_positive m = Ok tt).
        { destruct m as [|zm]; [reflexivity|]. simpl in Em.
          cbn [assert_positive]. now rewrite Em. }
        rewrite Hm. cbn [bind assert_positive]. rewrite En. cbn [bind].
        split; [discriminate | now intros (_ & ? & _)]. }
    assert (Hm : assert_positive m = Ok tt).
    { destruct m as [|zm]; [reflexivity|]. simpl in Em.
      cbn [assert_positive]. now rewrite Em. }
    assert (Hn : assert_positive n = Ok tt).
    { destruct n as [|zn]; [reflexivity|]. simpl in En.
      cbn [assert_positive]. now rewrite En. }
    rewrite Hm, Hn. cbn [bind].
    unfold defineContract. cbn [String.eqb Ascii.eqb Bool.eqb].
    rewrite call_returned, matrix_body_returned.
    + split; [intros Hex; repeat split; [exact Hex] | now intros (_ & _ & Hex)].
    + destruct n as [|zn]; [exact I|]. simpl in En. apply Z.ltb_lt in En. lia.
  - intros Henv. apply String.eqb_neq in Henv.
    unfold isMatrixOfDimension, ensureMatrixOfDimension, assert_positive.
    destruct m as [|zm]; destruct n as [|zn]; cbn [validDimension bind];
      repeat match goal with
             | |- context [0 <? ?z] => destruct (0 <? z); cbn [bind andb]
             end;
      try reflexivity; unfold defineContract; now rewrite Henv.
Qed.

(** X29.  The contract that [ensureVectorOfDimension('*')] returns
    accepts an array of numbers of any length at its first call; the
    call assigns the length of its argument to the variable [n] of the
    contract, so from then on the same contract accepts arrays of that
    one length only. *)
Theorem star_contract_is_pinned (msg : option string)
    (contract contract' : Contract Dimension) (entries : list JSValue)
    (outcome : Result unit) :
  ensureVectorOfDimension "dev" Star msg = Ok contract ->
  call vector_body contract (JSArray entries) = (outcome, contract') ->
  returned outcome = forallb isNumberValue entries
  /\ forall vec,
       returned (fst (call vector_body contract' vec)) = true ->
       exists entries', vec = JSArray entries'
                        /\ length entries' = length entries.
Proof.
  unfold ensureVectorOfDimension, defineContract.
  cbn [assert_positive bind String.eqb Ascii.eqb Bool.eqb].
  intros Hc. injection Hc as <-.
  match goal with
  | |- call vector_body (Checking Star ?w) _ = _ -> _ =>
      generalize w; intros whatsWrong
  end.
  intros Hcall.
  pose proof (call_returned vector_body Star whatsWrong (JSArray entries))
    as Hret.
  rewrite Hcall in Hret. cbn [fst] in Hret.
  rewrite vector_body_returned in Hret. cbn [fits andb] in Hret.
  split; [exact Hret|].
  assert (Hc' : contract'
                = Checking (Fixed (Z.of_nat (length entries))) whatsWrong).
  { revert Hcall. unfold call, vector_body. cbn [pinned lengthIs].
    rewrite Z.eqb_refl. cbn [negb].
    destruct (vector_entries 0 entries); intros Hcall;
      now injection Hcall as _ <-. }
  subst contract'. intros vec.
  rewrite call_returned, vector_body_returned.
  destruct vec as [x|entries'|]; try discriminate.
  intros Hvec. apply andb_true_iff in Hvec. destruct Hvec as [Hfit _].
  simpl in Hfit. apply Z.eqb_eq in Hfit.
  exists entries'. split; [reflexivity | lia].
Qed.

End WithCheckTypes.

(** [[1, 2]] is a vector of dimension 2 and of dimension ['*'], and not
    one of dimension 3. *)
Lemma isVectorOfDimension_decides_witness :
  @isVectorOfDimension MoreExamples.exampleCheckTypes "dev"
    (JSArray [JSNumber 1; JSNumber 2]) (Fixed 2) = true
  /\ @isVectorOfDimension MoreExamples.exampleCheckTypes "dev"
       (JSArray [JSNumber 1; JSNumber 2]) (Fixed 3) = false
  /\ @isVectorOfDimension MoreExamples.exampleCheckTypes "prod"
       JSOther (Fixed 3) = true.
Proof.
  split; [|split].
  - now rewrite (proj1 (@isVectorOfDimension_decides
                          MoreExamples.exampleCheckTypes "dev"
                          (JSArray [JSNumber 1; JSNumber 2]) (Fixed 2))).
  - now rewrite (proj1 (@isVectorOfDimension_decides
                          MoreExamples.exampleCheckTypes "dev"
                          (JSArray [JSNumber 1; JSNumber 2]) (Fixed 3))).
  - now rewrite (proj2 (@isVectorOfDimension_decides
                          MoreExamples.exampleCheckTypes "prod"
                          JSOther (Fixed 3))).
Defined.

(** The 2 by 2 identity matrix is a matrix of dimension 2 by ['*']. *)
Lemma isMatrixOfDimension_decides_witness :
  @isMatrixOfDimension MoreExamples.exampleCheckTypes "dev"
    (JSArray [JSArray [JSNumber 1; JSNumber 0];
              JSArray [JSNumber 0; JSNumber 1]]) (Fixed 2) Star = true.
Proof.
  apply (proj1 (@isMatrixOfDimension_decides MoreExamples.exampleCheckTypes
                  "dev" _ (Fixed 2) Star)); [reflexivity|].
  split; [reflexivity|]. split; [reflexivity|].
  exists [JSArray [JSNumber 1; JSNumber 0]; JSArray [JSNumber 0; JSNumber 1]],
         2%nat.
  repeat split.
Defined.

(** A contract for vectors of any length, called on [[1, 2]]. *)
Lemma star_contract_is_pinned_witness :
  (@ensureVectorOfDimension MoreExamples.exampleCheckTypes "dev" Star None
   = Ok (Checking Star "input is not a vector of * dimension.")
   /\ @call _ _ (@vector_body MoreExamples.exampleCheckTypes)
        (Checking Star "input is not a vector of * dimension.")
        (JSArray [JSNumber 1; JSNumber 2])
      = (Ok tt, Checking (Fixed 2) "input is not a vector of * dimension."))
  /\ forall vec,
       returned (fst (@call _ _ (@vector_body MoreExamples.exampleCheckTypes)
                        (Checking (Fixed 2)
                                  "input is not a vector of * dimension.")
                        vec)) = true ->
       exists entries', vec = JSArray entries' /\ length entries' = 2%nat.
Proof.
  split; [split; reflexivity|].
  exact (proj2 (@star_contract_is_pinned MoreExamples.exampleCheckTypes None
                  (Checking Star "input is not a vector of * dimension.")
                  (Checking (Fixed 2) "input is not a vector of * dimension.")
                  [JSNumber 1; JSNumber 2] (Ok tt) eq_refl eq_refl)).
Defined.

End ContractsFacts.

(** ** Assembly: element vectors that do not interact *)

Module AssemblyFacts.
Import JS Numeric SystemVector SystemVectorFacts.

(** The first component of what [toFull()] returns on a fresh object
    over the array [evs]. *)
Lemma toFull_array (dim : Z) (evs : list ElementVector)
    (h : list SparseVector) (p : nat) :
  exists st',
    toFull (mkState (SparseSystemVector_new dim (SrcArray evs)) h p)
    = Ok (sv_toFull (fold_left scatter evs (SparseVector_new dim)), st').
Proof.
  unfold toFull.
  rewrite (sparseVector_first dim (SrcArray evs) evs h p eq_refl).
  simpl. rewrite nth_error_app2 by lia. rewrite Nat.sub_diag. simpl.
  eexists. reflexivity.
Qed.

(** An entry with equation number 0 changes nothing. *)
Lemma scatter_zero_eqnums (ev : ElementVector) (d : SparseVector) :
  Forall (fun en => en = 0) (eqnums ev) -> scatter d ev = d.
Proof.
  unfold scatter. generalize (vector ev) as vec.
  generalize 0%nat as k. generalize (eqnums ev) as ens. clear ev.
  induction ens as [|en ens IH]; intros k vec Hall; [reflexivity|].
  inversion Hall as [|? ? Hen Hrest]; subst. simpl. now apply IH.
Qed.

(** X25.  An element vector whose equation numbers are all 0 contributes
    nothing: wherever it stands in the array of element vectors,
    [toFull()] returns what it returns without it. *)
Theorem zero_eqnums_contribute_nothing (dim : Z)
    (before after : list ElementVector) (ev : ElementVector)
    (h : list SparseVector) (p : nat) :
  Forall (fun en => en = 0) (eqnums ev) ->
  exists out st st',
    toFull (mkState (SparseSystemVector_new dim
                       (SrcArray (before ++ ev :: after))) h p)
    = Ok (out, st)
    /\ toFull (mkState (SparseSystemVector_new dim
                          (SrcArray (before ++ after))) h p)
       = Ok (out, st').
Proof.
  intros Hzero.
  destruct (toFull_array dim (before ++ ev :: after) h p) as (st & Hst).
  destruct (toFull_array dim (before ++ after) h p) as (st' & Hst').
  eexists _, st, st'. split; [exact Hst|]. rewrite Hst'.
  rewrite !fold_left_app. cbn [fold_left].
  now rewrite (scatter_zero_eqnums ev _ Hzero).
Qed.

(** The scenario of the specification with an element vector that has
    no destination put between the two. *)
Lemma zero_eqnums_contribute_nothing_witness :
  Forall (fun en => en = 0) (eqnums (mkElementVector [7; 8]%float [0; 0]))
  /\ exists out st st',
       toFull (mkState (SparseSystemVector_new 3
                 (SrcArray ([ev1] ++ mkElementVector [7; 8]%float [0; 0]
                                  :: [ev2]))) [] 0)
       = Ok (out, st)
       /\ toFull (mkState (SparseSystemVector_new 3
                    (SrcArray ([ev1] ++ [ev2]))) [] 0)
          = Ok (out, st').
Proof.
  assert (Hzero : Forall (fun en => en = 0)
                         (eqnums (mkElementVector [7; 8]%float [0; 0])))
    by (repeat constructor).
  split; [exact Hzero|].
  exact (zero_eqnums_contribute_nothing 3 [ev1] [ev2]
           (mkElementVector [7; 8]%float [0; 0]) [] 0%nat Hzero).
Defined.

(** Two entries that name different positions, or no position, can be
    scattered in either order. *)
Lemma scatter_entry_commute (v1 v2 : list float) (d : SparseVector)
    (en1 en2 : Z) (i1 i2 : nat) :
  en1 = 0 \/ en2 = 0 \/ en1 <> en2 ->
  scatter_entry v2 (scatter_entry v1 d (en1, i1)) (en2, i2)
  = scatter_entry v1 (scatter_entry v2 d (en2, i2)) (en1, i1).
Proof.
  intros Hdisj. unfold scatter_entry.
  destruct (Z.eqb_spec en1 0) as [E1|E1]; cbn [negb]; [reflexivity|].
  destruct (Z.eqb_spec en2 0) as [E2|E2]; cbn [negb]; [reflexivity|].
  assert (Hne : en1 - 1 <> en2 - 1) by lia.
  rewrite !sv_at_set.
  destruct (decide (en1 - 1 = en2 - 1)) as [E|_]; [contradiction|].
  destruct (decide (en2 - 1 = en1 - 1)) as [E|_]; [congruence|].
  unfold sv_set_. cbn [sv_dim sv_entries]. f_equal.
  apply insert_insert_ne. congruence.
Qed.

Lemma scatter_entries_commute_one (v1 v2 : list float) (en1 : Z) (i1 : nat)
    (l2 : list (Z * nat)) :
  Forall (fun eni => en1 = 0 \/ fst eni = 0 \/ en1 <> fst eni) l2 ->
  forall d,
    fold_left (scatter_entry v2) l2 (scatter_entry v1 d (en1, i1))
    = scatter_entry v1 (fold_left (scatter_entry v2) l2 d) (en1, i1).
Proof.
  induction l2 as [|[en2 i2] l2 IH]; intros Hall d; [reflexivity|].
  inversion Hall as [|? ? Hhead Hrest]; subst. cbn [fold_left fst] in *.
  rewrite scatter_entry_commute by exact Hhead. now apply IH.
Qed.

Lemma scatter_entries_commute (v1 v2 : list float) (l1 l2 : list (Z * nat)) :
  Forall (fun e1 =>
            Forall (fun e2 => fst e1 = 0 \/ fst e2 = 0 \/ fst e1 <> fst e2) l2)
         l1 ->
  forall d,
    fold_left (scatter_entry v2) l2 (fold_left (scatter_entry v1) l1 d)
    = fold_left (scatter_entry v1) l1 (fold_left (scatter_entry v2) l2 d).
Proof.
  induction l1 as [|[en1 i1] l1 IH]; intros Hall d; [reflexivity|].
  inversion Hall as [|? ? Hhead Hrest]; subst. cbn [fold_left fst] in *.
  rewrite IH by exact Hrest.
  now rewrite scatter_entries_commute_one.
Qed.

(** Element vectors that share no destination. *)
Lemma scatter_commute (ev1 ev2 : ElementVector) (d : SparseVector) :
  (forall en, en <> 0 -> In en (eqnums ev1) -> In en (eqnums ev2) -> False) ->
  scatter (scatter d ev1) ev2 = scatter (scatter d ev2) ev1.
Proof.
  intros Hdisj. unfold scatter. apply scatter_entries_commute.
  apply List.Forall_forall. intros [en1 i1] Hin1.
  apply List.Forall_forall. intros [en2 i2] Hin2. simpl.
  apply in_combine_l in Hin1. apply in_combine_l in Hin2.
  destruct (Z.eq_dec en1 0) as [?|H1]; [now left|].
  destruct (Z.eq_dec en2 0) as [?|H2]; [right; now left|].
  right. right. intros ->. exact (Hdisj en2 H2 Hin1 Hin2).
Qed.

(** X26.  Two neighbouring element vectors that share no destination
    (no equation number other than 0 occurs in both) can be exchanged:
    [toFull()] returns the same array, entry by entry the same binary64
    value. *)
Theorem disjoint_element_vectors_commute (dim : Z)
    (before after : list ElementVector) (ev ev' : ElementVector)
    (h : list SparseVector) (p : nat) :
  (forall en, en <> 0 -> In en (eqnums ev) -> In en (eqnums ev') -> False) ->
  exists out st st',
    toFull (mkState (SparseSystemVector_new dim
                       (SrcArray (before ++ ev :: ev' :: after))) h p)
    = Ok (out, st)
    /\ toFull (mkState (SparseSystemVector_new dim
                          (SrcArray (before ++ ev' :: ev :: after))) h p)
       = Ok (out, st').
Proof.
  intros Hdisj.
  destruct (toFull_array dim (before ++ ev :: ev' :: after) h p) as (st & Hst).
  destruct (toFull_array dim (before ++ ev' :: ev :: after) h p)
    as (st' & Hst').
  eexists _, st, st'. split; [exact Hst|]. rewrite Hst'.
  rewrite !fold_left_app. cbn [fold_left].
  now rewrite (scatter_commute ev ev' _ Hdisj).
Qed.

(** Two element vectors on the positions 1, 2 and 3, 4. *)
Lemma disjoint_element_vectors_commute_witness :
  (forall en, en <> 0 ->
              In en (eqnums (mkElementVector [1; 2]%float [1; 2])) ->
              In en (eqnums (mkElementVector [3; 4]%float [3; 4])) -> False)
  /\ exists out st st',
       toFull (mkState (SparseSystemVector_new 4
                 (SrcArray ([] ++ mkElementVector [1; 2]%float [1; 2]
                               :: mkElementVector [3; 4]%float [3; 4] :: [])))
                 [] 0)
       = Ok (out, st)
       /\ toFull (mkState (SparseSystemVector_new 4
                    (SrcArray ([] ++ mkElementVector [3; 4]%float [3; 4]
                                  :: mkElementVector [1; 2]%float [1; 2] :: [])))
                    [] 0)
          = Ok (out, st').
Proof.
  assert (Hdisj : forall en, en <> 0 ->
              In en (eqnums (mkElementVector [1; 2]%float [1; 2])) ->
              In en (eqnums (mkElementVector [3; 4]%float [3; 4])) -> False).
  { simpl. intros en _ [<-|[<-|[]]] [H|[H|[]]]; discriminate. }
  split; [exact Hdisj|].
  exact (disjoint_element_vectors_commute 4 [] []
           (mkElementVector [1; 2]%float [1; 2])
           (mkElementVector [3; 4]%float [3; 4]) [] 0%nat Hdisj).
Defined.

End AssemblyFacts.

(** ** gcellset.js: [bfundpar] against [bfun] *)

Module DerivativeFacts.
Import JS Numeric GCell GCellSetOps.

Ltac entrywise := cbn; repeat constructor; ring.

Lemma L2_increment (x h : Q) :
  Forall2 Qeq (increments (entries (L2_bfun (x + h)%Q)) (entries (L2_bfun x)))
              (scaled h (column 0%Q 0 L2_bfundpar)).
Proof. entrywise. Qed.

Lemma Q4_increment_xi (xi eta h : Q) :
  Forall2 Qeq (increments (entries (Q4_bfun (xi + h)%Q eta))
                          (entries (Q4_bfun xi eta)))
              (scaled h (column 0%Q 0 (Q4_bfundpar xi eta))).
Proof. entrywise. Qed.

Lemma Q4_increment_eta (xi eta h : Q) :
  Forall2 Qeq (increments (entries (Q4_bfun xi (eta + h)%Q))
                          (entries (Q4_bfun xi eta)))
              (scaled h (column 0%Q 1 (Q4_bfundpar xi eta))).
Proof. entrywise. Qed.

Lemma H8_increment_xi (xi eta theta h : Q) :
  Forall2 Qeq (increments (entries (H8_bfun (xi + h)%Q eta theta))
                          (entries (H8_bfun xi eta theta)))
              (scaled h (column 0%Q 0 (H8_bfundpar xi eta theta))).
Proof. entrywise. Qed.

Lemma H8_increment_eta (xi eta theta h : Q) :
  Forall2 Qeq (increments (entries (H8_bfun xi (eta + h)%Q theta))
                          (entries (H8_bfun xi eta theta)))
              (scaled h (column 0%Q 1 (H8_bfundpar xi eta theta))).
Proof. entrywise. Qed.

Lemma H8_increment_theta (xi eta theta h : Q) :
  Forall2 Qeq (increments (entries (H8_bfun xi eta (theta + h)%Q))
                          (entries (H8_bfun xi eta theta)))
              (scaled h (column 0%Q 2 (H8_bfundpar xi eta theta))).
Proof. entrywise. Qed.

(** X30.  In exact arithmetic the table of [bfundpar] is the derivative
    of the table of [bfun], for L2, Q4 and H8: the shape functions are
    linear in each parametric coordinate, and moving coordinate [j] of
    any point by any step [h] changes every entry [i] of [bfun] by
    exactly [h] times entry [(i, j)] of [bfundpar] at that point. *)
Theorem bfundpar_is_derivative_of_bfun :
  (forall x h : Q,
      Forall2 Qeq (increments (entries (L2_bfun (x + h)%Q))
                              (entries (L2_bfun x)))
                  (scaled h (column 0%Q 0 L2_bfundpar)))
  /\ (forall xi eta h : Q,
         Forall2 Qeq (increments (entries (Q4_bfun (xi + h)%Q eta))
                                 (entries (Q4_bfun xi eta)))
                     (scaled h (column 0%Q 0 (Q4_bfundpar xi eta)))
         /\ Forall2 Qeq (increments (entries (Q4_bfun xi (eta + h)%Q))
                                    (entries (Q4_bfun xi eta)))
                        (scaled h (column 0%Q 1 (Q4_bfundpar xi eta))))
  /\ (forall xi eta theta h : Q,
         Forall2 Qeq (increments (entries (H8_bfun (xi + h)%Q eta theta))
                                 (entries (H8_bfun xi eta theta)))
                     (scaled h (column 0%Q 0 (H8_bfundpar xi eta theta)))
         /\ Forall2 Qeq (increments (entries (H8_bfun xi (eta + h)%Q theta))
                                    (entries (H8_bfun xi eta theta)))
                        (scaled h (column 0%Q 1 (H8_bfundpar xi eta theta)))
         /\ Forall2 Qeq (increments (entries (H8_bfun xi eta (theta + h)%Q))
                                    (entries (H8_bfun xi eta theta)))
                        (scaled h (column 0%Q 2 (H8_bfundpar xi eta theta)))).
Proof.
  split; [exact L2_increment|]. split.
  - intros xi eta h. split; [apply Q4_increment_xi | apply Q4_increment_eta].
  - intros xi eta theta h.
    split; [apply H8_increment_xi|].
    split; [apply H8_increment_eta | apply H8_increment_theta].
Qed.

End DerivativeFacts.
